(** * The legacy WhatsApp-Web socket of Baileys ([src/Connection/socket.ts])

    A shallow embedding of [makeSocket]: the tag generator, the frame
    codec, the event router, the keep-alive watchdog, the phone-check
    monitor, the query correlator and the teardown path, followed by the
    properties the specification states about them.

    Conventions of the embedding.
    - JavaScript strings and [Buffer]s are byte sequences ([string] is
      the UTF-8 text, [Buffer] its bytes).
    - JavaScript numbers that the socket handles are integers (counters,
      status codes, millisecond timestamps); they are [Z] or [N], and
      [NaN] is [None] where the code can produce it.
    - The closure state of [makeSocket] is the record [State]; every
      function of the socket is a computation in the monad [M], which
      threads the state, collects the observable effects and propagates
      thrown exceptions (for an [async] function: its rejection).
    - Timers and the transport are driven from outside: a timer firing,
      a frame arriving or a promise settling is an [action]. *)

From Stdlib Require Import ZArith NArith Ascii String List Sorted Lia.
From stdpp Require Import base option strings list gmap pretty.

Set Warnings "-register-all".
Open Scope Z_scope.

(** ** JavaScript values *)

(** The JSON-like values that travel through the socket.  [JNode] is an
    instance of the class [BinaryNode] (header, attributes, data). *)
Inductive jsval :=
| JUndefined
| JNull
| JBool (b : bool)
| JNum (n : Z)
| JStr (s : string)
| JArr (xs : list jsval)
| JObj (fields : list (string * jsval))
| JNode (header : string) (attributes : list (string * string)) (data : jsval).

Definition Buffer := list Byte.byte.

(** [string | Buffer]: what [ws] delivers and what [ws.send] accepts. *)
Inductive Data :=
| DStr (s : string)
| DBuf (b : Buffer).

(** ToBoolean. *)
Definition truthy (v : jsval) : bool :=
  match v with
  | JUndefined | JNull => false
  | JBool b => b
  | JNum n => negb (n =? 0)
  | JStr s => negb (String.eqb s "")
  | JArr _ | JObj _ | JNode _ _ _ => true
  end.

(** [a || b]. *)
Definition js_or (a b : jsval) : jsval := if truthy a then a else b.

(** [typeof v]. *)
Definition typeof (v : jsval) : string :=
  match v with
  | JUndefined => "undefined"
  | JBool _ => "boolean"
  | JNum _ => "number"
  | JStr _ => "string"
  | JNull | JArr _ | JObj _ | JNode _ _ _ => "object"
  end.

(** [v instanceof BinaryNode]. *)
Definition instanceof_BinaryNode (v : jsval) : bool :=
  match v with JNode _ _ _ => true | _ => false end.

Definition isArray (v : jsval) : bool :=
  match v with JArr _ => true | _ => false end.

(** [a === b] on primitives (objects compare by identity, which the
    embedding does not track: they are never equal here). *)
Definition strict_eq (a b : jsval) : bool :=
  match a, b with
  | JUndefined, JUndefined | JNull, JNull => true
  | JBool x, JBool y => Bool.eqb x y
  | JNum x, JNum y => x =? y
  | JStr x, JStr y => String.eqb x y
  | _, _ => false
  end.

Fixpoint assoc {A} (k : string) (l : list (string * A)) : option A :=
  match l with
  | [] => None
  | (k', v) :: l' => if String.eqb k k' then Some v else assoc k l'
  end.

Definition attributes_object (attrs : list (string * string)) : jsval :=
  JObj (map (fun kv => (fst kv, JStr (snd kv))) attrs).

Definition char_at (s : string) (i : nat) : jsval :=
  match String.get i s with
  | Some c => JStr (String c EmptyString)
  | None => JUndefined
  end.

(** [v[i]] for an index.  Reading a property of [undefined] or [null]
    throws; the callers below guard those cases, as the source does
    with truthiness tests and [?.]. *)
Definition get_index (v : jsval) (i : nat) : jsval :=
  match v with
  | JArr xs => nth i xs JUndefined
  | JStr s => char_at s i
  | JObj fs => default JUndefined (assoc (pretty i) fs)
  | _ => JUndefined
  end.

(** [v.name] / [v[name]] for a property name. *)
Definition get_prop (v : jsval) (name : string) : jsval :=
  match v with
  | JObj fs => default JUndefined (assoc name fs)
  | JNode h a d =>
      if String.eqb name "header" then JStr h
      else if String.eqb name "attributes" then attributes_object a
      else if String.eqb name "data" then d
      else JUndefined
  | _ => JUndefined
  end.

(** [v?.name] and [v?.[i]]. *)
Definition opt_prop (v : jsval) (name : string) : jsval :=
  match v with JUndefined | JNull => JUndefined | _ => get_prop v name end.
Definition opt_index (v : jsval) (i : nat) : jsval :=
  match v with JUndefined | JNull => JUndefined | _ => get_index v i end.

Definition join (sep : string) (parts : list string) : string :=
  match parts with
  | [] => ""
  | p :: ps => fold_left (fun acc x => acc +:+ sep +:+ x) ps p
  end.

(** ToString, as a template literal applies it. *)
Fixpoint to_string (v : jsval) : string :=
  match v with
  | JUndefined => "undefined"
  | JNull => "null"
  | JBool true => "true"
  | JBool false => "false"
  | JNum n => pretty n
  | JStr s => s
  | JArr xs =>
      join "," (map (fun x => match x with
                              | JUndefined | JNull => ""
                              | _ => to_string x
                              end) xs)
  | JObj _ | JNode _ _ _ => "[object Object]"
  end.

(** [Object.keys(v)] for a truthy [v]; the fields of a [JObj] are kept in
    own-property order. *)
Definition object_keys (v : jsval) : list string :=
  match v with
  | JArr xs => map (fun i => pretty i) (seq 0 (length xs))
  | JStr s => map (fun i => pretty i) (seq 0 (String.length s))
  | JObj fs => map fst fs
  | JNode _ _ _ => ["header"; "attributes"; "data"]
  | _ => []
  end.

(** The index an array-index property name denotes, below [n]. *)
Definition index_of_key (key : string) (n : nat) : option nat :=
  List.find (fun i => String.eqb (pretty i) key) (seq 0 n).

(** [l1[key]] for a key produced by [Object.keys(l1)]. *)
Definition get_key (v : jsval) (key : string) : jsval :=
  match v with
  | JArr xs =>
      match index_of_key key (length xs) with
      | Some i => get_index v i
      | None => JUndefined
      end
  | JStr s =>
      match index_of_key key (String.length s) with
      | Some i => get_index v i
      | None => JUndefined
      end
  | _ => get_prop v key
  end.

(** ** Decimal text *)

Definition hex_val (c : ascii) : option N :=
  let n := N_of_ascii c in
  if ((48 <=? n) && (n <=? 57))%N then Some (n - 48)%N
  else if ((97 <=? n) && (n <=? 102))%N then Some (n - 87)%N
  else if ((65 <=? n) && (n <=? 70))%N then Some (n - 55)%N
  else None.

(** The longest prefix of digits of [s] in the given radix, read as a
    number; [seen] tells whether a digit has been consumed. *)
Fixpoint parse_digits (radix : N) (acc : N) (seen : bool) (s : string) : option N :=
  match s with
  | EmptyString => if seen then Some acc else None
  | String c s' =>
      match hex_val c with
      | Some d =>
          if (d <? radix)%N then parse_digits radix (acc * radix + d)%N true s'
          else if seen then Some acc else None
      | None => if seen then Some acc else None
      end
  end.

(** The white space and the line terminators of ECMAScript
    (StrWhiteSpaceChar), as they stand in the UTF-8 text: the six of
    ASCII, the two bytes of U+00A0, and the three bytes of U+1680,
    U+2000 to U+200A, U+2028, U+2029, U+202F, U+205F, U+3000 and
    U+FEFF. *)
Definition is_white_space (c : ascii) : bool :=
  let n := N_of_ascii c in
  ((n =? 9) || (n =? 10) || (n =? 11) || (n =? 12) || (n =? 13) || (n =? 32))%N.

Definition is_white_space2 (c1 c2 : ascii) : bool :=
  ((N_of_ascii c1 =? 194) && (N_of_ascii c2 =? 160))%N.

Definition is_white_space3 (c1 c2 c3 : ascii) : bool :=
  let a := N_of_ascii c1 in
  let b := N_of_ascii c2 in
  let c := N_of_ascii c3 in
  (((a =? 225) && (b =? 154) && (c =? 128))
   || ((a =? 226) && (b =? 128)
       && (((128 <=? c) && (c <=? 138)) || (c =? 168) || (c =? 169) || (c =? 175)))
   || ((a =? 226) && (b =? 129) && (c =? 159))
   || ((a =? 227) && (b =? 128) && (c =? 128))
   || ((a =? 239) && (b =? 187) && (c =? 191)))%N.

Fixpoint trim_start (s : string) : string :=
  match s with
  | EmptyString => EmptyString
  | String c1 s1 =>
      if is_white_space c1 then trim_start s1
      else
        match s1 with
        | EmptyString => s
        | String c2 s2 =>
            if is_white_space2 c1 c2 then trim_start s2
            else
              match s2 with
              | EmptyString => s
              | String c3 s3 =>
                  if is_white_space3 c1 c2 c3 then trim_start s3 else s
              end
        end
  end.

(** An optional sign: whether it is a minus, and what follows it. *)
Definition strip_sign (s : string) : bool * string :=
  match s with
  | String c r =>
      if Ascii.eqb c "-" then (true, r)
      else if Ascii.eqb c "+" then (false, r)
      else (false, s)
  | EmptyString => (false, s)
  end.

(** An optional [0x] or [0X]: the radix, and the digits. *)
Definition strip_radix (s : string) : N * string :=
  match s with
  | String c1 (String c2 r) =>
      if Ascii.eqb c1 "0" && (Ascii.eqb c2 "x" || Ascii.eqb c2 "X") then (16%N, r)
      else (10%N, s)
  | _ => (10%N, s)
  end.

(** [parseInt(s)] without a radix argument: leading white space, an
    optional sign, an optional [0x] prefix, then the longest prefix of
    digits.  [None] is [NaN]. *)
Definition parseInt (s : string) : option Z :=
  let '(neg, s2) := strip_sign (trim_start s) in
  let '(radix, s3) := strip_radix s2 in
  match parse_digits radix 0 false s3 with
  | Some n => Some (if neg then - Z.of_N n else Z.of_N n)
  | None => None
  end.

(** [parseInt(s, 10)]: no prefix is looked for. *)
Definition parseInt10 (s : string) : option Z :=
  let '(neg, s2) := strip_sign (trim_start s) in
  match parse_digits 10 0 false s2 with
  | Some n => Some (if neg then - Z.of_N n else Z.of_N n)
  | None => None
  end.

(** A [Date]: its time value, [None] for an Invalid Date. *)
Definition Date := option Z.

(** [new Date(v)] for a number [v]: TimeClip. *)
Definition new_Date (v : option Z) : Date :=
  match v with
  | Some t => if Z.abs t <=? 8640000000000000 then Some t else None
  | None => None
  end.

(** ** Errors *)

(** Modelled from the spec: the enumeration [DisconnectReason], declared
    in [../Types] (not under src/); its members are the ones the
    specification lists. *)
Inductive DisconnectReason :=
| connectionLost
| connectionClosed
| connectionReplaced
| timedOut
| serverOverloaded
| badSession.

(** The [statusCode] option given to [new Boom]: a numeric literal, a
    member of [DisconnectReason], or a value taken from a payload. *)
Inductive status :=
| StLit (n : Z)
| StReason (r : DisconnectReason)
| StRaw (v : jsval).

(** A [Boom] that [new Boom(message, { statusCode, data })] has built;
    [data], when given, is [{ query, message }]. *)
Record Boom := mkBoom {
  boom_message : string;
  boom_statusCode : status;
  boom_data : option (jsval * string)
}.

(** What can be thrown, or passed around as an error; [EError] is a
    plain [Error]. *)
Inductive exn :=
| EBoom (b : Boom)
| EError (msg : string)
| ETypeError (msg : string)
| EValue (v : jsval)
| EExternal (id : nat).

(** ** The closure state of [makeSocket] *)

Record AuthInfo := mkAuthInfo { encKey : Buffer; macKey : Buffer }.

(** [ws.readyState]. *)
Inductive ReadyState := CONNECTING | OPEN | CLOSING | CLOSED.

(** The functions that are registered as event listeners.  The first six
    are created once by [makeSocket]; the others are closures of one call
    of [waitForMessage] or [waitForSocketOpen], identified by the call;
    [External] is a listener of the code that uses the socket. *)
Inductive listener :=
| OnMessageRecieved
| OnWsOpen
| OnWsError
| OnWsClose
| PhoneConnectionListener
| CmdDisconnectListener
| OnRecv (q : nat)
| OnErr (q : nat)
| ExitQueryListener (q : nat)
| OpenOnOpen (w : nat)
| OpenOnClose (w : nat)
| External (id : nat).

Global Instance listener_eq_dec : EqDecision listener.
Proof. solve_decision. Defined.

(** The timers the socket arms. *)
Inductive timer :=
| KeepAliveReq
| PhoneCheckInterval
| ExitQueryTimeout (q : nat)
| WaitTimeout (q : nat).

Global Instance timer_eq_dec : EqDecision timer.
Proof. solve_decision. Defined.

Definition timer_code (t : timer) : (nat + nat) + bool :=
  match t with
  | KeepAliveReq => inr true
  | PhoneCheckInterval => inr false
  | ExitQueryTimeout q => inl (inl q)
  | WaitTimeout q => inl (inr q)
  end.

Definition timer_decode (c : (nat + nat) + bool) : timer :=
  match c with
  | inr true => KeepAliveReq
  | inr false => PhoneCheckInterval
  | inl (inl q) => ExitQueryTimeout q
  | inl (inr q) => WaitTimeout q
  end.

Global Instance timer_countable : Countable timer.
Proof.
  apply (inj_countable' timer_code timer_decode).
  intros []; reflexivity.
Defined.

(** One call of [waitForMessage]: its arguments, its local variables and
    the state of the promise it awaits. *)
Record Wait := mkWait {
  w_tag : string;
  w_requiresPhoneConnection : bool;
  w_onRecv : option listener;
  w_onErr : option listener;
  (** [cancelPhoneChecker] has been assigned *)
  w_cancelPhoneChecker : bool;
  (** the argument [cancel] that [exitQueryIfResponseNotExpected] received *)
  w_cancel : option listener;
  (** how the awaited promise settled: a rejection or a value *)
  w_settled : option (exn + jsval);
  (** the [finally] block has run *)
  w_finished : bool
}.

(** One suspended call of [waitForSocketOpen]. *)
Record OpenWait := mkOpenWait {
  (** how the promise settled: rejected with a reason, or resolved *)
  o_settled : option (option exn + unit);
  o_finished : bool
}.

(** What the continuation of one call of [query] still needs: the request
    payload and [expect200]. *)
Record PendingQuery := mkQuery {
  q_json : jsval;
  q_expect200 : bool
}.

Record State := mkState {
  epoch : N;
  lastDateRecv : option Date;
  authInfo : option AuthInfo;
  phoneCheckInterval : bool;
  phoneCheckListeners : Z;
  readyState : ReadyState;
  (** listeners of [ws] and of [socketEvents], per event, in
      registration order *)
  wsListeners : gmap string (list listener);
  socketEvents : gmap string (list listener);
  (** the armed timers *)
  timers : gset timer;
  waits : gmap nat Wait;
  opens : gmap nat OpenWait;
  queries : gmap nat PendingQuery;
  (** the next call identifier *)
  nextId : nat
}.

Definition set_epoch (v : N) (s : State) : State :=
  mkState v (lastDateRecv s) (authInfo s) (phoneCheckInterval s)
    (phoneCheckListeners s) (readyState s) (wsListeners s) (socketEvents s)
    (timers s) (waits s) (opens s) (queries s) (nextId s).
Definition set_lastDateRecv (v : option Date) (s : State) : State :=
  mkState (epoch s) v (authInfo s) (phoneCheckInterval s)
    (phoneCheckListeners s) (readyState s) (wsListeners s) (socketEvents s)
    (timers s) (waits s) (opens s) (queries s) (nextId s).
Definition set_authInfo (v : option AuthInfo) (s : State) : State :=
  mkState (epoch s) (lastDateRecv s) v (phoneCheckInterval s)
    (phoneCheckListeners s) (readyState s) (wsListeners s) (socketEvents s)
    (timers s) (waits s) (opens s) (queries s) (nextId s).
Definition set_phoneCheckInterval (v : bool) (s : State) : State :=
  mkState (epoch s) (lastDateRecv s) (authInfo s) v (phoneCheckListeners s)
    (readyState s) (wsListeners s) (socketEvents s) (timers s) (waits s)
    (opens s) (queries s) (nextId s).
Definition set_phoneCheckListeners (v : Z) (s : State) : State :=
  mkState (epoch s) (lastDateRecv s) (authInfo s) (phoneCheckInterval s) v
    (readyState s) (wsListeners s) (socketEvents s) (timers s) (waits s)
    (opens s) (queries s) (nextId s).
Definition set_readyState (v : ReadyState) (s : State) : State :=
  mkState (epoch s) (lastDateRecv s) (authInfo s) (phoneCheckInterval s)
    (phoneCheckListeners s) v (wsListeners s) (socketEvents s) (timers s)
    (waits s) (opens s) (queries s) (nextId s).
Definition set_wsListeners (v : gmap string (list listener)) (s : State) : State :=
  mkState (epoch s) (lastDateRecv s) (authInfo s) (phoneCheckInterval s)
    (phoneCheckListeners s) (readyState s) v (socketEvents s) (timers s)
    (waits s) (opens s) (queries s) (nextId s).
Definition set_socketEvents (v : gmap string (list listener)) (s : State) : State :=
  mkState (epoch s) (lastDateRecv s) (authInfo s) (phoneCheckInterval s)
    (phoneCheckListeners s) (readyState s) (wsListeners s) v (timers s)
    (waits s) (opens s) (queries s) (nextId s).
Definition set_timers (v : gset timer) (s : State) : State :=
  mkState (epoch s) (lastDateRecv s) (authInfo s) (phoneCheckInterval s)
    (phoneCheckListeners s) (readyState s) (wsListeners s) (socketEvents s) v
    (waits s) (opens s) (queries s) (nextId s).
Definition set_waits (v : gmap nat Wait) (s : State) : State :=
  mkState (epoch s) (lastDateRecv s) (authInfo s) (phoneCheckInterval s)
    (phoneCheckListeners s) (readyState s) (wsListeners s) (socketEvents s)
    (timers s) v (opens s) (queries s) (nextId s).
Definition set_opens (v : gmap nat OpenWait) (s : State) : State :=
  mkState (epoch s) (lastDateRecv s) (authInfo s) (phoneCheckInterval s)
    (phoneCheckListeners s) (readyState s) (wsListeners s) (socketEvents s)
    (timers s) (waits s) v (queries s) (nextId s).
Definition set_queries (v : gmap nat PendingQuery) (s : State) : State :=
  mkState (epoch s) (lastDateRecv s) (authInfo s) (phoneCheckInterval s)
    (phoneCheckListeners s) (readyState s) (wsListeners s) (socketEvents s)
    (timers s) (waits s) (opens s) v (nextId s).
Definition set_nextId (v : nat) (s : State) : State :=
  mkState (epoch s) (lastDateRecv s) (authInfo s) (phoneCheckInterval s)
    (phoneCheckListeners s) (readyState s) (wsListeners s) (socketEvents s)
    (timers s) (waits s) (opens s) (queries s) v.

(** ** Observable effects *)

Inductive emitter := Ws | SocketEvents.

(** What an event carries to its listeners. *)
Inductive arg :=
| ArgNone
| ArgJson (json : jsval)
| ArgError (error : option exn)
| ArgData (message : Data).

Inductive level := Trace | Debug | Info | Warn.

Inductive effect :=
(** [ws.send(data)] hands the frame [data] to the open transport *)
| WsSend (data : Data)
(** [ws.close()] *)
| WsClose
(** a listener is called by [emit] *)
| Invoke (em : emitter) (event : string) (l : listener) (a : arg)
(** a call of the logger *)
| Log (lv : level) (msg : string)
(** [decodeWAMessage(message, authInfo)] is called *)
| DecodeCall (message : Data)
(** the callback [phoneConnectionChanged] of the configuration *)
| PhoneConnectionChanged (connected : bool)
(** an exception leaves a timer callback or an event handler, or a
    promise that nobody awaits is rejected *)
| Uncaught (e : exn)
(** [generateMessageTag] returns [tag]: a record of the call, for the
    properties that speak about the tags a socket has generated *)
| TagGenerated (tag : string).

(** ** The monad of socket computations *)

Inductive outcome (A : Type) :=
| Ret (a : A)
| Thrown (e : exn).
Arguments Ret {A} a.
Arguments Thrown {A} e.

Definition M (A : Type) : Type := State -> outcome A * State * list effect.

Global Instance M_ret : MRet M := fun A a s => (Ret a, s, []).

Global Instance M_bind : MBind M := fun A B f m s =>
  match m s with
  | (Ret a, s1, t1) =>
      match f a s1 with
      | (r, s2, t2) => (r, s2, t1 ++ t2)
      end
  | (Thrown e, s1, t1) => (Thrown e, s1, t1)
  end.

Definition get_state : M State := fun s => (Ret s, s, []).
Definition modify (f : State -> State) : M unit := fun s => (Ret tt, f s, []).
Definition tell (e : effect) : M unit := fun s => (Ret tt, s, [e]).
Definition throw {A} (e : exn) : M A := fun s => (Thrown e, s, []).

(** [try { m } catch (e) { h e }]. *)
Definition try_catch {A} (m : M A) (h : exn -> M A) : M A := fun s =>
  match m s with
  | (Ret a, s1, t1) => (Ret a, s1, t1)
  | (Thrown e, s1, t1) =>
      match h e s1 with
      | (r, s2, t2) => (r, s2, t1 ++ t2)
      end
  end.

Definition when (b : bool) (m : M unit) : M unit :=
  if b then m else mret tt.

Fixpoint for_each {A} (l : list A) (f : A -> M unit) : M unit :=
  match l with
  | [] => mret tt
  | x :: l' => f x ;; for_each l' f
  end.

(** The state and the effects of a run. *)
Definition state_of {A} (r : outcome A * State * list effect) : State := snd (fst r).
Definition effects_of {A} (r : outcome A * State * list effect) : list effect := snd r.
Definition outcome_of {A} (r : outcome A * State * list effect) : outcome A := fst (fst r).

(** ** The environment of the socket

    The configuration passed to [makeSocket], the constants of
    [../Defaults] and [../Types], and the collaborators of [../Utils],
    [../BinaryNode] and the JavaScript library that the socket calls but
    does not define. *)

Inductive decoded :=
| DecodeError (e : exn)
| Decoded (messageTag : string) (json : jsval).

Record Env := mkEnv {
  keepAliveIntervalMs : Z;
  expectResponseTimeout : Z;
  phoneResponseTimeMs : Z;
  loggerLevel : string;
  (** [unixTimestampSeconds(new Date())] when the socket is made *)
  referenceDateSeconds : N;
  DEF_TAG_PREFIX : string;
  DEF_CALLBACK_PREFIX : string;
  PHONE_CONNECTION_CB : string;
  (** the default [binaryTag] of [setQuery], [[WAMetric.group, WAFlag.ignore]] *)
  WAMetric_group : Z;
  WAFlag_ignore : Z;
  toBuffer : jsval -> Buffer;
  aesEncrypt : Buffer -> Buffer -> Buffer;
  hmacSign : Buffer -> Buffer -> Buffer;
  decodeWAMessage : Data -> option AuthInfo -> decoded;
  JSON_stringify : jsval -> string;
  (** ToNumber of a string; [None] is [NaN] *)
  StringToNumber : string -> option Z;
  (** [STATUS_CODES] of [http] *)
  STATUS_CODES : Z -> option string
}.

(** ** Event emitters *)

Definition registry (em : emitter) (s : State) : gmap string (list listener) :=
  match em with Ws => wsListeners s | SocketEvents => socketEvents s end.

Definition set_registry (em : emitter) (r : gmap string (list listener)) : State -> State :=
  match em with Ws => set_wsListeners r | SocketEvents => set_socketEvents r end.

Definition listeners (em : emitter) (event : string) (s : State) : list listener :=
  default [] (registry em s !! event).

(** [em.on(event, l)] *)
Definition on (em : emitter) (event : string) (l : listener) : M unit :=
  modify (fun s => set_registry em (<[event := listeners em event s ++ [l]]> (registry em s)) s).

Fixpoint remove_first (l : listener) (ls : list listener) : list listener :=
  match ls with
  | [] => []
  | x :: ls' => if decide (x = l) then ls' else x :: remove_first l ls'
  end.

(** [removeListener] takes out the most recently added instance. *)
Definition remove_last (l : listener) (ls : list listener) : list listener :=
  rev (remove_first l (rev ls)).

(** [em.off(event, l)] *)
Definition off (em : emitter) (event : string) (l : listener) : M unit :=
  modify (fun s =>
    match remove_last l (listeners em event s) with
    | [] => set_registry em (delete event (registry em s)) s
    | ls => set_registry em (<[event := ls]> (registry em s)) s
    end).

(** [em.off(event, f)] where [f] is a variable that may still be
    [undefined]: the emitter rejects a listener that is not a function. *)
Definition off_var (em : emitter) (event : string) (f : option listener) : M unit :=
  match f with
  | Some l => off em event l
  | None => throw (ETypeError "The listener argument must be of type function")
  end.

(** [em.removeAllListeners(event)] *)
Definition removeAllListeners (em : emitter) (event : string) : M unit :=
  modify (fun s => set_registry em (delete event (registry em s)) s).

(** [em.emit(event, a)]: the listeners registered when the emission
    starts are called in order; the result tells whether there was one.
    [invoke] runs the body of a listener. *)
Definition emit (invoke : listener -> arg -> M unit)
    (em : emitter) (event : string) (a : arg) : M bool :=
  s ← get_state;
  let ls := listeners em event s in
  for_each ls (fun l => tell (Invoke em event l a) ;; invoke l a) ;;
  mret (negb (bool_decide (ls = []))).

(** Timers. *)
Definition set_timer (t : timer) : M unit :=
  modify (fun s => set_timers (timers s ∪ {[ t ]}) s).
Definition clear_timer (t : timer) : M unit :=
  modify (fun s => set_timers (timers s ∖ {[ t ]}) s).

Definition dquote : string := String (ascii_of_nat 34) EmptyString.
Definition squote : string := String (ascii_of_nat 39) EmptyString.

Definition byte_of_Z (z : Z) : Byte.byte :=
  default Byte.x00 (Byte.of_N (Z.to_N (z mod 256))).

(** [Buffer.from(s)] and [Buffer.from(array)]. *)
Definition Buffer_from_string (s : string) : Buffer := list_byte_of_string s.
Definition Buffer_from_array (a : list Z) : Buffer := map byte_of_Z a.

Record SocketSendMessageOptions := mkSendOptions {
  sm_json : jsval;
  sm_binaryTag : option (list Z);
  sm_tag : option string;
  sm_longTag : bool
}.

Record SocketQueryOptions := mkQueryOptions {
  qo_json : jsval;
  qo_timeoutMs : option Z;
  qo_expect200 : bool;
  qo_tag : option string;
  qo_longTag : bool;
  qo_binaryTag : option (list Z);
  qo_requiresPhoneConnection : bool
}.

Definition ReadyState_eqb (a b : ReadyState) : bool :=
  match a, b with
  | CONNECTING, CONNECTING | OPEN, OPEN | CLOSING, CLOSING | CLOSED, CLOSED => true
  | _, _ => false
  end.

(** The error of [ws.send] on a transport that is not open. *)
Definition not_open (r : ReadyState) : exn :=
  EError ("WebSocket is not open: readyState "
          +:+ match r with
              | CONNECTING => "0 (CONNECTING)"
              | OPEN => "1 (OPEN)"
              | CLOSING => "2 (CLOSING)"
              | CLOSED => "3 (CLOSED)"
              end).

(** The constructor of [@hapi/boom] reads the status as
    [parseInt(statusCode, 10)], 500 when [statusCode] is [undefined],
    and asserts that it is a number of 400 or more.  The literals that
    the socket passes are; the members of [DisconnectReason] are taken
    to be. *)
Definition Boom_accepts (st : status) : bool :=
  match st with
  | StLit n => 400 <=? n
  | StReason _ => true
  | StRaw JUndefined => true
  (* from 1e21 on the text of a number is in exponent notation, of which
     [parseInt] reads the leading digit *)
  | StRaw (JNum n) => (400 <=? n) && (n <? 10 ^ 21)
  | StRaw v =>
      match parseInt10 (to_string v) with
      | Some n => 400 <=? n
      | None => false
      end
  end.

Definition status_value (st : status) : jsval :=
  match st with
  | StLit n => JNum n
  | StReason _ => JUndefined
  | StRaw v => v
  end.

(** ** The socket *)

Section Socket.

Context (env : Env).

(** generate message tag and increment epoch *)
Definition generateMessageTag (longTag : bool) : M string :=
  s ← get_state;
  let tag :=
    pretty (if longTag then referenceDateSeconds env
            else (referenceDateSeconds env mod 1000)%N)
    +:+ ".--" +:+ pretty (epoch s) in
  modify (set_epoch (epoch s + 1)%N) ;;
  tell (TagGenerated tag) ;;
  mret tag.

(** [new Boom(message, { statusCode, data })] as an expression: the
    [Boom], or the plain [Error] that the constructor throws when its
    assertion on the status fails, whose message is the text of the
    assertion and the status, a string as it is (an empty one is left
    out) and any other value as JSON.  The embedding writes the [Boom]
    itself where the status is a literal or a member of
    [DisconnectReason]. *)
Definition new_Boom (message : string) (statusCode : status)
    (data : option (jsval * string)) : exn :=
  if Boom_accepts statusCode then EBoom (mkBoom message statusCode data)
  else EError ("First argument must be a number (400+):"
               +:+ match status_value statusCode with
                   | JStr text => if String.eqb text "" then "" else " " +:+ text
                   | v => " " +:+ JSON_stringify env v
                   end).

(** [sendPromise.call(ws, data)], where [sendPromise] is
    [promisify(ws.send)].  [ws.send] hands the frame to the transport
    when the transport is open; while it is connecting [ws.send]
    throws, and once it is closing or closed [ws.send] passes the error
    to its callback: the promise is rejected and no frame goes out.  A
    frame that an open transport has taken is written. *)
Definition sendRawMessage (data : Data) : M unit :=
  s ← get_state;
  if ReadyState_eqb (readyState s) OPEN then tell (WsSend data)
  else throw (not_open (readyState s)).

(** [tag || generateMessageTag(longTag)] *)
Definition tag_or_generate (tag : option string) (longTag : bool) : M string :=
  match tag with
  | Some t => if String.eqb t "" then generateMessageTag longTag else mret t
  | None => generateMessageTag longTag
  end.

(** Send a message to the WA servers.  The function is [async]: a
    [Thrown] outcome is the rejection of its promise; everything up to
    and including the call of [ws.send] runs at the call. *)
Definition sendMessage (o : SocketSendMessageOptions) : M string :=
  tag ← tag_or_generate (sm_tag o) (sm_longTag o);
  when (String.eqb (loggerLevel env) "trace") (tell (Log Trace "communication")) ;;
  data ← match sm_binaryTag o with
         | Some binaryTag =>
             if negb (instanceof_BinaryNode (sm_json o)) then
               throw (EBoom (mkBoom
                 ("Invalid binary message of type " +:+ dquote +:+ typeof (sm_json o)
                    +:+ dquote +:+ ". Must be BinaryNode")
                 (StLit 400) None))
             else
               s ← get_state;
               match authInfo s with
               | None =>
                   throw (EBoom (mkBoom "No encryption/mac keys to encrypt node with"
                                        (StLit 400) None))
               | Some keys =>
                   let binary := toBuffer env (sm_json o) in
                   let buff := aesEncrypt env binary (encKey keys) in
                   let sign := hmacSign env buff (macKey keys) in
                   mret (DBuf (Buffer_from_string (tag +:+ ",")
                                 ++ Buffer_from_array binaryTag ++ sign ++ buff))
               end
         | None => mret (DStr (tag +:+ "," +:+ JSON_stringify env (sm_json o)))
         end;
  sendRawMessage data ;;
  mret tag.

Definition clearPhoneCheckInterval : M unit :=
  modify (fun s => set_phoneCheckListeners (phoneCheckListeners s - 1) s) ;;
  s ← get_state;
  when (phoneCheckListeners s <=? 0)
    (clear_timer PhoneCheckInterval ;;
     modify (set_phoneCheckInterval false) ;;
     modify (set_phoneCheckListeners 0)).

(** [ws.close()]: the transport starts its closing handshake. *)
Definition ws_close : M unit :=
  tell WsClose ;; modify (set_readyState CLOSING).

(** Listeners of the code that uses the socket: the embedding records
    that they are called and nothing more. *)
Definition external_only (l : listener) (a : arg) : M unit := mret tt.

(** [end(error)].  Only the code that uses the socket listens to
    ['ws-close']. *)
Definition end_ (error : option exn) : M unit :=
  tell (Log Debug "connection closed") ;;
  removeAllListeners Ws "close" ;;
  removeAllListeners Ws "error" ;;
  removeAllListeners Ws "open" ;;
  removeAllListeners Ws "message" ;;
  modify (set_phoneCheckListeners 0) ;;
  clear_timer KeepAliveReq ;;
  clearPhoneCheckInterval ;;
  s ← get_state;
  when (negb (ReadyState_eqb (readyState s) CLOSED)
        && negb (ReadyState_eqb (readyState s) CLOSING))
    ws_close ;;
  emit external_only Ws "ws-close" (ArgError error) ;;
  (* so it cannot be re-emitted *)
  removeAllListeners Ws "ws-close".

(** *** Calls of [waitForMessage] *)

Definition update_wait (q : nat) (f : Wait -> Wait) : M unit :=
  modify (fun s => set_waits (alter f q (waits s)) s).

Definition set_w_onRecv (v : option listener) (w : Wait) : Wait :=
  mkWait (w_tag w) (w_requiresPhoneConnection w) v (w_onErr w)
    (w_cancelPhoneChecker w) (w_cancel w) (w_settled w) (w_finished w).
Definition set_w_onErr (v : option listener) (w : Wait) : Wait :=
  mkWait (w_tag w) (w_requiresPhoneConnection w) (w_onRecv w) v
    (w_cancelPhoneChecker w) (w_cancel w) (w_settled w) (w_finished w).
Definition set_w_cancelPhoneChecker (v : bool) (w : Wait) : Wait :=
  mkWait (w_tag w) (w_requiresPhoneConnection w) (w_onRecv w) (w_onErr w)
    v (w_cancel w) (w_settled w) (w_finished w).
Definition set_w_cancel (v : option listener) (w : Wait) : Wait :=
  mkWait (w_tag w) (w_requiresPhoneConnection w) (w_onRecv w) (w_onErr w)
    (w_cancelPhoneChecker w) v (w_settled w) (w_finished w).
Definition set_w_finished (v : bool) (w : Wait) : Wait :=
  mkWait (w_tag w) (w_requiresPhoneConnection w) (w_onRecv w) (w_onErr w)
    (w_cancelPhoneChecker w) (w_cancel w) (w_settled w) v.

(** A promise settles once: later calls of [resolve] and [reject] are
    ignored. *)
Definition settle_wait (r : exn + jsval) (w : Wait) : Wait :=
  match w_settled w with
  | Some _ => w
  | None =>
      mkWait (w_tag w) (w_requiresPhoneConnection w) (w_onRecv w) (w_onErr w)
        (w_cancelPhoneChecker w) (w_cancel w) (Some r) (w_finished w)
  end.

(** [onRecv = resolve] *)
Definition onRecv (q : nat) (json : jsval) : M unit :=
  update_wait q (settle_wait (inr json)) ;;
  clear_timer (WaitTimeout q).

(** [onErr = err => reject(err || new Boom('Connection Closed', { statusCode: 429 }))] *)
Definition onErr (q : nat) (err : option exn) : M unit :=
  update_wait q (settle_wait (inl (default
    (EBoom (mkBoom "Connection Closed" (StLit 429) None)) err))) ;;
  clear_timer (WaitTimeout q).

(** The value a listener receives as its first parameter [err]; a falsy
    value makes [err || ...] take the default. *)
Definition arg_error (a : arg) : option exn :=
  match a with
  | ArgError e => e
  | ArgJson v => if truthy v then Some (EValue v) else None
  | ArgNone | ArgData _ => None
  end.

(** Exits a query if the phone connection is active and no response is
    still found: the listener of [exitQueryIfResponseNotExpected].  Its
    parameter is the array pattern [[, connected]]. *)
Definition exitQueryListener (q : nat) (json : jsval) : M unit :=
  connected ← match json with
              | JArr _ | JStr _ => mret (get_index json 1)
              | _ => throw (ETypeError "object is not iterable")
              end;
  when (truthy connected)
    (set_timer (ExitQueryTimeout q) ;;
     off SocketEvents (PHONE_CONNECTION_CB env) (ExitQueryListener q)).

(** The callback of the timer that [exitQueryListener] arms: it calls
    [cancel], the second argument [exitQueryIfResponseNotExpected] was
    given. *)
Definition exitQueryTimeout (q : nat) : M unit :=
  clear_timer (ExitQueryTimeout q) ;;
  tell (Log Info "cancelling wait for message as a response is no longer expected from the phone") ;;
  s ← get_state;
  match waits s !! q with
  | Some w =>
      match w_cancel w with
      | Some (OnErr q') =>
          onErr q' (Some (EBoom (mkBoom "Not expecting a response" (StLit 422) None)))
      | Some _ => mret tt
      | None => throw (ETypeError "cancel is not a function")
      end
  | None => mret tt
  end.

Definition exitQueryIfResponseNotExpected (q : nat) (cancel : option listener) : M unit :=
  update_wait q (set_w_cancel cancel) ;;
  on SocketEvents (PHONE_CONNECTION_CB env) (ExitQueryListener q).

(** The function [exitQueryIfResponseNotExpected] returns. *)
Definition cancelPhoneChecker (q : nat) : M unit :=
  off SocketEvents (PHONE_CONNECTION_CB env) (ExitQueryListener q) ;;
  clear_timer (ExitQueryTimeout q).

(** interval is started when a query takes too long to respond *)
Definition startPhoneCheckInterval : M unit :=
  modify (fun s => set_phoneCheckListeners (phoneCheckListeners s + 1) s) ;;
  s ← get_state;
  when (negb (phoneCheckInterval s))
    (set_timer PhoneCheckInterval ;;
     modify (set_phoneCheckInterval true)).

(** checks for phone connection *)
Definition sendAdminTest : M string :=
  sendMessage (mkSendOptions (JArr [JStr "admin"; JStr "test"]) None None false).

(** The callback of the phone-check interval.  [sendAdminTest] runs up
    to its write at the call; its promise is dropped, so that a
    rejection is reported, unhandled, once the callback has returned. *)
Definition phoneCheckTick : M unit :=
  s ← get_state;
  if phoneCheckListeners s <=? 0 then
    tell (Log Warn "phone check called without listeners")
  else
    tell (Log Info "checking phone connection...") ;;
    rejection ← try_catch (sendAdminTest ;; mret None) (fun e => mret (Some e));
    tell (PhoneConnectionChanged false) ;;
    match rejection with
    | Some e => tell (Uncaught e)
    | None => mret tt
    end.

(** Modelled from the spec: [promiseTimeout] of [../Utils] (not under
    src/), the wait that races the value, the deadline and the close of
    the connection.  It runs the executor at once and, when a timeout is
    given, arms a timer that rejects the promise; the timer goes when the
    promise settles. *)
Definition promiseTimeout (q : nat) (timeoutMs : option Z) (executor : M unit) : M unit :=
  when (match timeoutMs with Some ms => negb (ms =? 0) | None => false end)
    (set_timer (WaitTimeout q)) ;;
  executor.

Definition waitTimeout (q : nat) : M unit :=
  update_wait q (settle_wait (inl (EBoom (mkBoom "Timed Out" (StReason timedOut) None)))) ;;
  clear_timer (WaitTimeout q).

(** Wait for a message with a certain tag to be received: the part of
    [waitForMessage] that runs at the call, up to the [await].  The
    result identifies the call. *)
Definition waitForMessage (tag : string) (requiresPhoneConnection : bool)
    (timeoutMs : option Z) : M nat :=
  s ← get_state;
  let q := nextId s in
  modify (set_nextId (S q)) ;;
  (* let onRecv, onErr, cancelPhoneChecker *)
  modify (fun s => set_waits
    (<[q := mkWait tag requiresPhoneConnection None None false None None false]> (waits s)) s) ;;
  when requiresPhoneConnection
    (startPhoneCheckInterval ;;
     s ← get_state;
     exitQueryIfResponseNotExpected q (w ← waits s !! q; w_onErr w) ;;
     update_wait q (set_w_cancelPhoneChecker true)) ;;
  promiseTimeout q timeoutMs
    (update_wait q (set_w_onRecv (Some (OnRecv q))) ;;
     update_wait q (set_w_onErr (Some (OnErr q))) ;;
     on SocketEvents ("TAG:" +:+ tag) (OnRecv q) ;;
     on Ws "close" (OnErr q) ;;
     on Ws "error" (OnErr q)) ;;
  mret q.

(** The [finally] block of [waitForMessage]. *)
Definition waitForMessage_finally (q : nat) : M unit :=
  s ← get_state;
  match waits s !! q with
  | Some w =>
      when (w_requiresPhoneConnection w) clearPhoneCheckInterval ;;
      when (w_cancelPhoneChecker w) (cancelPhoneChecker q) ;;
      off_var SocketEvents ("TAG:" +:+ w_tag w) (w_onRecv w) ;;
      off_var Ws "close" (w_onErr w) ;;
      off_var Ws "error" (w_onErr w) ;;
      update_wait q (set_w_finished true)
  | None => mret tt
  end.

(** *** The listeners of [socketEvents] *)

(** The listener of [PHONE_CONNECTION_CB] that [makeSocket] installs. *)
Definition phoneConnectionListener (json : jsval) : M unit :=
  match json with
  | JUndefined | JNull => throw (ETypeError "Cannot read properties of undefined")
  | _ =>
      if negb (truthy (get_index json 1)) then
        end_ (Some (EBoom (mkBoom "Connection terminated by phone"
                                  (StReason connectionLost) None))) ;;
        tell (Log Info "Connection terminated by phone, closing...")
      else
        tell (PhoneConnectionChanged true)
  end.

(** The listener of ['CB:Cmd,type:disconnect']. *)
Definition cmdDisconnectListener (json : jsval) : M unit :=
  match json with
  | JUndefined | JNull => throw (ETypeError "Cannot read properties of undefined")
  | _ =>
      match get_index json 1 with
      | JUndefined | JNull => throw (ETypeError "Cannot destructure property 'kind'")
      | j1 =>
          let kind := get_prop j1 "kind" in
          let reason :=
            if strict_eq kind (JStr "replaced") then connectionReplaced
            else connectionLost in
          end_ (Some (EBoom (mkBoom
            ("Connection terminated by server: " +:+ dquote
               +:+ to_string (js_or kind (JStr "unknown")) +:+ dquote)
            (StReason reason) None)))
      end
  end.

Definition arg_json (a : arg) : jsval :=
  match a with ArgJson j => j | _ => JUndefined end.

(** The body of a listener that [socketEvents] calls.  The listeners of
    the transport are never registered there. *)
Definition invoke_socketEvents (l : listener) (a : arg) : M unit :=
  match l with
  | PhoneConnectionListener => phoneConnectionListener (arg_json a)
  | CmdDisconnectListener => cmdDisconnectListener (arg_json a)
  | OnRecv q => onRecv q (arg_json a)
  | ExitQueryListener q => exitQueryListener q (arg_json a)
  | _ => mret tt
  end.

Definition socketEvents_emit (event : string) (a : arg) : M bool :=
  emit invoke_socketEvents SocketEvents event a.

(** *** Inbound frames *)

(** [message[0]]: a one-character string of a string, a number of a
    [Buffer]. *)
Definition data_first (message : Data) : jsval :=
  match message with
  | DStr s => char_at s 0
  | DBuf [] => JUndefined
  | DBuf (b :: _) => JNum (Z.of_N (Byte.to_N b))
  end.

(** [message.slice(1, message.length).toString('utf-8')] *)
Definition data_rest (message : Data) : string :=
  match message with
  | DStr s => String.substring 1 (String.length s - 1) s
  | DBuf b => string_of_list_byte (tail b)
  end.

(** The body of [Object.keys(l1).forEach(...)], with [anyTriggered]
    threaded through. *)
Fixpoint emit_keys (l0 l2 : string) (l1 json : jsval) (keys : list string)
    (anyTriggered : bool) : M bool :=
  match keys with
  | [] => mret anyTriggered
  | key :: keys' =>
      let kv := key +:+ ":" +:+ to_string (get_key l1 key) in
      t1 ← socketEvents_emit
             (DEF_CALLBACK_PREFIX env +:+ l0 +:+ "," +:+ kv +:+ "," +:+ l2) (ArgJson json);
      let anyTriggered := t1 || anyTriggered in
      t2 ← socketEvents_emit
             (DEF_CALLBACK_PREFIX env +:+ l0 +:+ "," +:+ kv) (ArgJson json);
      let anyTriggered := t2 || anyTriggered in
      t3 ← socketEvents_emit
             (DEF_CALLBACK_PREFIX env +:+ l0 +:+ "," +:+ key) (ArgJson json);
      let anyTriggered := t3 || anyTriggered in
      emit_keys l0 l2 l1 json keys' anyTriggered
  end.

(** The fan-out of a decoded payload: the tag channel, then the callback
    channels derived from the shape of the payload. *)
Definition dispatch (messageTag : string) (json : jsval) : M unit :=
  when (String.eqb (loggerLevel env) "trace") (tell (Log Trace "communication")) ;;
  (* Check if this is a response to a message we sent *)
  t0 ← socketEvents_emit (DEF_TAG_PREFIX env +:+ messageTag) (ArgJson json);
  (* Check if this is a response to a message we are expecting *)
  let l0 := to_string (js_or (js_or (get_prop json "header") (get_index json 0)) (JStr "")) in
  let l1 := js_or (js_or (opt_prop json "attributes") (opt_index json 1)) (JObj []) in
  let l2 := to_string
    (js_or (js_or (opt_prop (opt_index (opt_prop json "data") 0) "header")
                  (opt_index (get_index json 2) 0)) (JStr "")) in
  t1 ← emit_keys l0 l2 l1 json (object_keys l1) t0;
  t2 ← socketEvents_emit (DEF_CALLBACK_PREFIX env +:+ l0 +:+ ",," +:+ l2) (ArgJson json);
  let anyTriggered := t2 || t1 in
  t3 ← socketEvents_emit (DEF_CALLBACK_PREFIX env +:+ l0) (ArgJson json);
  let anyTriggered := t3 || anyTriggered in
  when (negb anyTriggered && String.eqb (loggerLevel env) "debug")
    (tell (Log Debug "communication recv")).

Definition onMessageRecieved (message : Data) : M unit :=
  if strict_eq (data_first message) (JStr "!") then
    (* when the first character in the message is an '!', the server is
       sending a pong frame *)
    let timestamp := data_rest message in
    modify (set_lastDateRecv (Some (new_Date (parseInt timestamp)))) ;;
    socketEvents_emit "received-pong" ArgNone ;;
    mret tt
  else
    s ← get_state;
    tell (DecodeCall message) ;;
    match decodeWAMessage env message (authInfo s) with
    | DecodeError error => end_ (Some error)
    | Decoded messageTag json =>
        if negb (truthy json) then mret tt
        else dispatch messageTag json
    end.

(** *** Queries *)

(** ToNumber. *)
Definition ToNumber (v : jsval) : option Z :=
  match v with
  | JUndefined => None
  | JNull => Some 0
  | JBool b => Some (if b then 1 else 0)
  | JNum n => Some n
  | JStr s => StringToNumber env s
  | JArr _ | JObj _ | JNode _ _ _ => StringToNumber env (to_string v)
  end.

Definition number_to_string (n : option Z) : string :=
  match n with Some z => pretty z | None => "NaN" end.

(** [response.status]; reading it of [undefined] or [null] throws. *)
Definition response_status (response : jsval) : M jsval :=
  match response with
  | JUndefined | JNull => throw (ETypeError "Cannot read properties of undefined")
  | _ => mret (get_prop response "status")
  end.

(** [query] from the point where the awaited response is there. *)
Definition query_response (json : jsval) (expect200 : bool) (response : jsval) : M jsval :=
  status ← response_status response;
  (* default status *)
  let responseStatusCode := ToNumber (if truthy status then status else JNum 200) in
  (* the connection has gone bad *)
  when (match responseStatusCode with Some n => n =? 599 | None => false end)
    (end_ (Some (EBoom (mkBoom "WA server overloaded" (StLit 599) None)))) ;;
  if expect200
     && negb (match responseStatusCode with Some n => n / 100 =? 2 | None => false end)
  then
    let message :=
      match responseStatusCode with
      | Some n =>
          match STATUS_CODES env n with
          | Some m => if String.eqb m "" then "unknown" else m
          | None => "unknown"
          end
      | None => "unknown"
      end in
    throw (new_Boom
      ("Unexpected status in " +:+ squote
         +:+ to_string (if isArray json then get_index json 0
                        else js_or (opt_prop json "header") (JStr "query"))
         +:+ squote +:+ ": " +:+ message
         +:+ "(" +:+ number_to_string responseStatusCode +:+ ")")
      (StRaw status)
      (Some (json, message)))
  else mret response.

(** Query something from the WhatsApp servers: the part of [query] that
    runs at the call.  A [Thrown] outcome is the rejection of the query
    by [sendMessage]; otherwise the result identifies the wait the query
    is suspended on. *)
Definition query (o : SocketQueryOptions) : M nat :=
  tag ← tag_or_generate (qo_tag o) (qo_longTag o);
  q ← waitForMessage tag (qo_requiresPhoneConnection o) (qo_timeoutMs o);
  modify (fun s => set_queries (<[q := mkQuery (qo_json o) (qo_expect200 o)]> (queries s)) s) ;;
  sendMessage (mkSendOptions (qo_json o) (qo_binaryTag o) (Some tag) false) ;;
  mret q.

(** The continuation of [query] once its wait has settled and the
    [finally] block of [waitForMessage] has run. *)
Definition query_resume (q : nat) : M jsval :=
  s ← get_state;
  match waits s !! q, queries s !! q with
  | Some w, Some c =>
      match w_settled w with
      | Some (inr response) => query_response (q_json c) (q_expect200 c) response
      | Some (inl e) => throw e
      | None => mret JUndefined
      end
  | _, _ => mret JUndefined
  end.

(** Generic function for action, set queries *)
Definition setQuery (nodes : list jsval) (binaryTag : option (list Z))
    (tag : option string) : M nat :=
  s ← get_state;
  let json := JNode "action" [("epoch", pretty (epoch s)); ("type", "set")] (JArr nodes) in
  query (mkQueryOptions json None true tag false
           (Some (default [WAMetric_group env; WAFlag_ignore env] binaryTag)) true).

(** *** Keep-alive *)

Definition startKeepAliveRequest : M unit := set_timer KeepAliveReq.

Definition gtb_number (a : option Z) (b : Z) : bool :=
  match a with Some x => b <? x | None => false end.

(** The callback of the keep-alive interval; [now] is the clock. *)
Definition keepAliveTick (now : Z) : M unit :=
  s ← get_state;
  when (bool_decide (lastDateRecv s = None))
    (modify (set_lastDateRecv (Some (new_Date (Some now))))) ;;
  s ← get_state;
  let diff := match lastDateRecv s with
              | Some (Some t) => Some (now - t)
              | _ => None
              end in
  (* check if it's been a suspicious amount of time since the server
     responded with our last seen; it could be that the network is down *)
  if gtb_number diff (keepAliveIntervalMs env + 5000) then
    end_ (Some (EBoom (mkBoom "Connection was lost" (StReason connectionLost) None)))
  else if ReadyState_eqb (readyState s) OPEN then
    (* if its all good, send a keep alive request *)
    sendRawMessage (DStr "?,,")
  else
    tell (Log Warn "keep alive called when WS not open").

(** *** Waiting for the transport to open *)

Definition settle_open (r : option exn + unit) (o : OpenWait) : OpenWait :=
  match o_settled o with
  | Some _ => o
  | None => mkOpenWait (Some r) (o_finished o)
  end.

Definition update_open (w : nat) (f : OpenWait -> OpenWait) : M unit :=
  modify (fun s => set_opens (alter f w (opens s)) s).

(** The part of [waitForSocketOpen] that runs at the call; [Some w]
    identifies the suspended call. *)
Definition waitForSocketOpen : M (option nat) :=
  s ← get_state;
  if ReadyState_eqb (readyState s) OPEN then mret None
  else if ReadyState_eqb (readyState s) CLOSED || ReadyState_eqb (readyState s) CLOSING then
    throw (EBoom (mkBoom "Connection Closed" (StReason connectionClosed) None))
  else
    let w := nextId s in
    modify (set_nextId (S w)) ;;
    modify (fun s => set_opens (<[w := mkOpenWait None false]> (opens s)) s) ;;
    on Ws "open" (OpenOnOpen w) ;;
    on Ws "close" (OpenOnClose w) ;;
    on Ws "error" (OpenOnClose w) ;;
    mret (Some w).

(** The [.finally] of [waitForSocketOpen]. *)
Definition waitForSocketOpen_finally (w : nat) : M unit :=
  off SocketEvents "open" (OpenOnOpen w) ;;
  off SocketEvents "close" (OpenOnClose w) ;;
  off SocketEvents "error" (OpenOnClose w) ;;
  update_open w (fun o => mkOpenWait (o_settled o) true).

(** *** The listeners of [ws] *)

Definition arg_data (a : arg) : Data :=
  match a with ArgData d => d | _ => DStr "" end.

Definition invoke_ws (l : listener) (a : arg) : M unit :=
  match l with
  | OnMessageRecieved => onMessageRecieved (arg_data a)
  | OnWsOpen =>
      startKeepAliveRequest ;;
      tell (Log Info "Opened WS connection to WhatsApp Web")
  | OnWsError => end_ (arg_error a)
  | OnWsClose =>
      end_ (Some (EBoom (mkBoom "Connection Terminated" (StReason connectionLost) None)))
  | OnErr q => onErr q (arg_error a)
  | OpenOnOpen w => update_open w (settle_open (inr tt))
  | OpenOnClose w => update_open w (settle_open (inl (arg_error a)))
  | _ => mret tt
  end.

Definition ws_emit (event : string) (a : arg) : M bool :=
  emit invoke_ws Ws event a.

End Socket.

(** ** The socket as a transition system *)

Definition empty_state : State :=
  mkState 0%N None None false 0 CONNECTING ∅ ∅ ∅ ∅ ∅ ∅ 0%nat.

(** The state [makeSocket] leaves: the listeners it installs on [ws] and
    on [socketEvents]. *)
Definition makeSocket (env : Env) : State :=
  state_of
    ((on Ws "message" OnMessageRecieved ;;
      on Ws "open" OnWsOpen ;;
      on Ws "error" OnWsError ;;
      on Ws "close" OnWsClose ;;
      on SocketEvents (PHONE_CONNECTION_CB env) PhoneConnectionListener ;;
      on SocketEvents "CB:Cmd,type:disconnect" CmdDisconnectListener) empty_state).

(** What can happen to a socket: a call of the interface [makeSocket]
    returns, an event of the transport, a timer that fires, or the
    continuation of a suspended call. *)
Inductive action :=
| UpdateKeys (info : AuthInfo)
| WaitForSocketOpen
| SendRawMessage (data : Data)
| SendMessage (o : SocketSendMessageOptions)
| GenerateMessageTag (longTag : bool)
| WaitForMessage (tag : string) (requiresPhoneConnection : bool) (timeoutMs : option Z)
| Query (o : SocketQueryOptions)
| SetQuery (nodes : list jsval) (binaryTag : option (list Z)) (tag : option string)
| End (error : option exn)
| Listen (em : emitter) (event : string) (id : nat)
| Unlisten (em : emitter) (event : string) (id : nat)
| WsOpened
| WsMessage (message : Data)
| WsError (error : exn)
| WsClosed (code : Z)
| KeepAliveFires (now : Z)
| PhoneCheckFires
| ExitQueryTimeoutFires (q : nat)
| WaitTimeoutFires (q : nat)
| WaitForMessageFinally (q : nat)
| QueryResume (q : nat)
| WaitForSocketOpenFinally (w : nat).

(** A call of the interface: what it throws goes to the caller. *)
Definition call {A} (m : M A) : M unit :=
  try_catch (m ;; mret tt) (fun _ => mret tt).

(** A callback of the event loop: what it throws is uncaught. *)
Definition task (m : M unit) : M unit :=
  try_catch m (fun e => tell (Uncaught e)).

Definition if_armed (t : timer) (m : M unit) : M unit :=
  s ← get_state;
  if decide (t ∈ timers s) then task m else mret tt.

Definition step (env : Env) (a : action) : M unit :=
  match a with
  | UpdateKeys info => modify (set_authInfo (Some info))
  | WaitForSocketOpen => call (waitForSocketOpen)
  | SendRawMessage data => call (sendRawMessage data)
  | SendMessage o => call (sendMessage env o)
  | GenerateMessageTag longTag => call (generateMessageTag env longTag)
  | WaitForMessage tag r t => call (waitForMessage env tag r t)
  | Query o => call (query env o)
  | SetQuery nodes binaryTag tag => call (setQuery env nodes binaryTag tag)
  | End error => call (end_ error)
  | Listen em event id => on em event (External id)
  | Unlisten em event id => off em event (External id)
  | WsOpened =>
      s ← get_state;
      if ReadyState_eqb (readyState s) CONNECTING then
        modify (set_readyState OPEN) ;;
        task (ws_emit env "open" ArgNone ;; mret tt)
      else mret tt
  | WsMessage message =>
      s ← get_state;
      if ReadyState_eqb (readyState s) OPEN then
        task (ws_emit env "message" (ArgData message) ;; mret tt)
      else mret tt
  | WsError error => task (ws_emit env "error" (ArgError (Some error)) ;; mret tt)
  | WsClosed code =>
      modify (set_readyState CLOSED) ;;
      task (ws_emit env "close" (ArgJson (JNum code)) ;; mret tt)
  | KeepAliveFires now => if_armed KeepAliveReq (keepAliveTick env now)
  | PhoneCheckFires => if_armed PhoneCheckInterval (phoneCheckTick env)
  | ExitQueryTimeoutFires q => if_armed (ExitQueryTimeout q) (exitQueryTimeout q)
  | WaitTimeoutFires q => if_armed (WaitTimeout q) (waitTimeout q)
  | WaitForMessageFinally q =>
      s ← get_state;
      match waits s !! q with
      | Some w =>
          if bool_decide (w_settled w ≠ None) && negb (w_finished w)
          then task (waitForMessage_finally env q) else mret tt
      | None => mret tt
      end
  | QueryResume q =>
      s ← get_state;
      match waits s !! q with
      | Some w => if w_finished w then call (query_resume env q) else mret tt
      | None => mret tt
      end
  | WaitForSocketOpenFinally w =>
      s ← get_state;
      match opens s !! w with
      | Some o =>
          if bool_decide (o_settled o ≠ None) && negb (o_finished o)
          then task (waitForSocketOpen_finally w) else mret tt
      | None => mret tt
      end
  end.

(** A run: the actions in order, from a state; the effects accumulate. *)
Fixpoint run (env : Env) (acts : list action) (s : State) : State * list effect :=
  match acts with
  | [] => (s, [])
  | a :: acts' =>
      let r := step env a s in
      let r' := run env acts' (state_of r) in
      (fst r', effects_of r ++ snd r')
  end.

(** ** An environment for the examples

    The intervals are those of the default configuration; the
    collaborators are stand-ins: the frame [tag,body] decodes to the
    payload [{ status: n }] when [body] starts with the number [n], to
    no payload when [body] is empty and to [[body, true]] otherwise; a
    frame without a comma does not decode. *)

Fixpoint split_comma (s : string) : option (string * string) :=
  match s with
  | EmptyString => None
  | String c s' =>
      if Ascii.eqb c ","%char then Some (EmptyString, s')
      else match split_comma s' with
           | Some (a, b) => Some (String c a, b)
           | None => None
           end
  end.

Definition sample_decode (message : Data) (keys : option AuthInfo) : decoded :=
  let text := match message with
              | DStr s => s
              | DBuf b => string_of_list_byte b
              end in
  match split_comma text with
  | Some (tag, body) =>
      Decoded tag
        (if String.eqb body "" then JNull
         else match parseInt body with
              | Some n => JObj [("status", JNum n)]
              | None => JArr [JStr body; JBool true]
              end)
  | None => DecodeError (EExternal 0)
  end.

Definition sampleEnv : Env :=
  {| keepAliveIntervalMs := 25000;
     expectResponseTimeout := 12000;
     phoneResponseTimeMs := 15000;
     loggerLevel := "info";
     referenceDateSeconds := 1700000123%N;
     DEF_TAG_PREFIX := "TAG:";
     DEF_CALLBACK_PREFIX := "CB:";
     PHONE_CONNECTION_CB := "CB:Pong";
     WAMetric_group := 10;
     WAFlag_ignore := 128;
     toBuffer := fun _ => [];
     aesEncrypt := fun data _ => data;
     hmacSign := fun _ _ => [];
     decodeWAMessage := sample_decode;
     JSON_stringify := to_string;
     StringToNumber := parseInt;
     STATUS_CODES := fun n => if n =? 404 then Some "Not Found" else None |}.

(** ** Notions the properties are stated with *)

(** The tags that the calls of [generateMessageTag] returned, in order. *)
Definition tags_of (t : list effect) : list string :=
  omap (fun e => match e with TagGenerated tag => Some tag | _ => None end) t.

Fixpoint after_dot (s : string) : option string :=
  match s with
  | EmptyString => None
  | String c s' => if Ascii.eqb c "."%char then Some s' else after_dot s'
  end.

(** The epoch a tag embeds: the decimal number after the separator
    [.--]. *)
Definition tag_epoch (tag : string) : option N :=
  match after_dot tag with
  | Some (String "-" (String "-" r)) => parse_digits 10 0 false r
  | _ => None
  end.

Definition digit_char (c : ascii) : bool :=
  ((48 <=? N_of_ascii c) && (N_of_ascii c <=? 57))%N.

Fixpoint all_digits (s : string) : bool :=
  match s with
  | EmptyString => true
  | String c s' => digit_char c && all_digits s'
  end.

(** The number a string of decimal digits denotes, continuing [acc]. *)
Fixpoint digits_val (acc : N) (s : string) : N :=
  match s with
  | EmptyString => acc
  | String c s' => digits_val (acc * 10 + (N_of_ascii c - 48))%N s'
  end.

Definition is_WsSend (e : effect) : bool :=
  match e with WsSend _ => true | _ => false end.

Definition is_DecodeCall (e : effect) : bool :=
  match e with DecodeCall _ => true | _ => false end.

Definition is_UpdateKeys (a : action) : bool :=
  match a with UpdateKeys _ => true | _ => false end.

(** The calls of the listeners of ['ws-close'], the terminal
    notification of the socket. *)
Definition is_ws_close_notification (e : effect) : bool :=
  match e with
  | Invoke Ws event _ _ => String.eqb event "ws-close"
  | _ => false
  end.

(** The epoch never decreases, and the keys and the time of the last
    pong stay. *)
Definition keeps (s s' : State) : Prop :=
  (epoch s <= epoch s')%N
  /\ authInfo s' = authInfo s
  /\ lastDateRecv s' = lastDateRecv s.

(** A computation relates the state it starts from, its effects and the
    state it leaves by [Q]. *)
Definition sat (Q : State -> list effect -> State -> Prop) {A} (m : M A) : Prop :=
  forall s, Q s (effects_of (m s)) (state_of (m s)).

(** No effect of the computation is a call of the decoder. *)
Definition no_decode (e : effect) : Prop := is_DecodeCall e = false.

(** The computation keeps the keys and the time of the last pong and
    does not call the decoder. *)
Definition quiet (s : State) (t : list effect) (s' : State) : Prop :=
  keeps s s' /\ Forall no_decode t.

(** The computation keeps the keys. *)
Definition keeps_keys (s : State) (t : list effect) (s' : State) : Prop :=
  (epoch s <= epoch s')%N /\ authInfo s' = authInfo s.

(** The tags the computation generates embed strictly increasing epochs,
    from the epoch of the state it starts from to below the epoch of the
    state it leaves. *)
Definition tagged (s : State) (t : list effect) (s' : State) : Prop :=
  (epoch s <= epoch s')%N
  /\ exists es, map tag_epoch (tags_of t) = map Some es
               /\ StronglySorted N.lt es
               /\ Forall (fun e => (epoch s <= e < epoch s')%N) es.

(** The effects that every invariant below allows at any point. *)
Definition plain (e : effect) : bool :=
  match e with
  | TagGenerated _ | DecodeCall _ => false
  | _ => true
  end.

(** The time the keep-alive watchdog measures from: the time value of
    [lastDateRecv], or the clock itself when no pong has set it. *)
Definition reference_time (now : Z) (s : State) : Date :=
  match lastDateRecv s with
  | Some d => d
  | None => new_Date (Some now)
  end.

(** The state and the effects of [end(error)]: the listeners of the
    transport and of ['ws-close'] are gone, the two intervals are stopped,
    the transport is closing or closed, and each listener of ['ws-close']
    has been called with [error]. *)
Definition ended (s : State) : State :=
  set_wsListeners
    (delete "ws-close" (delete "message" (delete "open" (delete "error"
       (delete "close" (wsListeners s))))))
    (set_readyState (match readyState s with CLOSED => CLOSED | _ => CLOSING end)
       (set_phoneCheckListeners 0
          (set_phoneCheckInterval false
             (set_timers (timers s ∖ {[KeepAliveReq]} ∖ {[PhoneCheckInterval]}) s)))).

Definition end_effects (error : option exn) (s : State) : list effect :=
  Log Debug "connection closed"
  :: (match readyState s with CLOSED | CLOSING => [] | _ => [WsClose] end)
  ++ map (fun l => Invoke Ws "ws-close" l (ArgError error)) (listeners Ws "ws-close" s).

(** A query that expected success is rejected with the status and the
    request payload embedded in the error. *)
Definition rejects_with_status (env : Env) (s : State) (json response : jsval)
    (st : Z) : Prop :=
  exists text message,
    outcome_of (query_response env json true response s)
    = Thrown (EBoom (mkBoom text (StRaw (JNum st)) (Some (json, message)))).

Definition connection_lost : exn :=
  EBoom (mkBoom "Connection was lost" (StReason connectionLost) None).

Definition server_overloaded : exn :=
  EBoom (mkBoom "WA server overloaded" (StLit 599) None).

Definition keys_missing : exn :=
  EBoom (mkBoom "No encryption/mac keys to encrypt node with" (StLit 400) None).

(** The state in which a tick of the watchdog compares the times: the
    tick sets [lastDateRecv] to the clock when it is still undefined. *)
Definition watchdog_state (now : Z) (s : State) : State :=
  match lastDateRecv s with
  | Some _ => s
  | None => set_lastDateRecv (Some (new_Date (Some now))) s
  end.

(** What a tick does when it does not tear the connection down. *)
Definition keep_alive_effect (s : State) : effect :=
  if ReadyState_eqb (readyState s) OPEN then WsSend (DStr "?,,")
  else Log Warn "keep alive called when WS not open".

(** A trace with the reading of the clock at each action, and the time
    at which the last frame arrived in it. *)
Definition last_inbound (trace : list (Z * action)) : option Z :=
  fold_left (fun last ta => match snd ta with
                            | WsMessage _ => Some (fst ta)
                            | _ => last
                            end) trace None.

(** The watchdog as the specification states it, for the tick at [now]
    that follows a trace: measured from the arrival of the last inbound
    frame. *)
Definition watchdog_as_stated (env : Env) (trace : list (Z * action)) (now : Z) : Prop :=
  let s := fst (run env (map snd trace) (makeSocket env)) in
  readyState s = OPEN ->
  forall t, last_inbound trace = Some t ->
    (keepAliveIntervalMs env + 5000 < now - t ->
       keepAliveTick env now s = end_ (Some connection_lost) s)
    /\ (now - t <= keepAliveIntervalMs env + 5000 ->
         readyState (state_of (keepAliveTick env now s)) = OPEN).

(** [STATUS_CODES[code] || 'unknown'] *)
Definition status_message (env : Env) (st : Z) : string :=
  match STATUS_CODES env st with
  | Some m => if String.eqb m "" then "unknown" else m
  | None => "unknown"
  end.

(** The text of the error of a query that expected success. *)
Definition unexpected_status_text (env : Env) (json : jsval) (st : Z) : string :=
  "Unexpected status in " +:+ squote
  +:+ to_string (if isArray json then get_index json 0
                 else js_or (opt_prop json "header") (JStr "query"))
  +:+ squote +:+ ": " +:+ status_message env st
  +:+ "(" +:+ pretty st +:+ ")".

(** *** Notions of the further properties *)
(** [tag || ...]: whether the caller's tag is used. *)
Definition tag_supplied (tag : option string) : bool :=
  match tag with
  | Some t => negb (String.eqb t "")
  | None => false
  end.

(** The tag a call that was given [tag] works with in state [s]. *)
Definition chosen_tag (env : Env) (tag : option string) (longTag : bool) (s : State) : string :=
  if tag_supplied tag then default "" tag
  else pretty (if longTag then referenceDateSeconds env
               else (referenceDateSeconds env mod 1000)%N)
       +:+ ".--" +:+ pretty (epoch s).

(** The state that choosing the tag leaves. *)
Definition after_tag (tag : option string) (s : State) : State :=
  if tag_supplied tag then s else set_epoch (epoch s + 1)%N s.

(** Whether the transport takes a frame. *)
Definition writable (s : State) : bool := ReadyState_eqb (readyState s) OPEN.

(** What a send that would resolve with [a] ends with: [a] on an open
    transport, the error of [ws.send] on any other. *)
Definition sent_outcome {A} (s : State) (a : A) : outcome A :=
  if writable s then Ret a else Thrown (not_open (readyState s)).

(** The frame that goes out: none unless the transport is open. *)
Definition sent_frames (s : State) (data : Data) : list effect :=
  if writable s then [WsSend data] else [].

Definition is_WsClose (e : effect) : bool :=
  match e with WsClose => true | _ => false end.

(** [ws.readyState !== ws.CLOSED && ws.readyState !== ws.CLOSING] *)
Definition transport_live (s : State) : bool :=
  negb (ReadyState_eqb (readyState s) CLOSED)
  && negb (ReadyState_eqb (readyState s) CLOSING).

(** The transport opens, delivers a frame or closes. *)
Definition is_open_frame_or_close (a : action) : bool :=
  match a with
  | WsOpened | WsMessage _ | WsClosed _ => true
  | _ => false
  end.

(** The epoch counts the tags: the computation generates as many tags as
    it advances the epoch by, and they embed the epochs in between in
    order. *)
Definition counted (s : State) (t : list effect) (s' : State) : Prop :=
  epoch s' = (epoch s + N.of_nat (length (tags_of t)))%N
  /\ forall i tag, tags_of t !! i = Some tag ->
       tag_epoch tag = Some (epoch s + N.of_nat i)%N.

(** A computation leads from every state to a state related to it by
    [R]. *)
Definition leads (R : State -> State -> Prop) {A} (m : M A) : Prop :=
  forall s, R s (state_of (m s)).

(** The registrations the socket performs: those of [makeSocket], of
    [waitForMessage], of [exitQueryIfResponseNotExpected] and of
    [waitForSocketOpen], and those of the code that uses the socket.
    The resolver of a wait is registered under the tag of the wait. *)
Inductive installs (env : Env) (s : State) : emitter -> string -> listener -> Prop :=
| installs_message : installs env s Ws "message" OnMessageRecieved
| installs_open : installs env s Ws "open" OnWsOpen
| installs_error : installs env s Ws "error" OnWsError
| installs_close : installs env s Ws "close" OnWsClose
| installs_phone :
    installs env s SocketEvents (PHONE_CONNECTION_CB env) PhoneConnectionListener
| installs_disconnect :
    installs env s SocketEvents "CB:Cmd,type:disconnect" CmdDisconnectListener
| installs_recv q w :
    waits s !! q = Some w ->
    installs env s SocketEvents ("TAG:" +:+ w_tag w) (OnRecv q)
| installs_err_close q : installs env s Ws "close" (OnErr q)
| installs_err_error q : installs env s Ws "error" (OnErr q)
| installs_exit q :
    installs env s SocketEvents (PHONE_CONNECTION_CB env) (ExitQueryListener q)
| installs_open_open w : installs env s Ws "open" (OpenOnOpen w)
| installs_open_close w : installs env s Ws "close" (OpenOnClose w)
| installs_open_error w : installs env s Ws "error" (OpenOnClose w)
| installs_external em event id : installs env s em event (External id).

(** The listeners the socket removes: those of the grace period, of
    [waitForSocketOpen] and of the code that uses the socket, and the
    callbacks that the record of a wait holds. *)
Inductive removes (s : State) : listener -> Prop :=
| removes_exit q : removes s (ExitQueryListener q)
| removes_open w : removes s (OpenOnOpen w)
| removes_close w : removes s (OpenOnClose w)
| removes_external id : removes s (External id)
| removes_onRecv q w l :
    waits s !! q = Some w -> w_onRecv w = Some l -> removes s l
| removes_onErr q w l :
    waits s !! q = Some w -> w_onErr w = Some l -> removes s l.

(** The record of a call of [waitForMessage] before the call has set
    its callbacks. *)
Definition new_wait (tag : string) (requiresPhoneConnection : bool) : Wait :=
  mkWait tag requiresPhoneConnection None None false None None false.

(** The updates of the record of a wait. *)
Inductive wait_update : (Wait -> Wait) -> Prop :=
| wait_update_settle r : wait_update (settle_wait r)
| wait_update_onRecv q : wait_update (set_w_onRecv (Some (OnRecv q)))
| wait_update_onErr q : wait_update (set_w_onErr (Some (OnErr q)))
| wait_update_cancelPhoneChecker v : wait_update (set_w_cancelPhoneChecker v)
| wait_update_cancel v : wait_update (set_w_cancel v)
| wait_update_finished v : wait_update (set_w_finished v).

(** [dispatch] after the emission on the tag channel: the callback
    channels. *)
Definition dispatch_callbacks (env : Env) (json : jsval) (t0 : bool) : M unit :=
  let l0 := to_string (js_or (js_or (get_prop json "header") (get_index json 0)) (JStr "")) in
  let l1 := js_or (js_or (opt_prop json "attributes") (opt_index json 1)) (JObj []) in
  let l2 := to_string
    (js_or (js_or (opt_prop (opt_index (opt_prop json "data") 0) "header")
                  (opt_index (get_index json 2) 0)) (JStr "")) in
  t1 ← emit_keys env l0 l2 l1 json (object_keys l1) t0;
  t2 ← socketEvents_emit env (DEF_CALLBACK_PREFIX env +:+ l0 +:+ ",," +:+ l2) (ArgJson json);
  let anyTriggered := t2 || t1 in
  t3 ← socketEvents_emit env (DEF_CALLBACK_PREFIX env +:+ l0) (ArgJson json);
  let anyTriggered := t3 || anyTriggered in
  when (negb anyTriggered && String.eqb (loggerLevel env) "debug")
    (tell (Log Debug "communication recv")).

(** Every listener is where the socket registers it. *)
Definition typed (env : Env) (s : State) : Prop :=
  forall em event l, l ∈ listeners em event s -> installs env s em event l.

(** The identifiers of the waits are below the next one. *)
Definition ids_fresh (s : State) : Prop :=
  forall k, is_Some (waits s !! k) -> (k < nextId s)%nat.

Definition well_formed (env : Env) (s : State) : Prop :=
  ids_fresh s /\ typed env s.

(** A computation that starts in a state with [P] leads to a state
    related by [R], in which [P] holds again. *)
Definition leads_with (R : State -> State -> Prop) (P : State -> Prop) {A}
    (m : M A) : Prop :=
  forall s, P s -> R s (state_of (m s)) /\ P (state_of (m s)).

(** The wait [q] is there and waits for [tag]. *)
Definition waits_for (q : nat) (tag : string) (s : State) : Prop :=
  exists w, waits s !! q = Some w /\ w_tag w = tag.

(** The record of the wait [q] is [w]. *)
Definition wait_is (q : nat) (w : Wait) (s : State) : Prop := waits s !! q = Some w.

(** The phone-check interval runs exactly while the count of the calls
    that need the phone is positive. *)
Definition phone_monitor_ok (s : State) : Prop :=
  0 <= phoneCheckListeners s
  /\ (phoneCheckInterval s = true <-> 0 < phoneCheckListeners s)
  /\ (PhoneCheckInterval ∈ timers s <-> phoneCheckInterval s = true).

#[global] Instance emitter_eq_dec : EqDecision emitter.
Proof. solve_decision. Defined.

(** The socket as [makeSocket] returns it and after anything that can
    happen to it. *)
Definition reachable (env : Env) (s : State) : Prop :=
  exists acts, s = fst (run env acts (makeSocket env)).

(** The wait [q] is settled with [r]. *)
Definition settled_as (q : nat) (r : exn + jsval) (s : State) : Prop :=
  exists w, waits s !! q = Some w /\ w_settled w = Some r.

(** The identifiers stay fresh, and a wait that is settled keeps its
    outcome. *)
Definition keeps_outcome (q : nat) (r : exn + jsval) (s s' : State) : Prop :=
  ids_fresh s -> ids_fresh s' /\ (settled_as q r s -> settled_as q r s').

(** What [ws] passes to the listeners of ['close'] is the close code;
    [err || new Boom('Connection Closed', { statusCode: 429 })]. *)
Definition close_reason (code : Z) : exn :=
  default (EBoom (mkBoom "Connection Closed" (StLit 429) None))
    (arg_error (ArgJson (JNum code))).

(** The call [w] of [waitForSocketOpen] is settled with [r]. *)
Definition open_settled_as (w : nat) (r : option exn + unit) (s : State) : Prop :=
  exists o, opens s !! w = Some o /\ o_settled o = Some r.

(** The socket stays well formed and the record of the wait [q] stays
    [w]. *)
Definition keeps_wait (env : Env) (q : nat) (w : Wait) (s s' : State) : Prop :=
  well_formed env s /\ waits s !! q = Some w ->
  well_formed env s' /\ waits s' !! q = Some w.

(** [timeoutMs] arms the timer of [promiseTimeout]. *)
Definition timer_on (timeoutMs : option Z) : bool :=
  match timeoutMs with Some ms => negb (ms =? 0) | None => false end.

(** The state that a call of [waitForMessage] leaves when it suspends:
    the record of the call under the next identifier, the phone check
    and the listener of [exitQueryIfResponseNotExpected] when the call
    needs the phone, the timer of [promiseTimeout], and the three
    listeners of the call. *)
Definition awaiting (env : Env) (tag : string) (requiresPhoneConnection : bool)
    (timeoutMs : option Z) (s : State) : State :=
  let q := nextId s in
  let s1 := set_waits
              (<[q := mkWait tag requiresPhoneConnection None None false None None false]>
                 (waits s))
              (set_nextId (S q) s) in
  let s2 := if requiresPhoneConnection then
              state_of (update_wait q (set_w_cancelPhoneChecker true)
                (state_of (on SocketEvents (PHONE_CONNECTION_CB env) (ExitQueryListener q)
                  (state_of (update_wait q (set_w_cancel None)
                    (state_of (startPhoneCheckInterval s1)))))))
            else s1 in
  let s3 := if timer_on timeoutMs then state_of (set_timer (WaitTimeout q) s2) else s2 in
  state_of (on Ws "error" (OnErr q)
    (state_of (on Ws "close" (OnErr q)
      (state_of (on SocketEvents ("TAG:" +:+ tag) (OnRecv q)
        (state_of (update_wait q (set_w_onErr (Some (OnErr q)))
          (state_of (update_wait q (set_w_onRecv (Some (OnRecv q))) s3))))))))).

(** The record of a call of [waitForMessage] while it is suspended. *)
Definition pending_wait (tag : string) (requiresPhoneConnection : bool) (q : nat) : Wait :=
  mkWait tag requiresPhoneConnection (Some (OnRecv q)) (Some (OnErr q))
    requiresPhoneConnection None None false.

(** How a suspended call of [waitForMessage] settles: the response
    arrives, the transport closes or fails, or the timer of
    [promiseTimeout] fires. *)
Inductive exit_path :=
| ByResponse (json : jsval)
| ByError (err : option exn)
| ByTimeout.

Definition settle_by (e : exit_path) (q : nat) : M unit :=
  match e with
  | ByResponse json => onRecv q json
  | ByError err => onErr q err
  | ByTimeout => waitTimeout q
  end.

Definition exit_result (e : exit_path) : exn + jsval :=
  match e with
  | ByResponse json => inr json
  | ByError err =>
      inl (default (EBoom (mkBoom "Connection Closed" (StLit 429) None)) err)
  | ByTimeout => inl (EBoom (mkBoom "Timed Out" (StReason timedOut) None))
  end.

(** The state that the [finally] block of the call [q] leaves, when the
    record of the call is [w]. *)
Definition finished (env : Env) (q : nat) (w : Wait) (s : State) : State :=
  let s1 := if w_requiresPhoneConnection w
            then state_of (clearPhoneCheckInterval s) else s in
  let s2 := if w_cancelPhoneChecker w
            then state_of (clear_timer (ExitQueryTimeout q)
                   (state_of (off SocketEvents (PHONE_CONNECTION_CB env)
                                (ExitQueryListener q) s1)))
            else s1 in
  state_of (update_wait q (set_w_finished true)
    (state_of (off Ws "error" (OnErr q)
      (state_of (off Ws "close" (OnErr q)
        (state_of (off SocketEvents ("TAG:" +:+ w_tag w) (OnRecv q) s2))))))).

(** The state in which [query] calls [sendMessage]: the tag is chosen,
    the wait for it is registered and the query is noted under its
    identifier. *)
Definition querying (env : Env) (o : SocketQueryOptions) (s : State) : State :=
  let s1 := awaiting env (chosen_tag env (qo_tag o) (qo_longTag o) s)
              (qo_requiresPhoneConnection o) (qo_timeoutMs o)
              (after_tag (qo_tag o) s) in
  set_queries (<[nextId s := mkQuery (qo_json o) (qo_expect200 o)]> (queries s1)) s1.

(** The computation leaves the queries that are noted as they are. *)
Definition keeps_queries (s s' : State) : Prop := queries s' = queries s.

Definition stays_well_formed (env : Env) (s s' : State) : Prop :=
  well_formed env s -> well_formed env s'.

(** The ticks of the keep-alive interval at [t0], [t0 + k], ... ,
    [t0 + n * k]. *)
Definition ticks (t0 k : Z) (n : nat) : list action :=
  map (fun i => KeepAliveFires (t0 + Z.of_nat i * k)) (seq 0 (S n)).

(** What a send without binary tag logs at the level [trace]. *)
Definition trace_log (env : Env) : list effect :=
  if String.eqb (loggerLevel env) "trace" then [Log Trace "communication"] else [].

(** The tag [generateMessageTag()] returns in [s]. *)
Definition short_tag (env : Env) (s : State) : string := chosen_tag env None false s.

(** The callbacks that the record of a wait holds are the resolver and
    the rejecter of a wait. *)
Definition callbacks_ok (s : State) : Prop :=
  forall q w, waits s !! q = Some w ->
    (w_onRecv w = None \/ exists q', w_onRecv w = Some (OnRecv q'))
    /\ (w_onErr w = None \/ exists q', w_onErr w = Some (OnErr q')).

(** The two listeners that [makeSocket] installs on [socketEvents] are
    there. *)
Definition builtin (env : Env) (s : State) : Prop :=
  callbacks_ok s
  /\ PhoneConnectionListener ∈ listeners SocketEvents (PHONE_CONNECTION_CB env) s
  /\ CmdDisconnectListener ∈ listeners SocketEvents "CB:Cmd,type:disconnect" s.

Definition stays_builtin (env : Env) (s s' : State) : Prop :=
  builtin env s -> builtin env s'.

Definition nullish (v : jsval) : bool :=
  match v with JUndefined | JNull => true | _ => false end.

(** The error [end] gets from the listener of ['CB:Cmd,type:disconnect']. *)
Definition server_disconnect (json : jsval) : exn :=
  let kind := get_prop (get_index json 1) "kind" in
  EBoom (mkBoom
    ("Connection terminated by server: " +:+ dquote
       +:+ to_string (js_or kind (JStr "unknown")) +:+ dquote)
    (StReason (if strict_eq kind (JStr "replaced") then connectionReplaced
               else connectionLost))
    None).

(** The error [end] gets from the listener of [PHONE_CONNECTION_CB]. *)
Definition phone_disconnect : exn :=
  EBoom (mkBoom "Connection terminated by phone" (StReason connectionLost) None).

(** The calls of the listeners of ['ws-close'] with [error]. *)
Definition notifications (error : option exn) (s : State) : list effect :=
  map (fun l => Invoke Ws "ws-close" l (ArgError error)) (listeners Ws "ws-close" s).

(** ** Properties *)

(** *** Running the monad *)

Lemma run_bind {A B} (m : M A) (f : A -> M B) (s : State) :
  (m ≫= f) s =
  match m s with
  | (Ret a, s1, t1) =>
      match f a s1 with
      | (r, s2, t2) => (r, s2, t1 ++ t2)
      end
  | (Thrown e, s1, t1) => (Thrown e, s1, t1)
  end.
Proof. reflexivity. Qed.

Lemma run_modify (f : State -> State) {B} (k : M B) (s : State) :
  (modify f ;; k) s = k (f s).
Proof.
  rewrite run_bind. simpl. destruct (k (f s)) as [[r s2] t2]. reflexivity.
Qed.

Lemma run_get {B} (k : State -> M B) (s : State) :
  (get_state ≫= k) s = k s s.
Proof.
  rewrite run_bind. simpl. destruct (k s s) as [[r s2] t2]. reflexivity.
Qed.

Lemma run_ret {A B} (a : A) (k : A -> M B) (s : State) :
  (mret a ≫= k) s = k a s.
Proof.
  rewrite run_bind. simpl. destruct (k a s) as [[r s2] t2]. reflexivity.
Qed.

Lemma run_tell (e : effect) {B} (k : M B) (s : State) :
  (tell e ;; k) s =
  (outcome_of (k s), state_of (k s), e :: effects_of (k s)).
Proof.
  rewrite run_bind. simpl. destruct (k s) as [[r s2] t2]. reflexivity.
Qed.

(** [ws.send] on an open transport, and on one that is not. *)
Lemma sendRawMessage_open (data : Data) (s : State) :
  ReadyState_eqb (readyState s) OPEN = true ->
  sendRawMessage data s = (Ret tt, s, [WsSend data]).
Proof. intros H. unfold sendRawMessage. rewrite run_get, H. reflexivity. Qed.

Lemma sendRawMessage_not_open (data : Data) (s : State) :
  ReadyState_eqb (readyState s) OPEN = false ->
  sendRawMessage data s = (Thrown (not_open (readyState s)), s, []).
Proof. intros H. unfold sendRawMessage. rewrite run_get, H. reflexivity. Qed.

(** *** Decimal text *)

Lemma append_cons c s t : String c s +:+ t = String c (s +:+ t).
Proof. reflexivity. Qed.

Lemma append_nil t : "" +:+ t = t.
Proof. reflexivity. Qed.

Lemma append_assoc s t u : (s +:+ t) +:+ u = s +:+ (t +:+ u).
Proof.
  induction s as [|c s IH]; [reflexivity |].
  rewrite !append_cons, IH. reflexivity.
Qed.

Lemma pretty_N_char_digit x :
  (x < 10)%N ->
  digit_char (pretty_N_char x) = true /\ (N_of_ascii (pretty_N_char x) - 48)%N = x.
Proof.
  intros H.
  assert (x = 0 \/ x = 1 \/ x = 2 \/ x = 3 \/ x = 4 \/ x = 5 \/ x = 6
          \/ x = 7 \/ x = 8 \/ x = 9)%N as Hx by lia.
  repeat (destruct Hx as [-> | Hx]; [split; reflexivity |]).
  subst x. split; reflexivity.
Qed.

Lemma all_digits_app d1 d2 :
  all_digits (d1 +:+ d2) = all_digits d1 && all_digits d2.
Proof.
  induction d1 as [|c d1 IH]; [reflexivity |].
  rewrite append_cons. simpl. rewrite IH, andb_assoc. reflexivity.
Qed.

Lemma digits_val_app acc d1 d2 :
  digits_val acc (d1 +:+ d2) = digits_val (digits_val acc d1) d2.
Proof.
  revert acc. induction d1 as [|c d1 IH]; intros acc; [reflexivity |].
  rewrite append_cons. simpl. apply IH.
Qed.

(** [pretty_N_go x s] puts the decimal digits of [x] before [s]. *)
Lemma pretty_N_go_digits x s :
  exists d, pretty_N_go x s = d +:+ s /\ all_digits d = true
            /\ digits_val 0 d = x /\ ((0 < x)%N -> d <> "").
Proof.
  revert s. induction (N.lt_wf_0 x) as [x _ IH]. intros s.
  destruct (N.eq_dec x 0%N) as [-> | Hx].
  - exists "". rewrite pretty_N_go_0. repeat split; try reflexivity. lia.
  - assert (0 < x)%N as Hpos by lia.
    rewrite pretty_N_go_step by exact Hpos.
    destruct (IH (x `div` 10)%N (N.div_lt x 10 Hpos eq_refl)
                 (String (pretty_N_char (x `mod` 10)) s))
      as (d & Hd & Hall & Hval & _).
    destruct (pretty_N_char_digit (x `mod` 10)%N) as [Hc Hv];
      [apply N.mod_lt; lia |].
    exists (d +:+ String (pretty_N_char (x `mod` 10)) "").
    rewrite Hd, append_assoc, append_cons, append_nil.
    split; [reflexivity |]. split; [| split].
    + rewrite all_digits_app, Hall. simpl. rewrite Hc. reflexivity.
    + rewrite digits_val_app, Hval. simpl. rewrite Hv.
      pose proof (N.div_mod x 10). lia.
    + intros _. destruct d; discriminate.
Qed.

Lemma append_nil_r s : s +:+ "" = s.
Proof.
  induction s as [|c s IH]; [reflexivity |]. rewrite append_cons, IH. reflexivity.
Qed.

Lemma pretty_N_digits (n : N) :
  all_digits (pretty n) = true /\ pretty n <> "" /\ digits_val 0 (pretty n) = n.
Proof.
  unfold pretty, pretty_N. case_decide as Hn.
  - subst n. repeat split; try reflexivity. discriminate.
  - destruct (pretty_N_go_digits n "") as (d & Hd & Hall & Hval & Hne).
    rewrite append_nil_r in Hd. rewrite Hd.
    repeat split; [exact Hall | apply Hne; lia | exact Hval].
Qed.

Lemma hex_val_digit c :
  digit_char c = true -> hex_val c = Some (N_of_ascii c - 48)%N.
Proof. unfold digit_char, hex_val. intros ->. reflexivity. Qed.

Lemma digit_char_lt c : digit_char c = true -> (N_of_ascii c - 48 <? 10)%N = true.
Proof.
  unfold digit_char. intros H. apply andb_prop in H as [H1 H2].
  apply N.leb_le in H1, H2. apply N.ltb_lt. lia.
Qed.

Lemma parse_digits_all acc seen d :
  all_digits d = true -> seen = true \/ d <> "" ->
  parse_digits 10 acc seen d = Some (digits_val acc d).
Proof.
  revert acc seen. induction d as [|c d IH]; intros acc seen Hall Hne; simpl in *.
  - destruct Hne as [-> | Hne]; [reflexivity | congruence].
  - apply andb_prop in Hall as [Hc Hall].
    rewrite (hex_val_digit c Hc), (digit_char_lt c Hc).
    apply IH; [exact Hall | left; reflexivity].
Qed.

Lemma parse_digits_pretty (n : N) : parse_digits 10 0 false (pretty n) = Some n.
Proof.
  destruct (pretty_N_digits n) as (Hall & Hne & Hval).
  rewrite parse_digits_all by auto. rewrite Hval. reflexivity.
Qed.

Lemma after_dot_digits d r :
  all_digits d = true -> after_dot (d +:+ String "." r) = Some r.
Proof.
  induction d as [|c d IH]; intros Hall.
  - reflexivity.
  - simpl in Hall. apply andb_prop in Hall as [Hc Hall].
    rewrite append_cons. simpl.
    destruct (Ascii.eqb c ".") eqn:E.
    + apply Ascii.eqb_eq in E. subst c. discriminate Hc.
    + apply IH, Hall.
Qed.

(** A tag embeds the epoch it was made from. *)
Lemma tag_epoch_tag (prefix e : N) :
  tag_epoch (pretty prefix +:+ ".--" +:+ pretty e) = Some e.
Proof.
  unfold tag_epoch.
  destruct (pretty_N_digits prefix) as (Hall & _ & _).
  change (".--" +:+ pretty e) with (String "." (String "-" (String "-" (pretty e)))).
  rewrite (after_dot_digits _ _ Hall). apply parse_digits_pretty.
Qed.

(** *** Invariants of computations *)

Create HintDb sat.

Ltac frame :=
  intros; unfold set_registry, settle_wait, settle_open;
  repeat case_match; reflexivity.

Section Sat.

Context (env : Env).
Context (Q : State -> list effect -> State -> Prop).
Context (Q_unit : forall s, Q s [] s).
Context (Q_comp : forall s t1 s1 t2 s2, Q s t1 s1 -> Q s1 t2 s2 -> Q s (t1 ++ t2) s2).
Context (Q_same : forall s s',
  epoch s' = epoch s -> authInfo s' = authInfo s -> lastDateRecv s' = lastDateRecv s ->
  Q s [] s').
Context (Q_plain : forall s e, plain e = true -> Q s [e] s).
Context (Q_generate : forall s tag,
  tag_epoch tag = Some (epoch s) ->
  Q s [TagGenerated tag] (set_epoch (epoch s + 1)%N s)).
Context (Q_date : forall s v, Q s [] (set_lastDateRecv v s)).
Context (Q_decode : forall s message, Q s [DecodeCall message] s).
Context (Q_updateKeys : forall s v, Q s [] (set_authInfo v s)).

Lemma sat_ret {A} (a : A) : sat Q (mret a).
Proof. intros s. apply Q_unit. Qed.

Lemma sat_throw {A} (e : exn) : sat Q (throw e : M A).
Proof. intros s. apply Q_unit. Qed.

Lemma sat_get : sat Q get_state.
Proof. intros s. apply Q_unit. Qed.

Lemma sat_tell (e : effect) : plain e = true -> sat Q (tell e).
Proof. intros He s. apply Q_plain, He. Qed.

Lemma sat_modify (f : State -> State) :
  (forall s, epoch (f s) = epoch s) ->
  (forall s, authInfo (f s) = authInfo s) ->
  (forall s, lastDateRecv (f s) = lastDateRecv s) ->
  sat Q (modify f).
Proof. intros H1 H2 H3 s. apply Q_same; [apply H1 | apply H2 | apply H3]. Qed.

Lemma sat_bind {A B} (m : M A) (f : A -> M B) :
  sat Q m -> (forall a, sat Q (f a)) -> sat Q (m ≫= f).
Proof.
  intros Hm Hf s. rewrite run_bind.
  pose proof (Hm s) as H. destruct (m s) as [[[a|e] s1] t1]; simpl in *.
  - pose proof (Hf a s1) as H'. destruct (f a s1) as [[r s2] t2]; simpl in *.
    eapply Q_comp; eassumption.
  - exact H.
Qed.

Lemma sat_try_catch {A} (m : M A) (h : exn -> M A) :
  sat Q m -> (forall e, sat Q (h e)) -> sat Q (try_catch m h).
Proof.
  intros Hm Hh s. unfold try_catch.
  pose proof (Hm s) as H. destruct (m s) as [[[a|e] s1] t1]; simpl in *.
  - exact H.
  - pose proof (Hh e s1) as H'. destruct (h e s1) as [[r s2] t2]; simpl in *.
    eapply Q_comp; eassumption.
Qed.

Lemma sat_when (b : bool) (m : M unit) : sat Q m -> sat Q (when b m).
Proof. intros Hm. destruct b; [exact Hm | apply sat_ret]. Qed.

Lemma sat_for_each {A} (l : list A) (f : A -> M unit) :
  (forall x, sat Q (f x)) -> sat Q (for_each l f).
Proof.
  intros Hf. induction l as [|x l IH]; simpl.
  - apply sat_ret.
  - apply sat_bind; [apply Hf | intros _; exact IH].
Qed.

Lemma sat_emit (invoke : listener -> arg -> M unit) em event a :
  (forall l, sat Q (invoke l a)) -> sat Q (emit invoke em event a).
Proof.
  intros Hinv. unfold emit.
  apply sat_bind; [apply sat_get | intros s].
  apply sat_bind; [| intros _; apply sat_ret].
  apply sat_for_each. intros l.
  apply sat_bind; [apply sat_tell; reflexivity | intros _; apply Hinv].
Qed.

#[local] Hint Resolve sat_ret sat_throw sat_get sat_emit : sat.

Ltac sat_step :=
  first
    [ assumption
    | solve [auto with sat]
    | apply sat_when
    | apply sat_tell; reflexivity
    | apply sat_modify; solve [frame]
    | apply sat_bind; [| intros ?]
    | apply sat_try_catch; [| intros ?]
    | match goal with
      | |- sat _ (match ?x with _ => _ end) => destruct x
      end ].

Ltac sat_go := repeat sat_step.

(** *** What the operations keep *)

Lemma on_sat em event l : sat Q (on em event l).
Proof. unfold on. sat_go. Qed.

Lemma off_sat em event l : sat Q (off em event l).
Proof. unfold off. sat_go. Qed.

Lemma removeAllListeners_sat em event : sat Q (removeAllListeners em event).
Proof. unfold removeAllListeners. sat_go. Qed.

Lemma set_timer_sat t : sat Q (set_timer t).
Proof. unfold set_timer. sat_go. Qed.

Lemma clear_timer_sat t : sat Q (clear_timer t).
Proof. unfold clear_timer. sat_go. Qed.

Lemma update_wait_sat q f : sat Q (update_wait q f).
Proof. unfold update_wait. sat_go. Qed.

Lemma update_open_sat w f : sat Q (update_open w f).
Proof. unfold update_open. sat_go. Qed.

#[local] Hint Resolve on_sat off_sat removeAllListeners_sat
  set_timer_sat clear_timer_sat update_wait_sat update_open_sat : sat.

Lemma off_var_sat em event f : sat Q (off_var em event f).
Proof. unfold off_var. sat_go. Qed.

Lemma external_only_sat l a : sat Q (external_only l a).
Proof. unfold external_only. sat_go. Qed.

#[local] Hint Resolve off_var_sat external_only_sat : sat.

Lemma generateMessageTag_sat longTag : sat Q (generateMessageTag env longTag).
Proof.
  intros s. unfold generateMessageTag.
  rewrite run_get, run_modify, run_tell. simpl.
  apply Q_generate, tag_epoch_tag.
Qed.

#[local] Hint Resolve generateMessageTag_sat : sat.

Lemma tag_or_generate_sat tag longTag : sat Q (tag_or_generate env tag longTag).
Proof. unfold tag_or_generate. sat_go. Qed.

#[local] Hint Resolve tag_or_generate_sat : sat.

Lemma sendMessage_sat o : sat Q (sendMessage env o).
Proof. unfold sendMessage, sendRawMessage. sat_go. Qed.

Lemma clearPhoneCheckInterval_sat : sat Q clearPhoneCheckInterval.
Proof. unfold clearPhoneCheckInterval. sat_go. Qed.

#[local] Hint Resolve sendMessage_sat clearPhoneCheckInterval_sat : sat.

Lemma end__sat error : sat Q (end_ error).
Proof. unfold end_, ws_close. sat_go. Qed.

#[local] Hint Resolve end__sat : sat.

Lemma onRecv_sat q json : sat Q (onRecv q json).
Proof. unfold onRecv. sat_go. Qed.

Lemma onErr_sat q err : sat Q (onErr q err).
Proof. unfold onErr. sat_go. Qed.

#[local] Hint Resolve onRecv_sat onErr_sat : sat.

Lemma exitQueryListener_sat q json : sat Q (exitQueryListener env q json).
Proof. unfold exitQueryListener. sat_go. Qed.

Lemma exitQueryTimeout_sat q : sat Q (exitQueryTimeout q).
Proof. unfold exitQueryTimeout. sat_go. Qed.

Lemma cancelPhoneChecker_sat q : sat Q (cancelPhoneChecker env q).
Proof. unfold cancelPhoneChecker. sat_go. Qed.

Lemma startPhoneCheckInterval_sat : sat Q startPhoneCheckInterval.
Proof. unfold startPhoneCheckInterval. sat_go. Qed.

Lemma phoneCheckTick_sat : sat Q (phoneCheckTick env).
Proof. unfold phoneCheckTick, sendAdminTest. sat_go. Qed.

Lemma waitTimeout_sat q : sat Q (waitTimeout q).
Proof. unfold waitTimeout. sat_go. Qed.

#[local] Hint Resolve exitQueryListener_sat exitQueryTimeout_sat
  cancelPhoneChecker_sat startPhoneCheckInterval_sat phoneCheckTick_sat
  waitTimeout_sat : sat.

Lemma waitForMessage_sat tag r t : sat Q (waitForMessage env tag r t).
Proof.
  unfold waitForMessage, promiseTimeout, exitQueryIfResponseNotExpected. sat_go.
Qed.

Lemma waitForMessage_finally_sat q : sat Q (waitForMessage_finally env q).
Proof. unfold waitForMessage_finally. sat_go. Qed.

Lemma phoneConnectionListener_sat json : sat Q (phoneConnectionListener json).
Proof. unfold phoneConnectionListener. sat_go. Qed.

Lemma cmdDisconnectListener_sat json : sat Q (cmdDisconnectListener json).
Proof. unfold cmdDisconnectListener. sat_go. Qed.

#[local] Hint Resolve waitForMessage_sat waitForMessage_finally_sat
  phoneConnectionListener_sat cmdDisconnectListener_sat : sat.

Lemma invoke_socketEvents_sat l a : sat Q (invoke_socketEvents env l a).
Proof. unfold invoke_socketEvents. sat_go. Qed.

#[local] Hint Resolve invoke_socketEvents_sat : sat.

Lemma socketEvents_emit_sat event a : sat Q (socketEvents_emit env event a).
Proof. unfold socketEvents_emit. sat_go. Qed.

#[local] Hint Resolve socketEvents_emit_sat : sat.

Lemma emit_keys_sat l0 l2 l1 json keys any :
  sat Q (emit_keys env l0 l2 l1 json keys any).
Proof.
  revert any. induction keys as [|key keys IH]; intros any; simpl; sat_go.
Qed.

#[local] Hint Resolve emit_keys_sat : sat.

Lemma dispatch_sat messageTag json : sat Q (dispatch env messageTag json).
Proof. unfold dispatch. sat_go. Qed.

Lemma query_response_sat json expect200 response :
  sat Q (query_response env json expect200 response).
Proof. unfold query_response, response_status. sat_go. Qed.

#[local] Hint Resolve dispatch_sat query_response_sat : sat.

Lemma query_sat o : sat Q (query env o).
Proof. unfold query. sat_go. Qed.

Lemma query_resume_sat q : sat Q (query_resume env q).
Proof. unfold query_resume. sat_go. Qed.

#[local] Hint Resolve query_sat query_resume_sat : sat.

Lemma setQuery_sat nodes binaryTag tag : sat Q (setQuery env nodes binaryTag tag).
Proof. unfold setQuery. sat_go. Qed.

Lemma waitForSocketOpen_sat : sat Q waitForSocketOpen.
Proof. unfold waitForSocketOpen. sat_go. Qed.

Lemma waitForSocketOpen_finally_sat w : sat Q (waitForSocketOpen_finally w).
Proof. unfold waitForSocketOpen_finally. sat_go. Qed.

#[local] Hint Resolve setQuery_sat waitForSocketOpen_sat
  waitForSocketOpen_finally_sat : sat.

(** A frame and a tick of the watchdog also set [lastDateRecv], and a
    frame may reach the decoder. *)
Lemma onMessageRecieved_sat message : sat Q (onMessageRecieved env message).
Proof.
  unfold onMessageRecieved. sat_go.
  - intros s. apply Q_date.
  - intros s. apply Q_decode.
Qed.

Lemma keepAliveTick_sat now : sat Q (keepAliveTick env now).
Proof.
  unfold keepAliveTick, sendRawMessage. sat_go.
  intros s. apply Q_date.
Qed.

#[local] Hint Resolve onMessageRecieved_sat keepAliveTick_sat : sat.

Lemma invoke_ws_sat l a : sat Q (invoke_ws env l a).
Proof. unfold invoke_ws, startKeepAliveRequest. sat_go. Qed.

#[local] Hint Resolve invoke_ws_sat : sat.

Lemma ws_emit_sat event a : sat Q (ws_emit env event a).
Proof. unfold ws_emit. sat_go. Qed.

#[local] Hint Resolve ws_emit_sat : sat.

(** Every action but [updateKeys], then every action. *)
Lemma step_sat_but_updateKeys a : is_UpdateKeys a = false -> sat Q (step env a).
Proof.
  intros Ha. destruct a; try discriminate Ha;
    unfold step, call, task, if_armed, sendRawMessage; sat_go.
Qed.

Lemma step_sat a : sat Q (step env a).
Proof.
  destruct (is_UpdateKeys a) eqn:Ha.
  - destruct a; try discriminate Ha. intros s. apply Q_updateKeys.
  - apply step_sat_but_updateKeys, Ha.
Qed.

End Sat.

(** *** The three invariants *)

Lemma keeps_refl s : keeps s s.
Proof. unfold keeps. repeat split; reflexivity. Qed.

Lemma keeps_trans s1 s2 s3 : keeps s1 s2 -> keeps s2 s3 -> keeps s1 s3.
Proof.
  intros (H1 & H2 & H3) (H4 & H5 & H6). unfold keeps.
  repeat split; [lia | congruence | congruence].
Qed.

Lemma quiet_unit s : quiet s [] s.
Proof. split; [apply keeps_refl | constructor]. Qed.

Lemma quiet_comp s t1 s1 t2 s2 :
  quiet s t1 s1 -> quiet s1 t2 s2 -> quiet s (t1 ++ t2) s2.
Proof.
  intros [H1 H2] [H3 H4]. split; [eapply keeps_trans; eassumption |].
  apply Forall_app; split; assumption.
Qed.

Lemma quiet_same s s' :
  epoch s' = epoch s -> authInfo s' = authInfo s ->
  lastDateRecv s' = lastDateRecv s -> quiet s [] s'.
Proof.
  intros H1 H2 H3. split; [| constructor].
  unfold keeps. repeat split; [lia | exact H2 | exact H3].
Qed.

Lemma quiet_plain s e : plain e = true -> quiet s [e] s.
Proof.
  intros He. split; [apply keeps_refl |].
  repeat constructor. destruct e; try reflexivity; discriminate He.
Qed.

Lemma quiet_generate s tag :
  tag_epoch tag = Some (epoch s) ->
  quiet s [TagGenerated tag] (set_epoch (epoch s + 1)%N s).
Proof.
  intros _. split; [| repeat constructor].
  unfold keeps. simpl. repeat split; lia.
Qed.

Lemma keeps_keys_unit s : keeps_keys s [] s.
Proof. split; reflexivity. Qed.

Lemma keeps_keys_comp s t1 s1 t2 s2 :
  keeps_keys s t1 s1 -> keeps_keys s1 t2 s2 -> keeps_keys s (t1 ++ t2) s2.
Proof. intros [H1 H2] [H3 H4]. split; [lia | congruence]. Qed.

Lemma keeps_keys_same s s' :
  epoch s' = epoch s -> authInfo s' = authInfo s ->
  lastDateRecv s' = lastDateRecv s -> keeps_keys s [] s'.
Proof. intros H1 H2 _. split; [lia | exact H2]. Qed.

Lemma keeps_keys_effect s e : keeps_keys s [e] s.
Proof. split; reflexivity. Qed.

Lemma keeps_keys_generate s tag :
  tag_epoch tag = Some (epoch s) ->
  keeps_keys s [TagGenerated tag] (set_epoch (epoch s + 1)%N s).
Proof. intros _. split; simpl; [lia | reflexivity]. Qed.

Lemma keeps_keys_date s v : keeps_keys s [] (set_lastDateRecv v s).
Proof. split; reflexivity. Qed.

Lemma tags_of_app t1 t2 : tags_of (t1 ++ t2) = tags_of t1 ++ tags_of t2.
Proof. unfold tags_of. apply omap_app. Qed.

Lemma StronglySorted_lt_app (es1 es2 : list N) (b : N) :
  StronglySorted N.lt es1 -> StronglySorted N.lt es2 ->
  Forall (fun e => (e < b)%N) es1 -> Forall (fun e => (b <= e)%N) es2 ->
  StronglySorted N.lt (es1 ++ es2).
Proof.
  intros H1 H2 Hlt Hge. induction H1 as [|e es1 Hs IH Hall]; simpl.
  - exact H2.
  - apply Forall_cons in Hlt as [He Hlt].
    constructor; [apply IH, Hlt |].
    apply Forall_app; split; [exact Hall |].
    eapply Forall_impl; [exact Hge |]. intros x Hx. simpl in Hx. lia.
Qed.

Lemma tagged_unit s : tagged s [] s.
Proof.
  split; [reflexivity |]. exists []. repeat split; constructor.
Qed.

Lemma tagged_comp s t1 s1 t2 s2 :
  tagged s t1 s1 -> tagged s1 t2 s2 -> tagged s (t1 ++ t2) s2.
Proof.
  intros (H1 & es1 & Hm1 & Hs1 & Hb1) (H2 & es2 & Hm2 & Hs2 & Hb2).
  split; [lia |]. exists (es1 ++ es2).
  rewrite tags_of_app, !map_app, Hm1, Hm2. split; [reflexivity |]. split.
  - apply (StronglySorted_lt_app es1 es2 (epoch s1)); [exact Hs1 | exact Hs2 | |].
    + eapply Forall_impl; [exact Hb1 |]. intros x Hx. simpl in Hx. lia.
    + eapply Forall_impl; [exact Hb2 |]. intros x Hx. simpl in Hx. lia.
  - apply Forall_app; split.
    + eapply Forall_impl; [exact Hb1 |]. intros x Hx. simpl in Hx. lia.
    + eapply Forall_impl; [exact Hb2 |]. intros x Hx. simpl in Hx. lia.
Qed.

Lemma tagged_same_epoch s s' : epoch s' = epoch s -> tagged s [] s'.
Proof.
  intros H. split; [lia |]. exists []. repeat split; constructor.
Qed.

Lemma tagged_same s s' :
  epoch s' = epoch s -> authInfo s' = authInfo s ->
  lastDateRecv s' = lastDateRecv s -> tagged s [] s'.
Proof. intros H _ _. apply tagged_same_epoch, H. Qed.

Lemma tagged_no_tag s e : tags_of [e] = [] -> tagged s [e] s.
Proof.
  intros He. split; [reflexivity |]. exists []. rewrite He.
  repeat split; constructor.
Qed.

Lemma tagged_plain s e : plain e = true -> tagged s [e] s.
Proof.
  intros He. apply tagged_no_tag. destruct e; try reflexivity; discriminate He.
Qed.

Lemma tagged_generate s tag :
  tag_epoch tag = Some (epoch s) ->
  tagged s [TagGenerated tag] (set_epoch (epoch s + 1)%N s).
Proof.
  intros Ht. split; [simpl; lia |]. exists [epoch s]. simpl. rewrite Ht.
  split; [reflexivity |]. split.
  - repeat constructor.
  - repeat constructor; lia.
Qed.

Section Invariants.

Context (env : Env).

Lemma step_tagged a : sat tagged (step env a).
Proof.
  apply step_sat;
    first [ exact tagged_unit | exact tagged_comp | exact tagged_same
          | exact tagged_plain | exact tagged_generate
          | intros; apply tagged_same_epoch; reflexivity
          | intros; apply tagged_no_tag; reflexivity ].
Qed.

Lemma run_tagged acts s : tagged s (snd (run env acts s)) (fst (run env acts s)).
Proof.
  revert s. induction acts as [|a acts IH]; intros s; simpl.
  - apply tagged_unit.
  - eapply tagged_comp; [apply (step_tagged a s) | apply IH].
Qed.

Lemma step_keeps_keys a : is_UpdateKeys a = false -> sat keeps_keys (step env a).
Proof.
  apply step_sat_but_updateKeys;
    first [ exact keeps_keys_unit | exact keeps_keys_comp | exact keeps_keys_same
          | exact keeps_keys_generate | exact keeps_keys_date
          | intros; apply keeps_keys_effect ].
Qed.

Lemma run_authInfo acts s :
  forallb (fun a => negb (is_UpdateKeys a)) acts = true ->
  authInfo (fst (run env acts s)) = authInfo s.
Proof.
  revert s. induction acts as [|a acts IH]; intros s H; simpl in *.
  - reflexivity.
  - apply andb_prop in H as [Ha H]. apply negb_true_iff in Ha.
    rewrite (IH _ H). apply (step_keeps_keys a Ha s).
Qed.

Lemma socketEvents_emit_quiet event a : sat quiet (socketEvents_emit env event a).
Proof.
  apply socketEvents_emit_sat;
    first [ exact quiet_unit | exact quiet_comp | exact quiet_same
          | exact quiet_plain | exact quiet_generate ].
Qed.

Lemma dispatch_quiet messageTag json : sat quiet (dispatch env messageTag json).
Proof.
  apply dispatch_sat;
    first [ exact quiet_unit | exact quiet_comp | exact quiet_same
          | exact quiet_plain | exact quiet_generate ].
Qed.

Lemma end__quiet error : sat quiet (end_ error).
Proof.
  apply end__sat;
    first [ exact quiet_unit | exact quiet_comp | exact quiet_same
          | exact quiet_plain | exact quiet_generate ].
Qed.

End Invariants.

Lemma StronglySorted_lt_NoDup (es : list N) : StronglySorted N.lt es -> NoDup es.
Proof.
  induction 1 as [|e es Hs IH Hall]; constructor; [| exact IH].
  intros Hin. rewrite Forall_forall in Hall.
  specialize (Hall e Hin). lia.
Qed.

(** *** The tag generator *)


Example generateMessageTag_example :
  tags_of (snd (run sampleEnv
    [GenerateMessageTag false; GenerateMessageTag true;
     SendMessage (mkSendOptions (JArr [JStr "admin"; JStr "test"]) None None false);
     GenerateMessageTag false]
    (makeSocket sampleEnv)))
  = ["123.--0"; "1700000123.--1"; "123.--2"; "123.--3"].
Proof. vm_compute. reflexivity. Qed.

(** *** Sending *)

Lemma sendMessage_no_keys (env : Env) (s : State) header attributes data binaryTag tag longTag :
  authInfo s = None ->
  let r := sendMessage env
             (mkSendOptions (JNode header attributes data) (Some binaryTag) tag longTag) s in
  outcome_of r = Thrown keys_missing /\ List.filter is_WsSend (effects_of r) = [].
Proof.
  intros Hkeys. unfold sendMessage, tag_or_generate, generateMessageTag, when.
  cbv [mbind M_bind mret M_ret get_state modify tell throw sm_tag sm_longTag sm_json
       sm_binaryTag instanceof_BinaryNode negb].
  destruct tag as [t|]; [destruct (String.eqb t "") |];
    destruct (String.eqb (loggerLevel env) "trace"); simpl; rewrite Hkeys;
    split; reflexivity.
Qed.

(** *** Teardown *)

Lemma for_each_record {A} (f : A -> effect) (ls : list A) (s : State) :
  for_each ls (fun l s0 => (Ret tt, s0, [f l])) s = (Ret tt, s, map f ls).
Proof.
  induction ls as [|l ls IH]; [reflexivity |].
  cbn [for_each]. rewrite run_bind, IH. reflexivity.
Qed.

Lemma listeners_after_deletes_raw (wl : gmap string (list listener)) :
  delete "message" (delete "open" (delete "error" (delete "close" wl))) !! "ws-close"
  = wl !! "ws-close".
Proof. rewrite !lookup_delete_ne by discriminate. reflexivity. Qed.

Lemma for_each_invoke em event a (ls : list listener) (s : State) :
  for_each ls (fun l s0 => (Ret tt, s0, [Invoke em event l a])) s
  = (Ret tt, s, map (fun l => Invoke em event l a) ls).
Proof. apply (for_each_record (fun l => Invoke em event l a)). Qed.

(** Symbolic execution of the monad and of the record of the state; the
    maps and sets stay as they are. *)
Ltac exec :=
  cbv beta iota zeta delta
    [mbind M_bind mret M_ret get_state modify tell throw when
     epoch lastDateRecv authInfo phoneCheckInterval phoneCheckListeners readyState
     wsListeners socketEvents timers waits opens queries nextId
     set_epoch set_lastDateRecv set_authInfo set_phoneCheckInterval
     set_phoneCheckListeners set_readyState set_wsListeners set_socketEvents
     set_timers set_waits set_opens set_queries set_nextId set_registry registry
     outcome_of state_of effects_of fst snd ReadyState_eqb negb andb orb
     external_only removeAllListeners clear_timer set_timer clearPhoneCheckInterval
     ws_close emit listeners on off update_wait update_open].

(** What [end] does, in one equation. *)
Lemma end__run (error : option exn) (s : State) :
  end_ error s = (Ret tt, ended s, end_effects error s).
Proof.
  unfold end_, ended, end_effects.
  assert ("close" <> "ws-close") as H1 by discriminate.
  assert ("error" <> "ws-close") as H2 by discriminate.
  assert ("open" <> "ws-close") as H3 by discriminate.
  assert ("message" <> "ws-close") as H4 by discriminate.
  revert H1 H2 H3 H4.
  generalize "ws-close". generalize "close" "error" "open" "message".
  intros c e o m w H1 H2 H3 H4.
  destruct s as [ep ld au pi pl rs wl se ti wa op qu ni].
  destruct rs; exec; change (0 - 1 <=? 0) with true; exec; cbn [app];
    rewrite for_each_invoke; exec; cbn [app];
    rewrite !lookup_delete_ne by assumption; rewrite ?app_nil_r; reflexivity.
Qed.

Lemma ended_no_listeners (s : State) : listeners Ws "ws-close" (ended s) = [].
Proof.
  unfold listeners, ended. generalize "ws-close". intros w.
  destruct s as [ep ld au pi pl rs wl se ti wa op qu ni]. exec.
  rewrite lookup_delete_eq. reflexivity.
Qed.

Lemma filter_notifications error ls :
  List.filter is_ws_close_notification
    (map (fun l => Invoke Ws "ws-close" l (ArgError error)) ls)
  = map (fun l => Invoke Ws "ws-close" l (ArgError error)) ls.
Proof.
  induction ls as [|l ls IH]; [reflexivity |].
  cbn [map List.filter is_ws_close_notification].
  change (String.eqb "ws-close" "ws-close") with true. cbv iota.
  f_equal. exact IH.
Qed.

Lemma end_effects_notifications error s :
  List.filter is_ws_close_notification (end_effects error s)
  = map (fun l => Invoke Ws "ws-close" l (ArgError error)) (listeners Ws "ws-close" s).
Proof.
  unfold end_effects. cbn [List.filter is_ws_close_notification].
  rewrite List.filter_app, filter_notifications.
  destruct (readyState s); reflexivity.
Qed.

(** C6.  Two calls of [end] in succession: each listener of the terminal
    notification ['ws-close'] is called exactly once, with the reason of
    the first call; the second call notifies nobody. *)
Theorem end_twice_notifies_once (s : State) (r1 r2 : option exn) :
  let first := end_ r1 s in
  let second := end_ r2 (state_of first) in
  List.filter is_ws_close_notification (effects_of first ++ effects_of second)
  = map (fun l => Invoke Ws "ws-close" l (ArgError r1)) (listeners Ws "ws-close" s)
  /\ List.filter is_ws_close_notification (effects_of second) = [].
Proof.
  cbv zeta. rewrite !end__run. unfold effects_of, state_of. cbn [fst snd].
  rewrite List.filter_app, !end_effects_notifications, ended_no_listeners.
  split; [apply app_nil_r | reflexivity].
Qed.

(** C2.  On a socket whose [updateKeys] has never been called, whatever
    else has happened to it, sending a [BinaryNode] with a binary tag is
    rejected with the keys-missing error before [ws.send] is called. *)
Theorem sendMessage_binary_before_updateKeys (env : Env) (acts : list action)
    header attributes data binaryTag tag longTag :
  forallb (fun a => negb (is_UpdateKeys a)) acts = true ->
  let s := fst (run env acts (makeSocket env)) in
  let r := sendMessage env
             (mkSendOptions (JNode header attributes data) (Some binaryTag) tag longTag) s in
  outcome_of r = Thrown keys_missing
  /\ List.filter is_WsSend (effects_of r) = [].
Proof.
  intros Hacts. apply sendMessage_no_keys.
  rewrite (run_authInfo env acts _ Hacts). reflexivity.
Qed.

Lemma sendMessage_binary_before_updateKeys_witness :
  forallb (fun a => negb (is_UpdateKeys a))
    [WsOpened; GenerateMessageTag false; WsMessage (DStr "!1700000000000")] = true
  /\ (let s := fst (run sampleEnv
                    [WsOpened; GenerateMessageTag false; WsMessage (DStr "!1700000000000")]
                    (makeSocket sampleEnv)) in
      let r := sendMessage sampleEnv
                 (mkSendOptions (JNode "action" [("type", "set")] (JArr []))
                    (Some [10; 128]) None false) s in
      outcome_of r = Thrown keys_missing
      /\ List.filter is_WsSend (effects_of r) = []).
Proof.
  split; [reflexivity |].
  apply (sendMessage_binary_before_updateKeys sampleEnv
           [WsOpened; GenerateMessageTag false; WsMessage (DStr "!1700000000000")]).
  reflexivity.
Defined.

(** *** Queries *)

Lemma response_status_number response st :
  get_prop response "status" = JNum st ->
  response_status response = mret (JNum st).
Proof.
  intros H.
  destruct response; try discriminate H; unfold response_status; rewrite H;
    reflexivity.
Qed.

(** The constructor of [Boom] takes a status from 400 up. *)
Lemma new_Boom_number (env : Env) text (st : Z) data :
  400 <= st < 10 ^ 21 ->
  new_Boom env text (StRaw (JNum st)) data = EBoom (mkBoom text (StRaw (JNum st)) data).
Proof.
  intros [Hlo Hhi]. unfold new_Boom, Boom_accepts.
  apply Z.leb_le in Hlo. apply Z.ltb_lt in Hhi. rewrite Hlo, Hhi. reflexivity.
Qed.

(** It throws on a number below 400. *)
Lemma new_Boom_below_400 (env : Env) text (st : Z) data :
  st < 400 ->
  new_Boom env text (StRaw (JNum st)) data
  = EError ("First argument must be a number (400+): " +:+ JSON_stringify env (JNum st)).
Proof.
  intros Hlo. unfold new_Boom, Boom_accepts.
  apply Z.leb_gt in Hlo. rewrite Hlo. reflexivity.
Qed.

(** A response whose status is a number other than 0: teardown on 599,
    rejection when success was expected and the status is not 2xx. *)
Lemma query_response_status (env : Env) (s : State) json expect200 response st :
  get_prop response "status" = JNum st -> st <> 0 ->
  query_response env json expect200 response s
  = (if expect200 && negb (st / 100 =? 2) then
       Thrown (new_Boom env (unexpected_status_text env json st)
                 (StRaw (JNum st))
                 (Some (json, status_message env st)))
     else Ret response,
     if st =? 599 then ended s else s,
     if st =? 599 then end_effects (Some server_overloaded) s else []).
Proof.
  intros Hst Hnz. unfold query_response.
  rewrite (response_status_number _ _ Hst), run_ret.
  assert (truthy (JNum st) = true) as ->.
  { simpl. apply negb_true_iff, Z.eqb_neq, Hnz. }
  cbn [ToNumber number_to_string]. cbv zeta.
  rewrite run_bind.
  destruct (st =? 599) eqn:E.
  - cbn [when]. fold server_overloaded. rewrite end__run.
    destruct (expect200 && negb (st / 100 =? 2));
      unfold throw, mret, M_ret; rewrite app_nil_r; reflexivity.
  - cbn [when].
    destruct (expect200 && negb (st / 100 =? 2)); reflexivity.
Qed.

(** A response without a truthy status counts as 200. *)
Lemma query_response_default (env : Env) (s : State) json expect200 response :
  truthy response = true ->
  truthy (get_prop response "status") = false ->
  query_response env json expect200 response s = (Ret response, s, []).
Proof.
  intros Hresp Hst. unfold query_response.
  assert (response_status response = mret (get_prop response "status")) as ->.
  { destruct response; try discriminate Hresp; reflexivity. }
  rewrite run_ret, Hst. cbn [ToNumber]. cbv zeta.
  change (200 =? 599) with false. change (200 / 100 =? 2) with true.
  destruct expect200; reflexivity.
Qed.

(** C3.  A response that carries status 599 makes the query do exactly
    what [end(new Boom('WA server overloaded', { statusCode: 599 }))]
    does, whether or not the query expected success; the query then
    resolves with the response, or rejects when it expected success. *)
Theorem query_status_599_tears_down (env : Env) (s : State) json expect200 response :
  get_prop response "status" = JNum 599 ->
  let r := query_response env json expect200 response s in
  (Ret tt, state_of r, effects_of r) = end_ (Some server_overloaded) s
  /\ (expect200 = false -> outcome_of r = Ret response)
  /\ (expect200 = true -> rejects_with_status env s json response 599).
Proof.
  intros Hst. cbv zeta.
  rewrite (query_response_status env s json expect200 response 599 Hst) by discriminate.
  rewrite end__run. change (599 =? 599) with true. cbv iota.
  split; [reflexivity |]. split.
  - intros ->. reflexivity.
  - intros ->. unfold rejects_with_status.
    rewrite (query_response_status env s json true response 599 Hst) by discriminate.
    rewrite new_Boom_number by (split; [discriminate | reflexivity]).
    eexists _, _. reflexivity.
Qed.

Lemma query_status_599_tears_down_witness :
  get_prop (JObj [("status", JNum 599)]) "status" = JNum 599
  /\ (let r := query_response sampleEnv (JArr [JStr "query"; JStr "status"]) true
                 (JObj [("status", JNum 599)]) (makeSocket sampleEnv) in
      (Ret tt, state_of r, effects_of r) = end_ (Some server_overloaded) (makeSocket sampleEnv)
      /\ (true = false -> outcome_of r = Ret (JObj [("status", JNum 599)]))
      /\ (true = true ->
          rejects_with_status sampleEnv (makeSocket sampleEnv)
            (JArr [JStr "query"; JStr "status"]) (JObj [("status", JNum 599)]) 599)).
Proof.
  split; [reflexivity |].
  apply (query_status_599_tears_down sampleEnv (makeSocket sampleEnv)
           (JArr [JStr "query"; JStr "status"]) true (JObj [("status", JNum 599)])).
  reflexivity.
Defined.

(** C4, as the code has it.  A query that expects success and whose
    response carries a numeric status from 400 up (below 1e21, where a
    number is written in full) rejects with an error that embeds that
    status and the request payload; a response whose status is absent,
    or falsy as 0 is, counts as 200 and resolves the query.  (The
    statuses outside the 2xx class that [Boom] does not take, those
    below 400, are not spoken of: see [query_status_below_400].) *)
Theorem query_rejects_unexpected_status (env : Env) (s : State) (json : jsval) :
  (forall response st,
      get_prop response "status" = JNum st -> 400 <= st < 10 ^ 21 ->
      rejects_with_status env s json response st)
  /\ (forall response expect200,
        truthy response = true -> truthy (get_prop response "status") = false ->
        query_response env json expect200 response s = (Ret response, s, [])).
Proof.
  split.
  - intros response st Hst Hrange. unfold rejects_with_status.
    rewrite (query_response_status env s json true response st Hst) by lia.
    assert ((st / 100 =? 2) = false) as ->.
    { apply Z.eqb_neq. intros H2xx.
      assert (4 <= st / 100) by (apply Z.div_le_lower_bound; lia). lia. }
    rewrite (new_Boom_number env _ st _ Hrange).
    eexists _, _. reflexivity.
  - intros response expect200. apply query_response_default.
Qed.

Lemma query_rejects_unexpected_status_witness :
  rejects_with_status sampleEnv (makeSocket sampleEnv) (JArr [JStr "query"])
    (JObj [("status", JNum 404)]) 404
  /\ query_response sampleEnv (JArr [JStr "query"]) true (JArr [JStr "ok"])
       (makeSocket sampleEnv)
     = (Ret (JArr [JStr "ok"]), makeSocket sampleEnv, []).
Proof.
  destruct (query_rejects_unexpected_status sampleEnv (makeSocket sampleEnv)
              (JArr [JStr "query"])) as [H1 H2].
  split.
  - apply H1; [reflexivity | split; [discriminate | reflexivity]].
  - apply H2; reflexivity.
Defined.

(** C4 as the specification states it fails on a response whose status
    is 0: the status is not of the 2xx class, yet the query, which
    expected success, resolves with the response. *)
Lemma query_status_zero_counterexample :
  get_prop (JObj [("status", JNum 0)]) "status" = JNum 0
  /\ 0 / 100 <> 2
  /\ outcome_of (query_response sampleEnv (JArr [JStr "query"]) true
                   (JObj [("status", JNum 0)]) (makeSocket sampleEnv))
     = Ret (JObj [("status", JNum 0)])
  /\ ~ rejects_with_status sampleEnv (makeSocket sampleEnv) (JArr [JStr "query"])
        (JObj [("status", JNum 0)]) 0.
Proof.
  assert (query_response sampleEnv (JArr [JStr "query"]) true
            (JObj [("status", JNum 0)]) (makeSocket sampleEnv)
          = (Ret (JObj [("status", JNum 0)]), makeSocket sampleEnv, [])) as Hrun.
  { apply query_response_default; reflexivity. }
  split; [reflexivity |]. split; [vm_compute; discriminate |]. split.
  - rewrite Hrun. reflexivity.
  - intros (text & message & H). rewrite Hrun in H. discriminate H.
Qed.

(** Where the code slips: a status outside the 2xx class that is below
    400 -- 300, or 100 -- is passed to the constructor of [Boom], which
    takes no status below 400; what the query is rejected with is the
    plain [Error] of the failed assertion, which embeds neither the
    status nor the request payload. *)
Lemma query_status_below_400 (env : Env) (s : State) json response st :
  get_prop response "status" = JNum st -> st <> 0 -> st / 100 <> 2 -> st < 400 ->
  outcome_of (query_response env json true response s)
  = Thrown (EError ("First argument must be a number (400+): "
                    +:+ JSON_stringify env (JNum st))).
Proof.
  intros Hst Hnz H2xx Hlo.
  rewrite (query_response_status env s json true response st Hst Hnz).
  apply Z.eqb_neq in H2xx. rewrite H2xx.
  rewrite (new_Boom_below_400 env _ st _ Hlo). reflexivity.
Qed.

Example query_300_example :
  outcome_of (query_response sampleEnv (JArr [JStr "query"]) true
                (JObj [("status", JNum 300)]) (makeSocket sampleEnv))
  = Thrown (EError "First argument must be a number (400+): 300").
Proof. vm_compute. reflexivity. Qed.

(** The continuation of [query] is [query_response] on what the wait
    settled with. *)
Lemma query_resume_settled (env : Env) (q : nat) (w : Wait) (c : PendingQuery)
    (response : jsval) (s : State) :
  waits s !! q = Some w -> queries s !! q = Some c ->
  w_settled w = Some (inr response) ->
  query_resume env q s = query_response env (q_json c) (q_expect200 c) response s.
Proof.
  intros Hw Hc Hs. unfold query_resume. rewrite run_get, Hw, Hc, Hs. reflexivity.
Qed.

(** Two queries on a socket that runs: the response with status 599 ends
    the connection and resolves the query that did not expect success;
    the response with status 404 rejects the query that did. *)
Example query_599_example :
  let s := fst (run sampleEnv
                  [WsOpened;
                   Query (mkQueryOptions (JArr [JStr "query"; JStr "chats"]) None false
                            None false None false);
                   WsMessage (DStr "123.--0,599"); WaitForMessageFinally 0]
                  (makeSocket sampleEnv)) in
  let r := query_resume sampleEnv 0 s in
  readyState s = OPEN
  /\ outcome_of r = Ret (JObj [("status", JNum 599)])
  /\ effects_of r = [Log Debug "connection closed"; WsClose]
  /\ readyState (state_of r) = CLOSING
  /\ elements (timers (state_of r)) = [].
Proof. vm_compute. repeat split; reflexivity. Qed.

Example query_404_example :
  let s := fst (run sampleEnv
                  [WsOpened;
                   Query (mkQueryOptions (JArr [JStr "query"; JStr "chats"]) None true
                            None false None false);
                   WsMessage (DStr "123.--0,404"); WaitForMessageFinally 0]
                  (makeSocket sampleEnv)) in
  let r := query_resume sampleEnv 0 s in
  outcome_of r
  = Thrown (EBoom (mkBoom "Unexpected status in 'query': Not Found(404)"
                          (StRaw (JNum 404))
                          (Some (JArr [JStr "query"; JStr "chats"], "Not Found"))))
  /\ effects_of r = []
  /\ readyState (state_of r) = OPEN.
Proof. vm_compute. repeat split; reflexivity. Qed.

(** *** Inbound frames *)

Lemma substring_all (s : string) : String.substring 0 (String.length s) s = s.
Proof. induction s as [|c s IH]; [reflexivity |]. simpl. rewrite IH. reflexivity. Qed.

Lemma data_rest_text (c : ascii) (rest : string) : data_rest (DStr (String c rest)) = rest.
Proof.
  unfold data_rest. cbn [String.length]. rewrite Nat.sub_1_r. cbn [Nat.pred].
  cbn [String.substring]. apply substring_all.
Qed.

Section Frames.

Context (env : Env).

(** A text frame that starts with ['!'] is a pong: [lastDateRecv] takes
    the timestamp the frame carries, and the decoder is not called. *)
Lemma onMessageRecieved_pong (rest : string) (s : State) :
  let r := onMessageRecieved env (DStr (String "!" rest)) s in
  lastDateRecv (state_of r) = Some (new_Date (parseInt rest))
  /\ Forall no_decode (effects_of r).
Proof.
  cbv zeta. unfold onMessageRecieved.
  change (strict_eq (data_first (DStr (String "!" rest))) (JStr "!")) with true.
  cbv iota. rewrite data_rest_text, run_modify, run_bind.
  destruct (socketEvents_emit_quiet env "received-pong" ArgNone
              (set_lastDateRecv (Some (new_Date (parseInt rest))) s))
    as [(_ & _ & Hdate) Heff].
  destruct (socketEvents_emit env "received-pong" ArgNone _) as [[[b|e] s1] t1];
    simpl in *.
  - rewrite app_nil_r. split; assumption.
  - split; assumption.
Qed.

(** Any other frame goes to the decoder first, and leaves [lastDateRecv]
    as it is. *)
Lemma onMessageRecieved_not_pong (message : Data) (s : State) :
  strict_eq (data_first message) (JStr "!") = false ->
  let r := onMessageRecieved env message s in
  (exists rest, effects_of r = DecodeCall message :: rest)
  /\ lastDateRecv (state_of r) = lastDateRecv s.
Proof.
  intros Hfirst. cbv zeta. unfold onMessageRecieved. rewrite Hfirst.
  rewrite run_get, run_tell. cbn [effects_of state_of fst snd].
  split; [eexists; reflexivity |].
  destruct (decodeWAMessage env message (authInfo s)) as [e | messageTag json].
  - apply (end__quiet (Some e) s).
  - destruct (negb (truthy json)); [reflexivity |].
    apply (dispatch_quiet env messageTag json s).
Qed.

(** A frame that decodes to an absent payload is dropped; a frame that
    does not decode ends the connection. *)
Lemma onMessageRecieved_decoded (message : Data) (s : State) :
  strict_eq (data_first message) (JStr "!") = false ->
  (forall messageTag json,
      decodeWAMessage env message (authInfo s) = Decoded messageTag json ->
      truthy json = false ->
      onMessageRecieved env message s = (Ret tt, s, [DecodeCall message]))
  /\ (forall error,
        decodeWAMessage env message (authInfo s) = DecodeError error ->
        onMessageRecieved env message s
        = (Ret tt, ended s, DecodeCall message :: end_effects (Some error) s)).
Proof.
  intros Hfirst. split.
  - intros messageTag json Hdec Hjson. unfold onMessageRecieved.
    rewrite Hfirst, run_get, run_tell, Hdec, Hjson. reflexivity.
  - intros error Hdec. unfold onMessageRecieved.
    rewrite Hfirst, run_get, run_tell, Hdec, end__run. reflexivity.
Qed.

End Frames.

(** C10.  A frame that is not a pong and that the decoder decodes to an
    absent payload ([null] or [undefined]) is dropped: the state of the
    socket is unchanged and nothing is observable but the call of the
    decoder -- no listener of a tag or of a callback channel is called,
    the connection is not ended, nothing is logged.  A frame that the
    decoder rejects ends the connection with the decoder's error. *)
Theorem absent_payload_is_dropped (env : Env) (s : State) (message : Data)
    (messageTag : string) (json : jsval) :
  strict_eq (data_first message) (JStr "!") = false ->
  decodeWAMessage env message (authInfo s) = Decoded messageTag json ->
  json = JNull \/ json = JUndefined ->
  onMessageRecieved env message s = (Ret tt, s, [DecodeCall message])
  /\ (forall message' error,
        strict_eq (data_first message') (JStr "!") = false ->
        decodeWAMessage env message' (authInfo s) = DecodeError error ->
        onMessageRecieved env message' s
        = (Ret tt, state_of (end_ (Some error) s),
           DecodeCall message' :: effects_of (end_ (Some error) s))).
Proof.
  intros Hfirst Hdec Hjson. split.
  - apply (proj1 (onMessageRecieved_decoded env message s Hfirst) messageTag json Hdec).
    destruct Hjson as [-> | ->]; reflexivity.
  - intros message' error Hfirst' Hdec'.
    rewrite (proj2 (onMessageRecieved_decoded env message' s Hfirst') error Hdec').
    rewrite end__run. reflexivity.
Qed.

Lemma absent_payload_is_dropped_witness :
  onMessageRecieved sampleEnv (DStr "s1,") (makeSocket sampleEnv)
  = (Ret tt, makeSocket sampleEnv, [DecodeCall (DStr "s1,")])
  /\ onMessageRecieved sampleEnv (DStr "garbled") (makeSocket sampleEnv)
     = (Ret tt, state_of (end_ (Some (EExternal 0)) (makeSocket sampleEnv)),
        DecodeCall (DStr "garbled")
        :: effects_of (end_ (Some (EExternal 0)) (makeSocket sampleEnv))).
Proof.
  destruct (absent_payload_is_dropped sampleEnv (makeSocket sampleEnv) (DStr "s1,")
              "s1" JNull) as [H1 H2];
    [reflexivity | reflexivity | left; reflexivity |].
  split; [exact H1 |].
  apply (H2 (DStr "garbled") (EExternal 0)); reflexivity.
Defined.

(** C7, where the code departs from it.  A frame that arrives as a
    [Buffer] whose first byte is ['!'] is not taken for a pong: the test
    [message[0] === '!'] compares a number with a string, so the frame
    is handed to the decoder and [lastDateRecv] is not updated. *)
Theorem pong_in_a_buffer_reaches_the_decoder (env : Env) (s : State) (rest : Buffer) :
  let message := DBuf (Buffer_from_string "!" ++ rest) in
  let r := onMessageRecieved env message s in
  data_first message = JNum 33
  /\ (exists effects, effects_of r = DecodeCall message :: effects)
  /\ lastDateRecv (state_of r) = lastDateRecv s.
Proof.
  cbv zeta. split; [reflexivity |].
  apply onMessageRecieved_not_pong. reflexivity.
Qed.

Example pong_in_a_buffer_example :
  effects_of (onMessageRecieved sampleEnv
                (DBuf (Buffer_from_string "!1700000000000")) (makeSocket sampleEnv))
  = [DecodeCall (DBuf (Buffer_from_string "!1700000000000"));
     Log Debug "connection closed"; WsClose]
  /\ lastDateRecv (state_of (onMessageRecieved sampleEnv
                (DBuf (Buffer_from_string "!1700000000000")) (makeSocket sampleEnv)))
     = None.
Proof. vm_compute. split; reflexivity. Qed.

(** The decimal text of a number reads back as that number. *)
Lemma digit_not_white_space c : digit_char c = true -> is_white_space c = false.
Proof.
  unfold digit_char, is_white_space. intros H. apply andb_prop in H as [H1 H2].
  apply N.leb_le in H1, H2.
  repeat (apply orb_false_intro); apply N.eqb_neq; lia.
Qed.

Lemma digit_not_char c (d : ascii) :
  digit_char d = false -> digit_char c = true -> Ascii.eqb c d = false.
Proof.
  intros Hd Hc. destruct (Ascii.eqb c d) eqn:E; [| reflexivity].
  apply Ascii.eqb_eq in E. subst c. congruence.
Qed.

Lemma digit_not_white_space2 c c2 : digit_char c = true -> is_white_space2 c c2 = false.
Proof.
  unfold digit_char, is_white_space2. intros H. apply andb_prop in H as [H1 H2].
  apply N.leb_le in H1, H2.
  apply andb_false_intro1, N.eqb_neq. lia.
Qed.

Lemma digit_not_white_space3 c c2 c3 :
  digit_char c = true -> is_white_space3 c c2 c3 = false.
Proof.
  unfold digit_char, is_white_space3. intros H. apply andb_prop in H as [H1 H2].
  apply N.leb_le in H1, H2. cbv zeta.
  assert ((N_of_ascii c =? 225)%N = false) as -> by (apply N.eqb_neq; lia).
  assert ((N_of_ascii c =? 226)%N = false) as -> by (apply N.eqb_neq; lia).
  assert ((N_of_ascii c =? 227)%N = false) as -> by (apply N.eqb_neq; lia).
  assert ((N_of_ascii c =? 239)%N = false) as -> by (apply N.eqb_neq; lia).
  reflexivity.
Qed.

(** No white space starts with a digit. *)
Lemma trim_start_digit c d : digit_char c = true -> trim_start (String c d) = String c d.
Proof.
  intros Hc. cbn [trim_start]. rewrite (digit_not_white_space c Hc).
  destruct d as [|c2 d2]; [reflexivity |].
  rewrite (digit_not_white_space2 c c2 Hc).
  destruct d2 as [|c3 d3]; [reflexivity |].
  rewrite (digit_not_white_space3 c c2 c3 Hc). reflexivity.
Qed.

Lemma parseInt_digits (d : string) :
  all_digits d = true -> d <> "" -> parseInt d = Some (Z.of_N (digits_val 0 d)).
Proof.
  intros Hall Hne. unfold parseInt.
  destruct d as [|c1 d1]; [congruence |].
  pose proof Hall as Hall'. cbn [all_digits] in Hall'.
  apply andb_prop in Hall' as [Hc1 Hd1].
  rewrite (trim_start_digit c1 d1 Hc1).
  cbn [strip_sign].
  rewrite (digit_not_char c1 "-" eq_refl Hc1), (digit_not_char c1 "+" eq_refl Hc1).
  assert (strip_radix (String c1 d1) = (10%N, String c1 d1)) as ->.
  { cbn [strip_radix]. destruct d1 as [|c2 d2]; [reflexivity |].
    cbn [all_digits] in Hd1. apply andb_prop in Hd1 as [Hc2 _].
    rewrite (digit_not_char c2 "x" eq_refl Hc2), (digit_not_char c2 "X" eq_refl Hc2).
    rewrite andb_false_r. reflexivity. }
  rewrite parse_digits_all by (auto; right; discriminate). reflexivity.
Qed.

Lemma parseInt_pretty (n : N) : parseInt (pretty n) = Some (Z.of_N n).
Proof.
  destruct (pretty_N_digits n) as (Hall & Hne & Hval).
  rewrite (parseInt_digits _ Hall Hne), Hval. reflexivity.
Qed.

(** The part of C7 that holds: a text frame made of ['!'] and the
    decimal text of a millisecond timestamp within the range of [Date]
    sets [lastDateRecv] to that timestamp, and is not decoded. *)
Lemma pong_text_frame (env : Env) (s : State) (n : N) :
  (n <= 8640000000000000)%N ->
  let r := onMessageRecieved env (DStr ("!" +:+ pretty n)) s in
  lastDateRecv (state_of r) = Some (Some (Z.of_N n))
  /\ List.filter is_DecodeCall (effects_of r) = [].
Proof.
  intros Hn. cbv zeta.
  destruct (onMessageRecieved_pong env (pretty n) s) as [Hdate Heff].
  change ("!" +:+ pretty n) with (String "!" (pretty n)).
  split.
  - rewrite Hdate, parseInt_pretty. unfold new_Date.
    assert ((Z.abs (Z.of_N n) <=? 8640000000000000) = true) as ->; [| reflexivity].
    apply Z.leb_le. lia.
  - induction Heff as [|e t He _ IH]; [reflexivity |].
    cbn [List.filter]. unfold no_decode in He. rewrite He. exact IH.
Qed.

Example pong_text_frame_example :
  lastDateRecv (state_of (onMessageRecieved sampleEnv (DStr "!1700000000000")
                            (makeSocket sampleEnv)))
  = Some (Some 1700000000000).
Proof. vm_compute. reflexivity. Qed.

(** [parseInt] skips the white space of Unicode as well: a no-break
    space (U+00A0, the bytes 194 and 160) before the digits. *)
Example pong_after_no_break_space :
  lastDateRecv (state_of (onMessageRecieved sampleEnv
     (DStr (String "!" (String (ascii_of_nat 194) (String (ascii_of_nat 160)
                                                     "1700000000000"))))
     (makeSocket sampleEnv)))
  = Some (Some 1700000000000).
Proof. vm_compute. reflexivity. Qed.

(** *** The keep-alive watchdog *)

(** A tick, in one equation. *)
Lemma keepAliveTick_run (env : Env) (now : Z) (s : State) :
  keepAliveTick env now s
  = if gtb_number (match reference_time now s with
                   | Some t => Some (now - t)
                   | None => None
                   end) (keepAliveIntervalMs env + 5000)
    then end_ (Some connection_lost) (watchdog_state now s)
    else (Ret tt, watchdog_state now s, [keep_alive_effect (watchdog_state now s)]).
Proof.
  unfold keepAliveTick, reference_time, watchdog_state, keep_alive_effect.
  rewrite run_get.
  destruct (lastDateRecv s) as [d|] eqn:Hd.
  - rewrite bool_decide_eq_false_2 by discriminate.
    cbn [when]. rewrite run_ret, run_get, Hd.
    destruct d as [t|]; cbn [gtb_number].
    + destruct (keepAliveIntervalMs env + 5000 <? now - t); [reflexivity |].
      destruct (ReadyState_eqb (readyState s) OPEN) eqn:E;
        [apply sendRawMessage_open; exact E | reflexivity].
    + destruct (ReadyState_eqb (readyState s) OPEN) eqn:E;
        [apply sendRawMessage_open; exact E | reflexivity].
  - rewrite bool_decide_eq_true_2 by reflexivity.
    cbn [when]. rewrite run_modify, run_get.
    cbn [lastDateRecv set_lastDateRecv readyState].
    destruct (new_Date (Some now)) as [t|]; cbn [gtb_number].
    + destruct (keepAliveIntervalMs env + 5000 <? now - t); [reflexivity |].
      destruct (ReadyState_eqb (readyState s) OPEN) eqn:E;
        [apply sendRawMessage_open; exact E | reflexivity].
    + destruct (ReadyState_eqb (readyState s) OPEN) eqn:E;
        [apply sendRawMessage_open; exact E | reflexivity].
Qed.




(** *** The canceller of a query that needs the phone *)

(** [waitForMessage] hands [onErr] to [exitQueryIfResponseNotExpected]
    before the executor of the promise has assigned it: the canceller
    receives [undefined] as [cancel], whatever the call. *)
Lemma waitForMessage_cancel_undefined (env : Env) tag timeoutMs (s : State) :
  let r := waitForMessage env tag true timeoutMs s in
  outcome_of r = Ret (nextId s)
  /\ phoneCheckListeners (state_of r) = phoneCheckListeners s + 1
  /\ exists w, waits (state_of r) !! nextId s = Some w
            /\ w_cancel w = None /\ w_onErr w = Some (OnErr (nextId s))
            /\ w_settled w = None.
Proof.
  cbv zeta. unfold waitForMessage.
  rewrite run_get, !run_modify. cbn [when].
  unfold startPhoneCheckInterval, exitQueryIfResponseNotExpected, promiseTimeout.
  generalize ("TAG:" +:+ tag) (PHONE_CONNECTION_CB env) "close" "error".
  intros e1 e2 e3 e4.
  destruct s as [ep ld au pi pl rs wl se ti wa op qu ni].
  destruct pi, timeoutMs as [ms|];
    [destruct (ms =? 0) | | destruct (ms =? 0) |]; exec;
    (split; [reflexivity | split; [reflexivity |]]);
    rewrite !lookup_alter_eq, lookup_insert_eq; eexists;
    (split; [reflexivity |]); repeat split.
Qed.

(** When the timer of such a canceller fires, the call of [cancel]
    throws: the wait is not rejected and the count of the phone-check
    monitor stays. *)
Lemma exitQueryTimeout_without_cancel (q : nat) (w : Wait) (s : State) :
  waits s !! q = Some w -> w_cancel w = None ->
  exitQueryTimeout q s
  = (Thrown (ETypeError "cancel is not a function"),
     set_timers (timers s ∖ {[ExitQueryTimeout q]}) s,
     [Log Info "cancelling wait for message as a response is no longer expected from the phone"]).
Proof.
  intros Hw Hc. unfold exitQueryTimeout, clear_timer.
  rewrite run_modify, run_tell, run_get. cbn [waits set_timers].
  rewrite Hw, Hc. reflexivity.
Qed.

(** The listener of the canceller, on a payload that reports the phone
    connected: it arms the grace timer. *)
Lemma exitQueryListener_connected (env : Env) (q : nat) (first connected : jsval)
    (s : State) :
  truthy connected = true ->
  let r := exitQueryListener env q (JArr [first; connected]) s in
  outcome_of r = Ret tt
  /\ ExitQueryTimeout q ∈ timers (state_of r)
  /\ waits (state_of r) = waits s
  /\ phoneCheckListeners (state_of r) = phoneCheckListeners s.
Proof.
  intros Hc. cbv zeta. unfold exitQueryListener.
  rewrite run_ret. cbn [get_index nth]. rewrite Hc. cbn [when].
  unfold set_timer, off. rewrite run_modify.
  unfold modify, outcome_of, state_of. cbn [fst snd].
  split; [reflexivity |].
  destruct (remove_last _ _);
    cbn [timers waits phoneCheckListeners set_registry set_socketEvents set_timers];
    (split; [set_solver | split; reflexivity]).
Qed.

(** C8, where the code departs from it.  For every call of
    [waitForMessage] that requires the phone: once its listener has seen
    the phone reported connected, the grace timer is armed; when the
    timer fires, its callback finds [cancel] undefined and throws.  The
    wait is not rejected -- it is still pending -- and the count of the
    phone-check monitor is still one above what it was before the call. *)
Theorem grace_timer_cannot_cancel (env : Env) (tag : string) (timeoutMs : option Z)
    (s : State) :
  let q := nextId s in
  let r1 := waitForMessage env tag true timeoutMs s in
  let r2 := exitQueryListener env q (JArr [JStr "Pong"; JBool true]) (state_of r1) in
  let r3 := exitQueryTimeout q (state_of r2) in
  ExitQueryTimeout q ∈ timers (state_of r2)
  /\ outcome_of r3 = Thrown (ETypeError "cancel is not a function")
  /\ (w_settled <$> waits (state_of r3) !! q) = Some None
  /\ phoneCheckListeners (state_of r3) = phoneCheckListeners s + 1.
Proof.
  cbv zeta.
  destruct (waitForMessage_cancel_undefined env tag timeoutMs s)
    as (_ & Hcount & w & Hw & Hcancel & _ & Hpending).
  destruct (exitQueryListener_connected env (nextId s) (JStr "Pong") (JBool true)
              (state_of (waitForMessage env tag true timeoutMs s)) eq_refl)
    as (_ & Harmed & Hwaits & Hcount').
  split; [exact Harmed |].
  rewrite <- Hwaits in Hw.
  set (s2 := state_of (exitQueryListener env (nextId s)
                         (JArr [JStr "Pong"; JBool true])
                         (state_of (waitForMessage env tag true timeoutMs s)))) in *.
  rewrite (exitQueryTimeout_without_cancel _ w s2 Hw Hcancel).
  change (state_of (?o, ?st, ?t)) with st. change (outcome_of (?o, ?st, ?t)) with o.
  cbn [waits phoneCheckListeners set_timers].
  split; [reflexivity |]. split.
  - rewrite Hw. cbn [fmap option_fmap option_map]. rewrite Hpending. reflexivity.
  - rewrite Hcount', Hcount. reflexivity.
Qed.

(** The same on a socket that runs: a query that requires the phone is
    sent, the frame that reports the phone connected arrives, the grace
    timer fires. *)
Example exit_query_timeout_example :
  let query_chats :=
    Query (mkQueryOptions (JArr [JStr "query"; JStr "chats"]) (Some 60000) false
             None false None true) in
  let before := fst (run sampleEnv [WsOpened] (makeSocket sampleEnv)) in
  let s := fst (run sampleEnv [WsOpened; query_chats; WsMessage (DStr "s1,Pong")]
                  (makeSocket sampleEnv)) in
  let r := step sampleEnv (ExitQueryTimeoutFires 0) s in
  bool_decide (ExitQueryTimeout 0 ∈ timers s) = true
  /\ effects_of r
     = [Log Info "cancelling wait for message as a response is no longer expected from the phone";
        Uncaught (ETypeError "cancel is not a function")]
  /\ (w_settled <$> waits (state_of r) !! 0%nat) = Some None
  /\ (w_cancel <$> waits s !! 0%nat) = Some None
  /\ phoneCheckListeners before = 0
  /\ phoneCheckListeners (state_of r) = 1.
Proof. vm_compute. repeat split; reflexivity. Qed.

(** *** Waiting for the transport to open *)

(** The [finally] of [waitForSocketOpen] removes its listeners from
    [socketEvents], where they never were: the listeners of [ws] are
    what they were. *)
Lemma off_socketEvents_ws (event : string) (l : listener) (s : State) :
  wsListeners
    (match remove_last l (listeners SocketEvents event s) with
     | [] => set_registry SocketEvents (delete event (registry SocketEvents s)) s
     | ls => set_registry SocketEvents (<[event := ls]> (registry SocketEvents s)) s
     end)
  = wsListeners s.
Proof. destruct (remove_last l (listeners SocketEvents event s)); reflexivity. Qed.

Lemma waitForSocketOpen_finally_ws (w : nat) (s : State) :
  wsListeners (state_of (waitForSocketOpen_finally w s)) = wsListeners s.
Proof.
  unfold waitForSocketOpen_finally, off, update_open. rewrite !run_modify.
  unfold modify, state_of. cbn [fst snd set_opens wsListeners].
  rewrite !off_socketEvents_ws. reflexivity.
Qed.

(** C9, where the code departs from it.  [waitForSocketOpen] is called
    while the transport connects, the transport opens, the call resumes
    and runs its [finally]: the call has returned, and its three
    listeners are still registered on [ws].  In general the [finally]
    of [waitForSocketOpen] leaves the listeners of [ws] untouched. *)
Theorem waitForSocketOpen_listeners_survive :
  let s := fst (run sampleEnv [WaitForSocketOpen; WsOpened; WaitForSocketOpenFinally 0]
                  (makeSocket sampleEnv)) in
  opens s !! 0%nat = Some (mkOpenWait (Some (inr tt)) true)
  /\ listeners Ws "open" s = [OnWsOpen; OpenOnOpen 0]
  /\ listeners Ws "close" s = [OnWsClose; OpenOnClose 0]
  /\ listeners Ws "error" s = [OnWsError; OpenOnClose 0]
  /\ (forall w s', wsListeners (state_of (waitForSocketOpen_finally w s')) = wsListeners s').
Proof.
  cbv zeta.
  split; [vm_compute; reflexivity |].
  split; [vm_compute; reflexivity |].
  split; [vm_compute; reflexivity |].
  split; [vm_compute; reflexivity |].
  apply waitForSocketOpen_finally_ws.
Qed.

(** The sibling [waitForMessage] does remove what it registered. *)
Example waitForMessage_listeners_removed :
  let s := fst (run sampleEnv
                  [WsOpened; WaitForMessage "123.--0" true (Some 1000);
                   WsMessage (DStr "123.--0,pong"); WaitForMessageFinally 0]
                  (makeSocket sampleEnv)) in
  listeners SocketEvents "TAG:123.--0" s = []
  /\ listeners Ws "close" s = [OnWsClose]
  /\ listeners Ws "error" s = [OnWsError]
  /\ listeners SocketEvents "CB:Pong" s = [PhoneConnectionListener]
  /\ elements (timers s) = [KeepAliveReq]
  /\ phoneCheckListeners s = 0.
Proof. vm_compute. repeat split; reflexivity. Qed.

(** ** Further properties *)

(** *** Sending *)

Lemma tag_or_generate_run (env : Env) tag longTag (s : State) :
  tag_or_generate env tag longTag s
  = (Ret (chosen_tag env tag longTag s), after_tag tag s,
     if tag_supplied tag then [] else [TagGenerated (chosen_tag env tag longTag s)]).
Proof.
  unfold tag_or_generate, chosen_tag, after_tag, tag_supplied, generateMessageTag.
  destruct tag as [t|]; [destruct (String.eqb t "") |]; reflexivity.
Qed.

Lemma sendRawMessage_run (data : Data) (s : State) :
  sendRawMessage data s = (sent_outcome s tt, s, sent_frames s data).
Proof.
  unfold sendRawMessage, sent_outcome, sent_frames, writable. rewrite run_get.
  destruct (ReadyState_eqb (readyState s) OPEN); reflexivity.
Qed.

Lemma writable_after_tag tag s : writable (after_tag tag s) = writable s.
Proof. unfold after_tag. destruct (tag_supplied tag); reflexivity. Qed.

Lemma readyState_after_tag tag s : readyState (after_tag tag s) = readyState s.
Proof. unfold after_tag. destruct (tag_supplied tag); reflexivity. Qed.

(** The end of [sendMessage]: the frame is handed to [sendRawMessage]. *)
Lemma send_and_return (data : Data) (tag : string) (s : State) :
  (sendRawMessage data ;; mret tag) s = (sent_outcome s tag, s, sent_frames s data).
Proof.
  rewrite run_bind, sendRawMessage_run. unfold sent_outcome, sent_frames.
  destruct (writable s); reflexivity.
Qed.

Lemma filter_sent_frames s data :
  List.filter is_WsSend (sent_frames s data) = sent_frames s data.
Proof. unfold sent_frames. destruct (writable s); reflexivity. Qed.

Lemma filter_trace_log env : List.filter is_WsSend (trace_log env) = [].
Proof. unfold trace_log. destruct (String.eqb (loggerLevel env) "trace"); reflexivity. Qed.

Lemma sendMessage_plain_run (env : Env) json tag longTag (s : State) :
  sendMessage env (mkSendOptions json None tag longTag) s
  = (sent_outcome s (chosen_tag env tag longTag s), after_tag tag s,
     (if tag_supplied tag then [] else [TagGenerated (chosen_tag env tag longTag s)])
     ++ trace_log env
     ++ sent_frames s (DStr (chosen_tag env tag longTag s +:+ ","
                             +:+ JSON_stringify env json))).
Proof.
  unfold sendMessage. rewrite run_bind, tag_or_generate_run.
  cbn [sm_tag sm_longTag sm_binaryTag sm_json].
  unfold when, trace_log.
  destruct (String.eqb (loggerLevel env) "trace").
  - rewrite run_tell, run_ret, send_and_return.
    unfold sent_outcome, sent_frames.
    rewrite writable_after_tag, readyState_after_tag. reflexivity.
  - rewrite run_ret, run_ret, send_and_return.
    unfold sent_outcome, sent_frames.
    rewrite writable_after_tag, readyState_after_tag. reflexivity.
Qed.

(** X1.  Without a binary tag, [sendMessage] fails on the transport
    only.  On an open transport it hands [ws.send] one frame, the text
    [tag,JSON] of the payload, and resolves with the tag it used; on a
    transport that is not open it is rejected with the error of
    [ws.send] and no frame goes out.  The tag is chosen either way. *)
Theorem sendMessage_plain (env : Env) (s : State) json tag longTag :
  let r := sendMessage env (mkSendOptions json None tag longTag) s in
  let t := chosen_tag env tag longTag s in
  outcome_of r = (if writable s then Ret t else Thrown (not_open (readyState s)))
  /\ List.filter is_WsSend (effects_of r)
     = (if writable s
        then [WsSend (DStr (t +:+ "," +:+ JSON_stringify env json))] else [])
  /\ state_of r = after_tag tag s.
Proof.
  cbv zeta. rewrite sendMessage_plain_run.
  unfold outcome_of, effects_of, state_of. cbn [fst snd].
  split; [reflexivity |]. split; [| reflexivity].
  rewrite !List.filter_app, filter_trace_log, filter_sent_frames.
  destruct (tag_supplied tag); reflexivity.
Qed.

(** X2.  With a binary tag and a payload that is not a [BinaryNode],
    [sendMessage] is rejected with the 400 error that names the type of
    the payload, whether or not the keys are there, and [ws.send] is not
    called. *)
Theorem sendMessage_invalid_binary (env : Env) (s : State) json binaryTag tag longTag :
  instanceof_BinaryNode json = false ->
  let r := sendMessage env (mkSendOptions json (Some binaryTag) tag longTag) s in
  outcome_of r
  = Thrown (EBoom (mkBoom ("Invalid binary message of type " +:+ dquote +:+ typeof json
                             +:+ dquote +:+ ". Must be BinaryNode") (StLit 400) None))
  /\ List.filter is_WsSend (effects_of r) = []
  /\ state_of r = after_tag tag s.
Proof.
  intros Hnode. cbv zeta. unfold sendMessage. rewrite run_bind, tag_or_generate_run.
  cbn [sm_tag sm_longTag sm_binaryTag sm_json]. rewrite Hnode.
  unfold when.
  destruct (tag_supplied tag); destruct (String.eqb (loggerLevel env) "trace");
    repeat split; reflexivity.
Qed.

Lemma sendMessage_invalid_binary_witness :
  instanceof_BinaryNode (JArr [JStr "admin"; JStr "test"]) = false
  /\ (let r := sendMessage sampleEnv
                 (mkSendOptions (JArr [JStr "admin"; JStr "test"]) (Some [10; 128]) None false)
                 (state_of (modify (set_authInfo (Some (mkAuthInfo [] []))) (makeSocket sampleEnv))) in
      outcome_of r
      = Thrown (EBoom (mkBoom ("Invalid binary message of type " +:+ dquote
                                 +:+ typeof (JArr [JStr "admin"; JStr "test"])
                                 +:+ dquote +:+ ". Must be BinaryNode") (StLit 400) None))
      /\ List.filter is_WsSend (effects_of r) = []
      /\ state_of r
         = after_tag None
             (state_of (modify (set_authInfo (Some (mkAuthInfo [] []))) (makeSocket sampleEnv)))).
Proof.
  split; [reflexivity |].
  apply (sendMessage_invalid_binary sampleEnv). reflexivity.
Defined.

Lemma authInfo_after_tag tag s : authInfo (after_tag tag s) = authInfo s.
Proof. unfold after_tag. destruct (tag_supplied tag); reflexivity. Qed.

Lemma sendMessage_binary_run (env : Env) (s : State) header attributes data binaryTag
    tag longTag (keys : AuthInfo) :
  authInfo s = Some keys ->
  sendMessage env
    (mkSendOptions (JNode header attributes data) (Some binaryTag) tag longTag) s
  = (sent_outcome s (chosen_tag env tag longTag s), after_tag tag s,
     (if tag_supplied tag then [] else [TagGenerated (chosen_tag env tag longTag s)])
     ++ trace_log env
     ++ sent_frames s
          (DBuf (Buffer_from_string (chosen_tag env tag longTag s +:+ ",")
                   ++ Buffer_from_array binaryTag
                   ++ hmacSign env
                        (aesEncrypt env
                           (toBuffer env (JNode header attributes data))
                           (encKey keys))
                        (macKey keys)
                   ++ aesEncrypt env
                        (toBuffer env (JNode header attributes data))
                        (encKey keys)))).
Proof.
  intros Hkeys. unfold sendMessage. rewrite run_bind, tag_or_generate_run.
  cbn [sm_tag sm_longTag sm_binaryTag sm_json instanceof_BinaryNode negb].
  assert (authInfo (after_tag tag s) = Some keys) as Hkeys'.
  { rewrite authInfo_after_tag. exact Hkeys. }
  unfold when, trace_log.
  destruct (String.eqb (loggerLevel env) "trace").
  - rewrite run_tell, run_bind, run_get, Hkeys'.
    change ((mret ?d : M Data) (after_tag tag s)) with (Ret d, after_tag tag s, @nil effect).
    cbv beta iota. rewrite send_and_return.
    unfold sent_outcome, sent_frames.
    rewrite writable_after_tag, readyState_after_tag. reflexivity.
  - rewrite run_ret, run_bind, run_get, Hkeys'.
    change ((mret ?d : M Data) (after_tag tag s)) with (Ret d, after_tag tag s, @nil effect).
    cbv beta iota. rewrite send_and_return.
    unfold sent_outcome, sent_frames.
    rewrite writable_after_tag, readyState_after_tag. reflexivity.
Qed.

(** X3.  With a binary tag, a [BinaryNode] and the keys, [sendMessage]
    on an open transport hands [ws.send] one frame: the bytes of
    [tag,], the bytes of the binary tag, the signature and the
    ciphertext, in this order, where the ciphertext is the encoded node
    encrypted with [encKey] and the signature is taken over the
    ciphertext with [macKey]; it resolves with the tag.  On a transport
    that is not open it is rejected with the error of [ws.send] and no
    frame goes out. *)
Theorem sendMessage_binary (env : Env) (s : State) header attributes data binaryTag
    tag longTag (keys : AuthInfo) :
  authInfo s = Some keys ->
  let json := JNode header attributes data in
  let r := sendMessage env (mkSendOptions json (Some binaryTag) tag longTag) s in
  let t := chosen_tag env tag longTag s in
  let buff := aesEncrypt env (toBuffer env json) (encKey keys) in
  outcome_of r = (if writable s then Ret t else Thrown (not_open (readyState s)))
  /\ List.filter is_WsSend (effects_of r)
     = (if writable s
        then [WsSend (DBuf (Buffer_from_string (t +:+ ",") ++ Buffer_from_array binaryTag
                              ++ hmacSign env buff (macKey keys) ++ buff))]
        else [])
  /\ state_of r = after_tag tag s.
Proof.
  intros Hkeys. cbv zeta.
  rewrite (sendMessage_binary_run env s header attributes data binaryTag tag longTag
             keys Hkeys).
  unfold outcome_of, effects_of, state_of. cbn [fst snd].
  split; [reflexivity |]. split; [| reflexivity].
  rewrite !List.filter_app, filter_trace_log, filter_sent_frames.
  destruct (tag_supplied tag); reflexivity.
Qed.

Lemma sendMessage_binary_witness :
  let s := fst (run sampleEnv [WsOpened; UpdateKeys (mkAuthInfo [] [])]
                  (makeSocket sampleEnv)) in
  authInfo s = Some (mkAuthInfo [] [])
  /\ writable s = true
  /\ outcome_of (sendMessage sampleEnv
                   (mkSendOptions (JNode "action" [("type", "set")] (JArr []))
                      (Some [10; 128]) None false) s)
     = Ret "123.--0"
  /\ outcome_of (sendMessage sampleEnv
                   (mkSendOptions (JNode "action" [("type", "set")] (JArr []))
                      (Some [10; 128]) None false)
                   (state_of (end_ None s)))
     = Thrown (EError "WebSocket is not open: readyState 2 (CLOSING)").
Proof.
  cbv zeta. split; [reflexivity |]. split; [reflexivity |]. split.
  - exact (proj1 (sendMessage_binary sampleEnv
                    (fst (run sampleEnv [WsOpened; UpdateKeys (mkAuthInfo [] [])]
                            (makeSocket sampleEnv)))
                    "action" [("type", "set")] (JArr [])
                    [10; 128] None false (mkAuthInfo [] []) eq_refl)).
  - exact (proj1 (sendMessage_binary sampleEnv
                    (state_of (end_ None
                       (fst (run sampleEnv [WsOpened; UpdateKeys (mkAuthInfo [] [])]
                               (makeSocket sampleEnv)))))
                    "action" [("type", "set")] (JArr [])
                    [10; 128] None false (mkAuthInfo [] []) eq_refl)).
Defined.

(** X4.  A tag the caller supplies is used as it is and leaves the epoch
    alone; without one -- also when the tag is the empty string -- every
    call of [sendMessage] generates a tag from the current epoch and
    consumes that epoch, even when the call is then rejected before the
    write. *)
Theorem sendMessage_consumes_epoch (env : Env) (s : State) (o : SocketSendMessageOptions) :
  let r := sendMessage env o s in
  epoch (state_of r)
  = (if tag_supplied (sm_tag o) then epoch s else epoch s + 1)%N
  /\ tags_of (effects_of r)
     = (if tag_supplied (sm_tag o) then []
        else [chosen_tag env (sm_tag o) (sm_longTag o) s])
  /\ (tag_supplied (sm_tag o) = false ->
      tag_epoch (chosen_tag env (sm_tag o) (sm_longTag o) s) = Some (epoch s)).
Proof.
  cbv zeta. split; [| split].
  - unfold sendMessage. rewrite run_bind, tag_or_generate_run.
    unfold sendRawMessage, when, after_tag.
    destruct (tag_supplied (sm_tag o));
      destruct (String.eqb (loggerLevel env) "trace");
      destruct (sm_binaryTag o); try destruct (instanceof_BinaryNode (sm_json o));
      cbv beta iota zeta delta [mbind M_bind mret M_ret get_state tell throw negb];
      cbn [authInfo set_epoch]; try destruct (authInfo s);
      cbn [readyState set_epoch];
      destruct (ReadyState_eqb (readyState s) OPEN); reflexivity.
  - unfold sendMessage. rewrite run_bind, tag_or_generate_run.
    unfold sendRawMessage, when, after_tag.
    destruct (tag_supplied (sm_tag o));
      destruct (String.eqb (loggerLevel env) "trace");
      destruct (sm_binaryTag o); try destruct (instanceof_BinaryNode (sm_json o));
      cbv beta iota zeta delta [mbind M_bind mret M_ret get_state tell throw negb];
      cbn [authInfo set_epoch]; try destruct (authInfo s);
      cbn [readyState set_epoch];
      destruct (ReadyState_eqb (readyState s) OPEN); reflexivity.
  - intros Hno. unfold chosen_tag. rewrite Hno. apply tag_epoch_tag.
Qed.

(** *** Teardown *)

Lemma ended_ended (s : State) : ended (ended s) = ended s.
Proof.
  unfold ended.
  generalize "ws-close". generalize "close" "error" "open" "message".
  intros c e o m w.
  destruct s as [ep ld au pi pl rs wl se ti wa op qu ni]. exec.
  f_equal.
  - destruct rs; reflexivity.
  - apply map_eq. intros i. rewrite !lookup_delete.
    repeat match goal with
           | |- context [decide ?P] => destruct (decide P)
           end; reflexivity.
  - apply set_eq. intros x. rewrite !elem_of_difference. tauto.
Qed.

Lemma ended_listeners (s : State) (event : string) :
  event = "close" \/ event = "error" \/ event = "open" \/ event = "message"
  \/ event = "ws-close" ->
  listeners Ws event (ended s) = [].
Proof.
  unfold listeners, ended.
  generalize "ws-close". generalize "close" "error" "open" "message".
  intros c e o m w H.
  destruct s as [ep ld au pi pl rs wl se ti wa op qu ni]. exec.
  rewrite !lookup_delete.
  destruct H as [-> | [-> | [-> | [-> | ->]]]];
    repeat match goal with
           | |- context [decide ?P] => destruct (decide P)
           end; try reflexivity; congruence.
Qed.

(** X5.  [end] calls [ws.close()] when the transport is connecting or
    open and not otherwise, and it is idempotent: a further [end],
    whatever its reason, leaves the state as it is and does nothing but
    log. *)
Theorem end__idempotent (error error' : option exn) (s : State) :
  let first := end_ error s in
  let second := end_ error' (state_of first) in
  List.filter is_WsClose (effects_of first)
  = (if transport_live s then [WsClose] else [])
  /\ state_of second = state_of first
  /\ effects_of second = [Log Debug "connection closed"].
Proof.
  cbv zeta. rewrite !end__run. unfold effects_of, state_of. cbn [fst snd].
  rewrite ended_ended. split; [| split; [reflexivity |]].
  - unfold end_effects, transport_live. cbn [List.filter is_WsClose].
    rewrite List.filter_app.
    replace (List.filter is_WsClose
               (map (fun l => Invoke Ws "ws-close" l (ArgError error))
                  (listeners Ws "ws-close" s))) with (@nil effect).
    + destruct (readyState s); reflexivity.
    + induction (listeners Ws "ws-close" s) as [|l ls IH]; [reflexivity | exact IH].
  - unfold end_effects. rewrite ended_no_listeners.
    unfold ended. destruct s as [ep ld au pi pl rs wl se ti wa op qu ni].
    destruct rs; reflexivity.
Qed.

Lemma emit_nobody (invoke : listener -> arg -> M unit) em event a (s : State) :
  listeners em event s = [] ->
  emit invoke em event a s = (Ret false, s, []).
Proof.
  intros H. unfold emit. cbv beta iota zeta delta [mbind M_bind get_state].
  rewrite H. reflexivity.
Qed.

Lemma listeners_set_readyState em event rs (s : State) :
  listeners em event (set_readyState rs s) = listeners em event s.
Proof. destruct em; reflexivity. Qed.

Lemma task_emit_nobody (env : Env) event a (s : State) :
  listeners Ws event s = [] ->
  task (ws_emit env event a ;; mret tt) s = (Ret tt, s, []).
Proof.
  intros H. unfold task, try_catch, ws_emit.
  rewrite run_bind, emit_nobody by exact H. reflexivity.
Qed.

Lemma step_deaf (env : Env) (a : action) (s : State) :
  is_open_frame_or_close a = true ->
  listeners Ws "open" s = [] -> listeners Ws "message" s = [] ->
  listeners Ws "close" s = [] ->
  effects_of (step env a s) = []
  /\ (forall em event, listeners em event (state_of (step env a s)) = listeners em event s)
  /\ waits (state_of (step env a s)) = waits s
  /\ timers (state_of (step env a s)) = timers s.
Proof.
  intros Ha Ho Hm Hc.
  destruct a; try discriminate Ha; unfold step.
  - rewrite run_get. destruct (ReadyState_eqb (readyState s) CONNECTING).
    + rewrite run_modify, task_emit_nobody
        by (rewrite listeners_set_readyState; exact Ho).
      repeat split.
    + repeat split.
  - rewrite run_get. destruct (ReadyState_eqb (readyState s) OPEN).
    + rewrite task_emit_nobody by exact Hm. repeat split.
    + repeat split.
  - rewrite run_modify, task_emit_nobody
      by (rewrite listeners_set_readyState; exact Hc).
    repeat split.
Qed.

Lemma run_deaf (env : Env) (acts : list action) (s : State) :
  forallb is_open_frame_or_close acts = true ->
  listeners Ws "open" s = [] -> listeners Ws "message" s = [] ->
  listeners Ws "close" s = [] ->
  snd (run env acts s) = []
  /\ waits (fst (run env acts s)) = waits s
  /\ timers (fst (run env acts s)) = timers s.
Proof.
  revert s. induction acts as [|a acts IH]; intros s Hacts Ho Hm Hc.
  - repeat split.
  - cbn [forallb] in Hacts. apply andb_prop in Hacts as [Ha Hacts].
    destruct (step_deaf env a s Ha Ho Hm Hc) as (He & Hl & Hw & Ht).
    cbn [run fst snd].
    destruct (IH (state_of (step env a s)) Hacts) as (He' & Hw' & Ht');
      try (rewrite Hl; assumption).
    rewrite He, He', Hw', Ht'. repeat split; assumption.
Qed.

(** X6.  Once [end] has run, the socket no longer hears the transport:
    when the transport then opens, delivers frames or closes, no listener
    is called and nothing is sent or logged.  In particular the close
    that [end] itself requested does not reject the calls of
    [waitForMessage] that are still pending: their records stay as they
    were, and only the timers [end] leaves armed can settle them. *)
Theorem ended_socket_is_deaf (env : Env) (error : option exn) (s : State)
    (acts : list action) :
  forallb is_open_frame_or_close acts = true ->
  let r := run env acts (state_of (end_ error s)) in
  snd r = []
  /\ waits (fst r) = waits s
  /\ timers (fst r) = timers s ∖ {[KeepAliveReq]} ∖ {[PhoneCheckInterval]}.
Proof.
  intros Hacts. cbv zeta. rewrite end__run.
  change (state_of (Ret tt, ended s, end_effects error s)) with (ended s).
  destruct (run_deaf env acts (ended s) Hacts) as (He & Hw & Ht);
    try (apply ended_listeners; tauto).
  rewrite He, Hw, Ht. destruct s; repeat split.
Qed.

Lemma ended_socket_is_deaf_witness :
  forallb is_open_frame_or_close [WsMessage (DStr "3.--0,200"); WsClosed 1006] = true
  /\ (let s := fst (run sampleEnv [WsOpened; WaitForMessage "3.--0" false None]
                      (makeSocket sampleEnv)) in
      let r := run sampleEnv [WsMessage (DStr "3.--0,200"); WsClosed 1006]
                 (state_of (end_ None s)) in
      snd r = []
      /\ waits (fst r) = waits s
      /\ timers (fst r) = timers s ∖ {[KeepAliveReq]} ∖ {[PhoneCheckInterval]}).
Proof.
  split; [reflexivity |].
  apply (ended_socket_is_deaf sampleEnv None _
           [WsMessage (DStr "3.--0,200"); WsClosed 1006]).
  reflexivity.
Defined.

(** *** The tag generator *)

Lemma counted_unit s : counted s [] s.
Proof.
  split; [cbn; lia | intros i tag H; discriminate H].
Qed.

Lemma tags_of_app_length t1 t2 :
  length (tags_of (t1 ++ t2)) = (length (tags_of t1) + length (tags_of t2))%nat.
Proof. rewrite tags_of_app. apply length_app. Qed.

Lemma counted_comp s t1 s1 t2 s2 :
  counted s t1 s1 -> counted s1 t2 s2 -> counted s (t1 ++ t2) s2.
Proof.
  intros [E1 T1] [E2 T2]. split.
  - rewrite tags_of_app_length, E2, E1. lia.
  - intros i tag. rewrite tags_of_app. intros H.
    apply lookup_app_Some in H as [H | [Hi H]].
    + apply T1, H.
    + rewrite (T2 _ _ H), E1. f_equal. lia.
Qed.

Lemma counted_same s s' :
  epoch s' = epoch s -> authInfo s' = authInfo s -> lastDateRecv s' = lastDateRecv s ->
  counted s [] s'.
Proof.
  intros E _ _. split; [cbn; lia | intros i tag H; discriminate H].
Qed.

Lemma counted_plain s e : plain e = true -> counted s [e] s.
Proof.
  intros H. destruct e; try discriminate H;
    (split; [cbn; lia | intros i tag Hi; discriminate Hi]).
Qed.

Lemma counted_generate s tag :
  tag_epoch tag = Some (epoch s) ->
  counted s [TagGenerated tag] (set_epoch (epoch s + 1)%N s).
Proof.
  intros H. split; [destruct s; cbn; lia |].
  intros [|i] tag' Hi; [| discriminate Hi].
  injection Hi as <-. rewrite H. f_equal. lia.
Qed.

Lemma counted_date s v : counted s [] (set_lastDateRecv v s).
Proof. split; [destruct s; cbn; lia | intros i tag H; discriminate H]. Qed.

Lemma counted_decode s message : counted s [DecodeCall message] s.
Proof. split; [cbn; lia | intros i tag H; discriminate H]. Qed.

Lemma counted_updateKeys s v : counted s [] (set_authInfo v s).
Proof. split; [destruct s; cbn; lia | intros i tag H; discriminate H]. Qed.

Lemma run_counted (env : Env) (acts : list action) (s : State) :
  counted s (snd (run env acts s)) (fst (run env acts s)).
Proof.
  revert s. induction acts as [|a acts IH]; intros s; [apply counted_unit |].
  cbn [run fst snd]. eapply counted_comp; [| apply IH].
  apply (step_sat env counted counted_unit counted_comp counted_same counted_plain
           counted_generate counted_date counted_decode counted_updateKeys a).
Qed.


(** *** Relations between the states of a computation *)

Create HintDb leads.

Lemma state_of_end_ (error : option exn) (s : State) :
  state_of (end_ error s) = ended s.
Proof. rewrite end__run. reflexivity. Qed.

Section Leads.

Context (env : Env).
Context (R : State -> State -> Prop).
Context (R_refl : forall s, R s s).
Context (R_trans : forall s1 s2 s3, R s1 s2 -> R s2 s3 -> R s1 s3).
Context (R_epoch : forall s n, R s (set_epoch n s)).
Context (R_date : forall s v, R s (set_lastDateRecv v s)).
Context (R_auth : forall s v, R s (set_authInfo v s)).
Context (R_ready : forall s rs, R s (set_readyState rs s)).
Context (R_on : forall s em event l,
  installs env s em event l -> R s (state_of (on em event l s))).
Context (R_off : forall s em event l,
  removes s l -> R s (state_of (off em event l s))).
Context (R_set_timer : forall s t,
  t <> PhoneCheckInterval -> R s (state_of (set_timer t s))).
Context (R_clear_timer : forall s t,
  t <> PhoneCheckInterval -> R s (state_of (clear_timer t s))).
Context (R_new_wait : forall s tag r,
  R s (set_waits (<[nextId s := new_wait tag r]> (waits s))
         (set_nextId (S (nextId s)) s))).
Context (R_wait_update : forall s q f,
  wait_update f -> R s (state_of (update_wait q f s))).
Context (R_opens : forall s o, R s (set_opens o s)).
Context (R_queries : forall s c, R s (set_queries c s)).
Context (R_nextId : forall s, R s (set_nextId (S (nextId s)) s)).
Context (R_start : forall s, R s (state_of (startPhoneCheckInterval s))).
Context (R_clear : forall s, R s (state_of (clearPhoneCheckInterval s))).
Context (R_ended : forall s, R s (ended s)).

Lemma leads_ret {A} (a : A) : leads R (mret a).
Proof. intros s. apply R_refl. Qed.

Lemma leads_throw {A} (e : exn) : leads R (throw e : M A).
Proof. intros s. apply R_refl. Qed.

Lemma leads_get : leads R get_state.
Proof. intros s. apply R_refl. Qed.

Lemma leads_tell (e : effect) : leads R (tell e).
Proof. intros s. apply R_refl. Qed.

Lemma leads_bind {A B} (m : M A) (f : A -> M B) :
  leads R m -> (forall a, leads R (f a)) -> leads R (m ≫= f).
Proof.
  intros Hm Hf s. rewrite run_bind.
  pose proof (Hm s) as H. destruct (m s) as [[[a|e] s1] t1]; simpl in *.
  - pose proof (Hf a s1) as H'. destruct (f a s1) as [[r s2] t2]; simpl in *.
    eapply R_trans; eassumption.
  - exact H.
Qed.

Lemma leads_try_catch {A} (m : M A) (h : exn -> M A) :
  leads R m -> (forall e, leads R (h e)) -> leads R (try_catch m h).
Proof.
  intros Hm Hh s. unfold try_catch.
  pose proof (Hm s) as H. destruct (m s) as [[[a|e] s1] t1]; simpl in *.
  - exact H.
  - pose proof (Hh e s1) as H'. destruct (h e s1) as [[r s2] t2]; simpl in *.
    eapply R_trans; eassumption.
Qed.

Lemma leads_when (b : bool) (m : M unit) : leads R m -> leads R (when b m).
Proof. intros Hm. destruct b; [exact Hm | apply leads_ret]. Qed.

Lemma leads_for_each {A} (l : list A) (f : A -> M unit) :
  (forall x, leads R (f x)) -> leads R (for_each l f).
Proof.
  intros Hf. induction l as [|x l IH]; simpl.
  - apply leads_ret.
  - apply leads_bind; [apply Hf | intros _; exact IH].
Qed.

Lemma leads_emit (invoke : listener -> arg -> M unit) em event a :
  (forall l, leads R (invoke l a)) -> leads R (emit invoke em event a).
Proof.
  intros Hinv. unfold emit.
  apply leads_bind; [apply leads_get | intros s].
  apply leads_bind; [| intros _; apply leads_ret].
  apply leads_for_each. intros l.
  apply leads_bind; [apply leads_tell | intros _; apply Hinv].
Qed.

Lemma on_leads em event l :
  (forall s, installs env s em event l) -> leads R (on em event l).
Proof. intros H s. apply R_on, H. Qed.

Lemma off_leads em event l : (forall s, removes s l) -> leads R (off em event l).
Proof. intros H s. apply R_off, H. Qed.

Lemma set_timer_leads t : t <> PhoneCheckInterval -> leads R (set_timer t).
Proof. intros H s. apply R_set_timer, H. Qed.

Lemma clear_timer_leads t : t <> PhoneCheckInterval -> leads R (clear_timer t).
Proof. intros H s. apply R_clear_timer, H. Qed.

Lemma update_wait_leads q f : wait_update f -> leads R (update_wait q f).
Proof. intros H s. apply R_wait_update, H. Qed.

Lemma update_open_leads w f : leads R (update_open w f).
Proof. intros s. apply R_opens. Qed.

Lemma startPhoneCheckInterval_leads : leads R startPhoneCheckInterval.
Proof. intros s. apply R_start. Qed.

Lemma clearPhoneCheckInterval_leads : leads R clearPhoneCheckInterval.
Proof. intros s. apply R_clear. Qed.

Lemma end__leads error : leads R (end_ error).
Proof. intros s. rewrite state_of_end_. apply R_ended. Qed.

#[local] Hint Resolve leads_ret leads_throw leads_get leads_tell leads_emit
  update_open_leads
  startPhoneCheckInterval_leads clearPhoneCheckInterval_leads end__leads : leads.

Ltac leads_modify :=
  let s := fresh "s" in
  intros s; cbv beta iota delta [modify state_of fst snd];
  first [ apply R_epoch | apply R_date | apply R_auth | apply R_ready
        | apply R_opens | apply R_queries ].

Ltac leads_step :=
  first
    [ assumption
    | solve [auto with leads]
    | apply leads_when
    | apply on_leads; intros ?; solve [constructor]
    | apply off_leads; intros ?; solve [constructor]
    | apply update_wait_leads; solve [constructor]
    | apply set_timer_leads; discriminate
    | apply clear_timer_leads; discriminate
    | apply leads_bind; [| intros ?]
    | apply leads_try_catch; [| intros ?]
    | match goal with
      | |- leads _ (match ?x with _ => _ end) => destruct x
      end
    | solve [leads_modify] ].

Ltac leads_go := repeat leads_step.

Lemma generateMessageTag_leads longTag : leads R (generateMessageTag env longTag).
Proof. unfold generateMessageTag. leads_go. Qed.

#[local] Hint Resolve generateMessageTag_leads : leads.

Lemma tag_or_generate_leads tag longTag : leads R (tag_or_generate env tag longTag).
Proof. unfold tag_or_generate. leads_go. Qed.

#[local] Hint Resolve tag_or_generate_leads : leads.

Lemma sendMessage_leads o : leads R (sendMessage env o).
Proof. unfold sendMessage, sendRawMessage. leads_go. Qed.

#[local] Hint Resolve sendMessage_leads : leads.

Lemma onRecv_leads q json : leads R (onRecv q json).
Proof. unfold onRecv. leads_go. Qed.

Lemma onErr_leads q err : leads R (onErr q err).
Proof. unfold onErr. leads_go. Qed.

#[local] Hint Resolve onRecv_leads onErr_leads : leads.

Lemma exitQueryListener_leads q json : leads R (exitQueryListener env q json).
Proof. unfold exitQueryListener. leads_go. Qed.

Lemma exitQueryTimeout_leads q : leads R (exitQueryTimeout q).
Proof. unfold exitQueryTimeout. leads_go. Qed.

Lemma cancelPhoneChecker_leads q : leads R (cancelPhoneChecker env q).
Proof. unfold cancelPhoneChecker. leads_go. Qed.

Lemma phoneCheckTick_leads : leads R (phoneCheckTick env).
Proof. unfold phoneCheckTick, sendAdminTest. leads_go. Qed.

Lemma waitTimeout_leads q : leads R (waitTimeout q).
Proof. unfold waitTimeout. leads_go. Qed.

#[local] Hint Resolve exitQueryListener_leads exitQueryTimeout_leads
  cancelPhoneChecker_leads phoneCheckTick_leads waitTimeout_leads : leads.

Lemma leads_with_bind (P : State -> Prop) {A B} (m : M A) (f : A -> M B) :
  leads_with R P m -> (forall a, leads_with R P (f a)) -> leads_with R P (m ≫= f).
Proof.
  intros Hm Hf s Hs. rewrite run_bind.
  destruct (Hm s Hs) as [H1 H2]. destruct (m s) as [[[a|e] s1] t1]; simpl in *.
  - destruct (Hf a s1 H2) as [H3 H4].
    destruct (f a s1) as [[r s2] t2]; simpl in *.
    split; [eapply R_trans; eassumption | exact H4].
  - split; assumption.
Qed.

Lemma leads_with_leads (P : State -> Prop) {A} (m : M A) :
  leads R m -> (forall s, P s -> P (state_of (m s))) -> leads_with R P m.
Proof. intros Hm HP s Hs. split; [apply Hm | apply HP, Hs]. Qed.

Lemma leads_with_when (P : State -> Prop) (b : bool) (m : M unit) :
  leads_with R P m -> leads_with R P (when b m).
Proof.
  intros Hm. destruct b; [exact Hm |]. intros s Hs. split; [apply R_refl | exact Hs].
Qed.

Lemma waits_for_same q tag (s s' : State) :
  waits s' = waits s -> waits_for q tag s -> waits_for q tag s'.
Proof. unfold waits_for. intros ->. tauto. Qed.

Lemma wait_update_tag f w : wait_update f -> w_tag (f w) = w_tag w.
Proof.
  intros Hf. destruct Hf; try reflexivity.
  unfold settle_wait. destruct (w_settled w); reflexivity.
Qed.

Lemma waits_for_update q tag q' f (s : State) :
  wait_update f -> waits_for q tag s -> waits_for q tag (state_of (update_wait q' f s)).
Proof.
  intros Hf (w & Hw & Ht). destruct s as [ep ld au pi pl rs wl se ti wa op qu ni].
  unfold waits_for in *.
  cbv beta iota delta [waits set_waits update_wait modify state_of fst snd] in *.
  rewrite lookup_alter. destruct (decide (q' = q)) as [-> |]; [| eauto].
  rewrite Hw. exists (f w). split; [reflexivity |].
  rewrite wait_update_tag; assumption.
Qed.

Lemma update_wait_leads_with q tag q' f :
  wait_update f -> leads_with R (waits_for q tag) (update_wait q' f).
Proof.
  intros Hf. apply leads_with_leads; [apply update_wait_leads, Hf |].
  intros s. apply waits_for_update, Hf.
Qed.

Lemma on_leads_with q tag em event l :
  (forall s, waits_for q tag s -> installs env s em event l) ->
  leads_with R (waits_for q tag) (on em event l).
Proof.
  intros H s Hs. split; [apply R_on, H, Hs |].
  revert Hs. apply waits_for_same. destruct s, em; reflexivity.
Qed.

Lemma set_timer_leads_with q tag t :
  t <> PhoneCheckInterval -> leads_with R (waits_for q tag) (set_timer t).
Proof.
  intros Ht. apply leads_with_leads; [apply set_timer_leads, Ht |].
  intros s. apply waits_for_same. destruct s; reflexivity.
Qed.

Lemma startPhoneCheckInterval_keeps_waits (s : State) :
  waits (state_of (startPhoneCheckInterval s)) = waits s.
Proof.
  unfold startPhoneCheckInterval.
  destruct s as [ep ld au pi pl rs wl se ti wa op qu ni]. destruct pi; reflexivity.
Qed.

Lemma waitForMessage_leads tag r t : leads R (waitForMessage env tag r t).
Proof.
  intros s. unfold waitForMessage. rewrite run_get, !run_modify.
  eapply R_trans; [apply (R_new_wait s tag r) |].
  match goal with
  | |- R ?s1 (state_of (?m _)) =>
      assert (leads_with R (waits_for (nextId s) tag) m) as H;
      [| apply (H s1)]
  end.
  - unfold promiseTimeout, exitQueryIfResponseNotExpected.
    repeat first
      [ apply leads_with_leads;
          [solve [auto with leads]
          | intros ?; apply waits_for_same;
            solve [reflexivity | apply startPhoneCheckInterval_keeps_waits] ]
      | apply leads_with_when
      | apply update_wait_leads_with; solve [constructor]
      | apply set_timer_leads_with; discriminate
      | apply on_leads_with; intros ? (w & Hw & <-); solve [econstructor; eassumption]
      | apply on_leads_with; intros ? _; solve [constructor]
      | apply leads_with_bind; [| intros ?] ].
  - eexists. split.
    + destruct s as [ep ld au pi pl rs wl se ti wa op qu ni].
      cbv beta iota delta [waits set_waits set_nextId nextId].
      apply lookup_insert_eq.
    + reflexivity.
Qed.

Lemma wait_is_same q w (s s' : State) :
  waits s' = waits s -> wait_is q w s -> wait_is q w s'.
Proof. unfold wait_is. intros ->. tauto. Qed.

Lemma off_keeps_waits em event l (s : State) :
  waits (state_of (off em event l s)) = waits s.
Proof.
  unfold off. cbv beta iota delta [modify state_of fst snd].
  destruct (remove_last _ _); destruct s, em; reflexivity.
Qed.

Lemma clearPhoneCheckInterval_keeps_waits (s : State) :
  waits (state_of (clearPhoneCheckInterval s)) = waits s.
Proof.
  unfold clearPhoneCheckInterval.
  destruct s as [ep ld au pi pl rs wl se ti wa op qu ni]. exec.
  destruct (pl - 1 <=? 0); reflexivity.
Qed.

Lemma off_leads_with q w em event l :
  (forall s, wait_is q w s -> removes s l) ->
  leads_with R (wait_is q w) (off em event l).
Proof.
  intros H s Hs. split; [apply R_off, H, Hs |].
  revert Hs. apply wait_is_same, off_keeps_waits.
Qed.

Lemma off_var_leads_with q w em event f :
  (forall l s, f = Some l -> wait_is q w s -> removes s l) ->
  leads_with R (wait_is q w) (off_var em event f).
Proof.
  intros H. destruct f as [l|]; cbn [off_var].
  - apply off_leads_with. intros s. apply H. reflexivity.
  - intros s Hs. split; [apply R_refl | exact Hs].
Qed.

Lemma leads_with_then (P : State -> Prop) {A B} (m : M A) (k : A -> M B) :
  leads_with R P m ->
  (forall a s, P s -> R s (state_of (k a s))) ->
  forall s, P s -> R s (state_of ((m ≫= k) s)).
Proof.
  intros Hm Hk s Hs. rewrite run_bind.
  destruct (Hm s Hs) as [H1 H2]. destruct (m s) as [[[a|e] s1] t1]; simpl in *.
  - pose proof (Hk a s1 H2) as H3.
    destruct (k a s1) as [[r s2] t2]; simpl in *.
    eapply R_trans; eassumption.
  - exact H1.
Qed.

Lemma waitForMessage_finally_leads q : leads R (waitForMessage_finally env q).
Proof.
  intros s. unfold waitForMessage_finally. rewrite run_get.
  destruct (waits s !! q) as [w|] eqn:Hw; [| apply R_refl].
  revert s Hw. change (forall s, wait_is q w s -> R s (state_of
    ((when (w_requiresPhoneConnection w) clearPhoneCheckInterval ;;
      when (w_cancelPhoneChecker w) (cancelPhoneChecker env q) ;;
      off_var SocketEvents ("TAG:" +:+ w_tag w) (w_onRecv w) ;;
      off_var Ws "close" (w_onErr w) ;;
      off_var Ws "error" (w_onErr w) ;;
      update_wait q (set_w_finished true)) s))).
  unfold cancelPhoneChecker.
  repeat (apply leads_with_then; [| intros _]).
  - apply leads_with_when, leads_with_leads; [auto with leads |].
    intros s. apply wait_is_same, clearPhoneCheckInterval_keeps_waits.
  - apply leads_with_when, leads_with_bind; [| intros _].
    + apply off_leads_with. intros s _. constructor.
    + apply leads_with_leads; [apply clear_timer_leads; discriminate |].
      intros s. apply wait_is_same. destruct s; reflexivity.
  - apply off_var_leads_with. intros l s Hl Hs. eapply removes_onRecv; eassumption.
  - apply off_var_leads_with. intros l s Hl Hs. eapply removes_onErr; eassumption.
  - apply off_var_leads_with. intros l s Hl Hs. eapply removes_onErr; eassumption.
  - intros s _. apply update_wait_leads. constructor.
Qed.

Lemma phoneConnectionListener_leads json : leads R (phoneConnectionListener json).
Proof. unfold phoneConnectionListener. leads_go. Qed.

Lemma cmdDisconnectListener_leads json : leads R (cmdDisconnectListener json).
Proof. unfold cmdDisconnectListener. leads_go. Qed.

#[local] Hint Resolve waitForMessage_leads waitForMessage_finally_leads
  phoneConnectionListener_leads cmdDisconnectListener_leads : leads.

Lemma invoke_socketEvents_leads l a : leads R (invoke_socketEvents env l a).
Proof. unfold invoke_socketEvents. leads_go. Qed.

#[local] Hint Resolve invoke_socketEvents_leads : leads.

Lemma socketEvents_emit_leads event a : leads R (socketEvents_emit env event a).
Proof. unfold socketEvents_emit. leads_go. Qed.

#[local] Hint Resolve socketEvents_emit_leads : leads.

Lemma emit_keys_leads l0 l2 l1 json keys any :
  leads R (emit_keys env l0 l2 l1 json keys any).
Proof.
  revert any. induction keys as [|key keys IH]; intros any; simpl; leads_go.
Qed.

#[local] Hint Resolve emit_keys_leads : leads.

Lemma dispatch_callbacks_leads json t0 : leads R (dispatch_callbacks env json t0).
Proof. unfold dispatch_callbacks. leads_go. Qed.

Lemma dispatch_leads messageTag json : leads R (dispatch env messageTag json).
Proof. unfold dispatch. leads_go. Qed.

Lemma query_response_leads json expect200 response :
  leads R (query_response env json expect200 response).
Proof. unfold query_response, response_status. leads_go. Qed.

#[local] Hint Resolve dispatch_leads query_response_leads : leads.

Lemma query_leads o : leads R (query env o).
Proof. unfold query. leads_go. Qed.

Lemma query_resume_leads q : leads R (query_resume env q).
Proof. unfold query_resume. leads_go. Qed.

#[local] Hint Resolve query_leads query_resume_leads : leads.

Lemma setQuery_leads nodes binaryTag tag : leads R (setQuery env nodes binaryTag tag).
Proof. unfold setQuery. leads_go. Qed.

Lemma waitForSocketOpen_leads : leads R waitForSocketOpen.
Proof.
  intros s. unfold waitForSocketOpen. rewrite run_get.
  destruct (ReadyState_eqb (readyState s) OPEN); [apply R_refl |].
  destruct (_ || _); [apply R_refl |].
  rewrite run_modify. eapply R_trans; [apply R_nextId |].
  match goal with
  | |- R _ (state_of (?m _)) => assert (leads R m) as H
  end.
  { leads_go. }
  apply H.
Qed.

Lemma waitForSocketOpen_finally_leads w : leads R (waitForSocketOpen_finally w).
Proof. unfold waitForSocketOpen_finally. leads_go. Qed.

#[local] Hint Resolve setQuery_leads waitForSocketOpen_leads
  waitForSocketOpen_finally_leads : leads.

Lemma onMessageRecieved_leads message : leads R (onMessageRecieved env message).
Proof. unfold onMessageRecieved. leads_go. Qed.

Lemma keepAliveTick_leads now : leads R (keepAliveTick env now).
Proof. unfold keepAliveTick, sendRawMessage. leads_go. Qed.

#[local] Hint Resolve onMessageRecieved_leads keepAliveTick_leads : leads.

Lemma invoke_ws_leads l a : leads R (invoke_ws env l a).
Proof. unfold invoke_ws, startKeepAliveRequest. leads_go. Qed.

#[local] Hint Resolve invoke_ws_leads : leads.

Lemma ws_emit_leads event a : leads R (ws_emit env event a).
Proof. unfold ws_emit. leads_go. Qed.

#[local] Hint Resolve ws_emit_leads : leads.

Lemma step_leads a : leads R (step env a).
Proof.
  destruct a; unfold step, call, task, if_armed, sendRawMessage; leads_go.
Qed.

Lemma run_leads acts s : R s (fst (run env acts s)).
Proof.
  revert s. induction acts as [|a acts IH]; intros s; [apply R_refl |].
  cbn [run fst]. eapply R_trans; [apply step_leads | apply IH].
Qed.

End Leads.

(** *** The listeners are where the socket registers them *)


Lemma listeners_set_registry em em' event r (s : State) :
  listeners em' event (set_registry em r s)
  = if decide (em = em') then default [] (r !! event) else listeners em' event s.
Proof. destruct em, em'; reflexivity. Qed.

Lemma remove_first_subseteq l ls x : x ∈ remove_first l ls -> x ∈ ls.
Proof.
  induction ls as [|y ls IH]; cbn [remove_first]; [intros H; exact H |].
  destruct (decide (y = l)).
  - intros H. apply list_elem_of_further, H.
  - intros H. apply elem_of_cons in H as [-> | H].
    + apply list_elem_of_here.
    + apply list_elem_of_further, IH, H.
Qed.

Lemma elem_of_rev (x : listener) ls : x ∈ rev ls <-> x ∈ ls.
Proof. rewrite !list_elem_of_In. symmetry. apply in_rev. Qed.

Lemma remove_last_subseteq l ls x : x ∈ remove_last l ls -> x ∈ ls.
Proof.
  unfold remove_last. rewrite elem_of_rev. intros H.
  apply remove_first_subseteq in H. rewrite elem_of_rev in H. exact H.
Qed.

Lemma listeners_on em event l em' event' (s : State) :
  listeners em' event' (state_of (on em event l s))
  = if decide (em = em' /\ event = event') then listeners em event s ++ [l]
    else listeners em' event' s.
Proof.
  unfold on. cbv beta iota delta [modify state_of fst snd].
  rewrite listeners_set_registry.
  destruct (decide (em = em')) as [<- |]; [| destruct (decide _); [tauto | reflexivity]].
  rewrite lookup_insert. destruct (decide (event = event')) as [<- |].
  - destruct (decide _); [reflexivity | tauto].
  - destruct (decide _); [tauto | reflexivity].
Qed.

Lemma listeners_off em event l em' event' (s : State) :
  listeners em' event' (state_of (off em event l s))
  = if decide (em = em' /\ event = event') then remove_last l (listeners em event s)
    else listeners em' event' s.
Proof.
  unfold off. cbv beta iota delta [modify state_of fst snd].
  destruct (remove_last l (listeners em event s)) as [|x ls] eqn:E;
    rewrite listeners_set_registry;
    (destruct (decide (em = em')) as [<- |];
       [| destruct (decide _); [tauto | reflexivity]]).
  - rewrite lookup_delete. destruct (decide (event = event')) as [<- |].
    + destruct (decide _); [reflexivity | tauto].
    + destruct (decide _); [tauto | reflexivity].
  - rewrite lookup_insert. destruct (decide (event = event')) as [<- |].
    + destruct (decide _); [reflexivity | tauto].
    + destruct (decide _); [tauto | reflexivity].
Qed.

Lemma startPhoneCheckInterval_run (s : State) :
  startPhoneCheckInterval s
  = (Ret tt,
     (if phoneCheckInterval s then set_phoneCheckListeners (phoneCheckListeners s + 1) s
      else set_phoneCheckInterval true
             (set_timers (timers s ∪ {[PhoneCheckInterval]})
                (set_phoneCheckListeners (phoneCheckListeners s + 1) s))),
     []).
Proof.
  unfold startPhoneCheckInterval.
  destruct s as [ep ld au pi pl rs wl se ti wa op qu ni]. destruct pi; reflexivity.
Qed.

Lemma clearPhoneCheckInterval_run (s : State) :
  clearPhoneCheckInterval s
  = (Ret tt,
     (if phoneCheckListeners s - 1 <=? 0
      then set_phoneCheckListeners 0
             (set_phoneCheckInterval false
                (set_timers (timers s ∖ {[PhoneCheckInterval]})
                   (set_phoneCheckListeners (phoneCheckListeners s - 1) s)))
      else set_phoneCheckListeners (phoneCheckListeners s - 1) s),
     []).
Proof.
  unfold clearPhoneCheckInterval.
  destruct s as [ep ld au pi pl rs wl se ti wa op qu ni]. exec.
  destruct (pl - 1 <=? 0); reflexivity.
Qed.

Lemma installs_mono env s s' em event l :
  (forall q w, waits s !! q = Some w ->
     exists w', waits s' !! q = Some w' /\ w_tag w' = w_tag w) ->
  installs env s em event l -> installs env s' em event l.
Proof.
  intros Hw Hi. inversion Hi as [ | | | | | | q w H | | | | | | | ]; subst;
    try (constructor; fail).
  destruct (Hw q w H) as (w' & Hw' & <-). constructor. exact Hw'.
Qed.

Lemma typed_step env s s' :
  (forall q w, waits s !! q = Some w ->
     exists w', waits s' !! q = Some w' /\ w_tag w' = w_tag w) ->
  (forall em event l,
     l ∈ listeners em event s' -> l ∈ listeners em event s \/ installs env s' em event l) ->
  typed env s -> typed env s'.
Proof.
  intros Hw Hl Ht em event l H.
  destruct (Hl em event l H) as [H' | H']; [| exact H'].
  eapply installs_mono; [exact Hw | apply Ht, H'].
Qed.

Lemma well_formed_same env s s' :
  wsListeners s' = wsListeners s -> socketEvents s' = socketEvents s ->
  waits s' = waits s -> nextId s' = nextId s ->
  well_formed env s -> well_formed env s'.
Proof.
  intros Hws Hse Hw Hn [Hf Ht]. split.
  - unfold ids_fresh. rewrite Hw, Hn. exact Hf.
  - apply (typed_step env s); [rewrite Hw; eauto | | exact Ht].
    intros em event l H. left. unfold listeners, registry in *.
    destruct em; [rewrite <- Hws | rewrite <- Hse]; exact H.
Qed.

Lemma well_formed_on env s em event l :
  installs env s em event l -> well_formed env s ->
  well_formed env (state_of (on em event l s)).
Proof.
  intros Hi [Hf Ht].
  assert (waits (state_of (on em event l s)) = waits s) as Hw
    by (destruct s, em; reflexivity).
  split.
  - unfold ids_fresh. rewrite Hw.
    replace (nextId (state_of (on em event l s))) with (nextId s)
      by (destruct s, em; reflexivity).
    exact Hf.
  - apply (typed_step env s); [rewrite Hw; eauto | | exact Ht].
    intros em' event' x. rewrite listeners_on.
    destruct (decide _) as [[<- <-] |]; [| tauto].
    rewrite elem_of_app, list_elem_of_singleton. intros [H | ->]; [tauto |].
    right. eapply installs_mono; [| exact Hi]. rewrite Hw. eauto.
Qed.

Lemma well_formed_off env s em event l :
  well_formed env s -> well_formed env (state_of (off em event l s)).
Proof.
  intros [Hf Ht].
  assert (waits (state_of (off em event l s)) = waits s) as Hw.
  { unfold off. cbv beta iota delta [modify state_of fst snd].
    destruct (remove_last _ _); destruct s, em; reflexivity. }
  split.
  - unfold ids_fresh. rewrite Hw.
    replace (nextId (state_of (off em event l s))) with (nextId s).
    + exact Hf.
    + unfold off. cbv beta iota delta [modify state_of fst snd].
      destruct (remove_last _ _); destruct s, em; reflexivity.
  - apply (typed_step env s); [rewrite Hw; eauto | | exact Ht].
    intros em' event' x. rewrite listeners_off.
    destruct (decide _) as [[<- <-] |]; [| tauto].
    intros H. left. eapply remove_last_subseteq, H.
Qed.

Lemma well_formed_new_wait env s w :
  well_formed env s ->
  well_formed env (set_waits (<[nextId s := w]> (waits s)) (set_nextId (S (nextId s)) s)).
Proof.
  intros [Hf Ht]. split.
  - destruct s as [ep ld au pi pl rs wl se ti wa op qu ni].
    unfold ids_fresh in *. cbv beta iota delta [waits nextId set_waits set_nextId] in *.
    intros k. rewrite lookup_insert. destruct (decide (ni = k)) as [<- |]; [lia |].
    intros Hk. apply Hf in Hk. lia.
  - apply (typed_step env s); [| | exact Ht].
    + intros q w' Hq. exists w'. split; [| reflexivity].
      destruct s as [ep ld au pi pl rs wl se ti wa op qu ni].
      unfold ids_fresh in *. cbv beta iota delta [waits nextId set_waits set_nextId] in *.
      rewrite lookup_insert_ne; [exact Hq |].
      intros ->. assert (q < q)%nat by (apply Hf; rewrite Hq; eexists; reflexivity). lia.
    + intros em event l H. left. destruct s, em; exact H.
Qed.

Lemma well_formed_wait_update env s q f :
  wait_update f -> well_formed env s ->
  well_formed env (state_of (update_wait q f s)).
Proof.
  intros Hu [Hf Ht]. split.
  - destruct s as [ep ld au pi pl rs wl se ti wa op qu ni].
    unfold ids_fresh in *.
    cbv beta iota delta [waits nextId set_waits update_wait modify state_of fst snd] in *.
    intros k Hk. apply Hf. rewrite lookup_alter in Hk.
    destruct (decide (q = k)) as [<- |]; [| exact Hk].
    destruct (wa !! q); [eexists; reflexivity | destruct Hk as [x Hx]; discriminate Hx].
  - apply (typed_step env s); [| | exact Ht].
    + intros q' w Hq. destruct s as [ep ld au pi pl rs wl se ti wa op qu ni].
      cbv beta iota delta [waits set_waits update_wait modify state_of fst snd] in *.
      rewrite lookup_alter. destruct (decide (q = q')) as [-> |]; [| eauto].
      rewrite Hq. exists (f w). split; [reflexivity | apply wait_update_tag, Hu].
    + intros em event l H. left. destruct s, em; exact H.
Qed.

Lemma well_formed_nextId env s :
  well_formed env s -> well_formed env (set_nextId (S (nextId s)) s).
Proof.
  intros [Hf Ht]. split.
  - destruct s as [ep ld au pi pl rs wl se ti wa op qu ni].
    intros k Hk. apply Hf in Hk. cbv beta iota delta [nextId set_nextId] in *. lia.
  - apply (typed_step env s); [| | exact Ht].
    + intros q w Hq. exists w. split; [destruct s; exact Hq | reflexivity].
    + intros em event l H. left. destruct s, em; exact H.
Qed.

Lemma well_formed_ended env s : well_formed env s -> well_formed env (ended s).
Proof.
  intros [Hf Ht]. split.
  - destruct s; exact Hf.
  - apply (typed_step env s); [| | exact Ht].
    + intros q w Hq. exists w. split; [destruct s; exact Hq | reflexivity].
    + intros em event x H. left. revert H. unfold ended, listeners.
      generalize "ws-close". generalize "close" "error" "open" "message".
      intros c e o m w.
      destruct s as [ep ld au pi pl rs wl se ti wa op qu ni]. destruct em; exec.
      * rewrite !lookup_delete.
        repeat match goal with
               | |- context [decide ?P] => destruct (decide P)
               end; try (intros H; apply elem_of_nil in H; destruct H).
        intros H; exact H.
      * intros H; exact H.
Qed.

Lemma step_well_formed env a s :
  well_formed env s -> well_formed env (state_of (step env a s)).
Proof.
  revert s.
  refine (step_leads env (fun s s' => well_formed env s -> well_formed env s')
            _ _ _ _ _ _ _ _ _ _ _ _ _ _ _ _ _ _ a).
  - intros s H; exact H.
  - intros s1 s2 s3 H12 H23 H. apply H23, H12, H.
  - intros s n. apply well_formed_same; destruct s; reflexivity.
  - intros s v. apply well_formed_same; destruct s; reflexivity.
  - intros s v. apply well_formed_same; destruct s; reflexivity.
  - intros s rs. apply well_formed_same; destruct s; reflexivity.
  - intros s em event l. apply well_formed_on.
  - intros s em event l _. apply well_formed_off.
  - intros s t _. apply well_formed_same; destruct s; reflexivity.
  - intros s t _. apply well_formed_same; destruct s; reflexivity.
  - intros s tag r. apply well_formed_new_wait.
  - intros s q f. apply well_formed_wait_update.
  - intros s o. apply well_formed_same; destruct s; reflexivity.
  - intros s c. apply well_formed_same; destruct s; reflexivity.
  - intros s. apply well_formed_nextId.
  - intros s. rewrite startPhoneCheckInterval_run.
    apply well_formed_same; destruct s as [? ? ? [] ? ? ? ? ? ? ? ? ?]; reflexivity.
  - intros s. rewrite clearPhoneCheckInterval_run.
    apply well_formed_same; cbv beta iota delta [state_of fst snd];
      destruct (_ <=? _); destruct s; reflexivity.
  - intros s. apply well_formed_ended.
Qed.

Lemma well_formed_empty env : well_formed env empty_state.
Proof.
  split.
  - intros k [w H]. unfold empty_state in H. cbn in H. rewrite lookup_empty in H.
    discriminate H.
  - intros em event l H. destruct em; apply elem_of_nil in H; destruct H.
Qed.

Lemma well_formed_makeSocket env : well_formed env (makeSocket env).
Proof.
  unfold makeSocket.
  generalize (well_formed_empty env). generalize empty_state.
  match goal with
  | |- forall s, _ -> well_formed env (state_of (?m s)) =>
      change (leads (fun s s' => well_formed env s -> well_formed env s') m)
  end.
  repeat (apply leads_bind;
          [intros s1 s2 s3 H12 H23 H; apply H23, H12, H
          | intros s; apply well_formed_on; constructor | intros _]).
  intros s; apply well_formed_on; constructor.
Qed.

Lemma reachable_well_formed env s : reachable env s -> well_formed env s.
Proof.
  intros [acts ->]. generalize (well_formed_makeSocket env). generalize (makeSocket env).
  induction acts as [|a acts IH]; intros s H; [exact H |].
  cbn [run fst]. apply IH, step_well_formed, H.
Qed.

Lemma reachable_typed env s : reachable env s -> typed env s.
Proof. intros H. apply reachable_well_formed, H. Qed.

Lemma reachable_ids_fresh env s : reachable env s -> ids_fresh s.
Proof. intros H. apply (reachable_well_formed env), H. Qed.

(** *** The phone-check interval *)

Lemma phone_monitor_same (s s' : State) :
  phoneCheckListeners s' = phoneCheckListeners s ->
  phoneCheckInterval s' = phoneCheckInterval s ->
  (PhoneCheckInterval ∈ timers s' <-> PhoneCheckInterval ∈ timers s) ->
  phone_monitor_ok s -> phone_monitor_ok s'.
Proof.
  unfold phone_monitor_ok. intros -> -> ->. tauto.
Qed.

Lemma phone_monitor_start (s : State) :
  phone_monitor_ok s -> phone_monitor_ok (state_of (startPhoneCheckInterval s)).
Proof.
  rewrite startPhoneCheckInterval_run. unfold phone_monitor_ok.
  destruct s as [ep ld au pi pl rs wl se ti wa op qu ni].
  cbv beta iota delta [state_of fst snd phoneCheckInterval phoneCheckListeners timers].
  intros (H0 & H1 & H2). destruct pi; exec.
  - split; [lia |]. split; [| exact H2]. split; [lia | reflexivity].
  - split; [lia |]. split; [split; [lia | reflexivity] |].
    split; [reflexivity |]. intros _. apply elem_of_union_r, elem_of_singleton.
    reflexivity.
Qed.

Lemma phone_monitor_clear (s : State) :
  phone_monitor_ok s -> phone_monitor_ok (state_of (clearPhoneCheckInterval s)).
Proof.
  rewrite clearPhoneCheckInterval_run. unfold phone_monitor_ok.
  destruct s as [ep ld au pi pl rs wl se ti wa op qu ni].
  cbv beta iota delta [state_of fst snd phoneCheckInterval phoneCheckListeners timers].
  intros (H0 & H1 & H2). destruct (pl - 1 <=? 0) eqn:E; exec.
  - split; [lia |]. split; [split; [discriminate | lia] |].
    split; [| discriminate].
    intros H. apply elem_of_difference in H as [_ H].
    exfalso. apply H, elem_of_singleton. reflexivity.
  - apply Z.leb_gt in E. split; [lia |]. split; [| exact H2].
    split; [lia |]. intros _. apply H1. lia.
Qed.

Lemma phone_monitor_ended (s : State) : phone_monitor_ok (ended s).
Proof.
  unfold phone_monitor_ok, ended.
  destruct s as [ep ld au pi pl rs wl se ti wa op qu ni]. exec.
  split; [lia |]. split; [split; [discriminate | lia] |].
  split; [| discriminate].
  intros H. apply elem_of_difference in H as [_ H].
  exfalso. apply H, elem_of_singleton. reflexivity.
Qed.

Lemma step_phone_monitor env a s :
  phone_monitor_ok s -> phone_monitor_ok (state_of (step env a s)).
Proof.
  revert s.
  refine (step_leads env (fun s s' => phone_monitor_ok s -> phone_monitor_ok s')
            _ _ _ _ _ _ _ _ _ _ _ _ _ _ _ _ _ _ a).
  - intros s H; exact H.
  - intros s1 s2 s3 H12 H23 H. apply H23, H12, H.
  - intros s n. apply phone_monitor_same; destruct s; reflexivity.
  - intros s v. apply phone_monitor_same; destruct s; reflexivity.
  - intros s v. apply phone_monitor_same; destruct s; reflexivity.
  - intros s rs. apply phone_monitor_same; destruct s; reflexivity.
  - intros s em event l _. unfold on. apply phone_monitor_same;
      destruct s, em; reflexivity.
  - intros s em event l _. unfold off. cbv beta iota delta [modify state_of fst snd].
    destruct (remove_last _ _); apply phone_monitor_same; destruct s, em; reflexivity.
  - intros s t Ht. apply phone_monitor_same; try (destruct s; reflexivity).
    destruct s; exec. rewrite elem_of_union, elem_of_singleton.
    split; [intros [H | H]; [exact H | congruence] | tauto].
  - intros s t Ht. apply phone_monitor_same; try (destruct s; reflexivity).
    destruct s; exec. rewrite elem_of_difference, elem_of_singleton.
    split; [tauto | intros H; split; [exact H | congruence]].
  - intros s tag r. apply phone_monitor_same; destruct s; reflexivity.
  - intros s q f _. apply phone_monitor_same; destruct s; reflexivity.
  - intros s o. apply phone_monitor_same; destruct s; reflexivity.
  - intros s c. apply phone_monitor_same; destruct s; reflexivity.
  - intros s. apply phone_monitor_same; destruct s; reflexivity.
  - apply phone_monitor_start.
  - apply phone_monitor_clear.
  - intros s _. apply phone_monitor_ended.
Qed.

Lemma phone_monitor_makeSocket env : phone_monitor_ok (makeSocket env).
Proof.
  unfold phone_monitor_ok, makeSocket, empty_state. exec.
  split; [lia |]. split; [split; [discriminate | lia] |].
  split; [| discriminate]. intros H. apply elem_of_empty in H. destruct H.
Qed.

(** X8.  In every state a socket reaches, the counter
    [phoneCheckListeners] is not negative, the flag [phoneCheckInterval]
    is set exactly when the counter is positive, and the interval timer
    is armed exactly when the flag is set: through every sequence of
    calls, frames, timers and teardowns the phone check runs exactly
    while the counter is positive.  (The counter is not the number of
    the pending calls that need the phone: [end] resets it to 0 while
    such calls may still be pending.) *)
Theorem phone_monitor_invariant (env : Env) (acts : list action) :
  phone_monitor_ok (fst (run env acts (makeSocket env))).
Proof.
  generalize (phone_monitor_makeSocket env). generalize (makeSocket env).
  induction acts as [|a acts IH]; intros s H; [exact H |].
  cbn [run fst]. apply IH, step_phone_monitor, H.
Qed.

(** *** A wait settles once *)

Lemma keeps_outcome_refl q r s : keeps_outcome q r s s.
Proof. intros H. split; [exact H | intros H'; exact H']. Qed.

Lemma keeps_outcome_trans q r s1 s2 s3 :
  keeps_outcome q r s1 s2 -> keeps_outcome q r s2 s3 -> keeps_outcome q r s1 s3.
Proof.
  intros H12 H23 H1. destruct (H12 H1) as [H2 S2]. destruct (H23 H2) as [H3 S3].
  split; [exact H3 | intros H; apply S3, S2, H].
Qed.

Lemma keeps_outcome_same q r s s' :
  waits s' = waits s -> nextId s' = nextId s -> keeps_outcome q r s s'.
Proof.
  intros Hw Hn H. unfold ids_fresh, settled_as. rewrite Hw, Hn.
  split; [exact H | intros H'; exact H'].
Qed.

Lemma keeps_outcome_epoch q r s n : keeps_outcome q r s (set_epoch n s).
Proof. apply keeps_outcome_same; destruct s; reflexivity. Qed.

Lemma keeps_outcome_date q r s v : keeps_outcome q r s (set_lastDateRecv v s).
Proof. apply keeps_outcome_same; destruct s; reflexivity. Qed.

Lemma keeps_outcome_auth q r s v : keeps_outcome q r s (set_authInfo v s).
Proof. apply keeps_outcome_same; destruct s; reflexivity. Qed.

Lemma keeps_outcome_ready q r s rs : keeps_outcome q r s (set_readyState rs s).
Proof. apply keeps_outcome_same; destruct s; reflexivity. Qed.

Lemma keeps_outcome_on q r env s em event l :
  installs env s em event l -> keeps_outcome q r s (state_of (on em event l s)).
Proof. intros _. apply keeps_outcome_same; destruct s, em; reflexivity. Qed.

Lemma keeps_outcome_off q r s em event l :
  removes s l -> keeps_outcome q r s (state_of (off em event l s)).
Proof.
  intros _. unfold off. cbv beta iota delta [modify state_of fst snd].
  destruct (remove_last _ _); apply keeps_outcome_same; destruct s, em; reflexivity.
Qed.

Lemma keeps_outcome_set_timer q r s t :
  t <> PhoneCheckInterval -> keeps_outcome q r s (state_of (set_timer t s)).
Proof. intros _. apply keeps_outcome_same; destruct s; reflexivity. Qed.

Lemma keeps_outcome_clear_timer q r s t :
  t <> PhoneCheckInterval -> keeps_outcome q r s (state_of (clear_timer t s)).
Proof. intros _. apply keeps_outcome_same; destruct s; reflexivity. Qed.

Lemma keeps_outcome_new_wait q r s tag rp :
  keeps_outcome q r s
    (set_waits (<[nextId s := new_wait tag rp]> (waits s)) (set_nextId (S (nextId s)) s)).
Proof.
  generalize (new_wait tag rp). intros w H. destruct s as [ep ld au pi pl rs wl se ti wa op qu ni].
  unfold ids_fresh, settled_as in *.
  cbv beta iota delta [waits nextId set_waits set_nextId] in *.
  split.
  - intros k. rewrite lookup_insert. destruct (decide (ni = k)) as [<- |]; [lia |].
    intros Hk. apply H in Hk. lia.
  - intros (w' & Hw & Hs). exists w'. split; [| exact Hs].
    rewrite lookup_insert_ne; [exact Hw |].
    intros ->. assert (q < q)%nat by (apply H; rewrite Hw; eexists; reflexivity). lia.
Qed.

Lemma wait_update_settled f w r :
  wait_update f -> w_settled w = Some r -> w_settled (f w) = Some r.
Proof.
  intros Hf Hw. destruct Hf; try exact Hw.
  unfold settle_wait. rewrite Hw. exact Hw.
Qed.

Lemma keeps_outcome_wait_update q r s q' f :
  wait_update f -> keeps_outcome q r s (state_of (update_wait q' f s)).
Proof.
  intros Hf H. destruct s as [ep ld au pi pl rs wl se ti wa op qu ni].
  unfold ids_fresh, settled_as in *.
  cbv beta iota delta [waits nextId set_waits update_wait modify state_of fst snd] in *.
  split.
  - intros k Hk. apply H. rewrite lookup_alter in Hk.
    destruct (decide (q' = k)) as [<- |]; [| exact Hk].
    destruct (wa !! q'); [eexists; reflexivity | destruct Hk as [x Hx]; discriminate Hx].
  - intros (w & Hw & Hs). rewrite lookup_alter.
    destruct (decide (q' = q)) as [-> |]; [| exists w; split; assumption].
    rewrite Hw. exists (f w). split; [reflexivity |].
    apply wait_update_settled; assumption.
Qed.

Lemma keeps_outcome_opens q r s o : keeps_outcome q r s (set_opens o s).
Proof. apply keeps_outcome_same; destruct s; reflexivity. Qed.

Lemma keeps_outcome_queries q r s c : keeps_outcome q r s (set_queries c s).
Proof. apply keeps_outcome_same; destruct s; reflexivity. Qed.

Lemma keeps_outcome_nextId q r s : keeps_outcome q r s (set_nextId (S (nextId s)) s).
Proof.
  intros H. destruct s as [ep ld au pi pl rs wl se ti wa op qu ni].
  split; [| intros H'; exact H'].
  intros k Hk. apply H in Hk. cbv beta iota delta [nextId set_nextId] in *. lia.
Qed.

Lemma keeps_outcome_start q r s :
  keeps_outcome q r s (state_of (startPhoneCheckInterval s)).
Proof.
  rewrite startPhoneCheckInterval_run.
  apply keeps_outcome_same; destruct s as [? ? ? [] ? ? ? ? ? ? ? ? ?]; reflexivity.
Qed.

Lemma keeps_outcome_clear q r s :
  keeps_outcome q r s (state_of (clearPhoneCheckInterval s)).
Proof.
  rewrite clearPhoneCheckInterval_run.
  apply keeps_outcome_same; cbv beta iota delta [state_of fst snd];
    destruct (_ <=? _); destruct s; reflexivity.
Qed.

Lemma keeps_outcome_ended q r s : keeps_outcome q r s (ended s).
Proof. apply keeps_outcome_same; destruct s; reflexivity. Qed.

(** The facts above, for the hypotheses of the section [Leads]. *)
Ltac keeps_outcome_facts q r :=
  first
    [ exact (keeps_outcome_refl q r) | exact (keeps_outcome_trans q r)
    | exact (keeps_outcome_epoch q r) | exact (keeps_outcome_date q r)
    | exact (keeps_outcome_auth q r) | exact (keeps_outcome_ready q r)
    | exact (keeps_outcome_on q r _) | exact (keeps_outcome_off q r)
    | exact (keeps_outcome_set_timer q r) | exact (keeps_outcome_clear_timer q r)
    | exact (keeps_outcome_new_wait q r) | exact (keeps_outcome_wait_update q r)
    | exact (keeps_outcome_opens q r) | exact (keeps_outcome_queries q r)
    | exact (keeps_outcome_nextId q r) | exact (keeps_outcome_start q r)
    | exact (keeps_outcome_clear q r) | exact (keeps_outcome_ended q r) ].

Lemma step_keeps_outcome env q r a s : keeps_outcome q r s (state_of (step env a s)).
Proof. apply (step_leads env (keeps_outcome q r)); keeps_outcome_facts q r. Qed.

Lemma run_keeps_outcome env q r acts s : keeps_outcome q r s (fst (run env acts s)).
Proof. apply (run_leads env (keeps_outcome q r)); keeps_outcome_facts q r. Qed.

(** *** Emissions that reach a listener *)

Lemma for_each_keeps (invoke : listener -> arg -> M unit) em event a
    (P : State -> Prop) (ls : list listener) :
  (forall l s, l ∈ ls -> outcome_of (invoke l a s) = Ret tt) ->
  (forall l s, l ∈ ls -> P s -> P (state_of (invoke l a s))) ->
  forall s, P s ->
    let r := for_each ls (fun l => tell (Invoke em event l a) ;; invoke l a) s in
    outcome_of r = Ret tt /\ P (state_of r).
Proof.
  induction ls as [|l ls IH]; intros Hret HP s Hs; [split; [reflexivity | exact Hs] |].
  cbn [for_each]. cbv zeta. rewrite run_bind, run_tell.
  pose proof (Hret l s (list_elem_of_here _ _)) as Hl.
  pose proof (HP l s (list_elem_of_here _ _) Hs) as Hl'.
  destruct (invoke l a s) as [[o s1] t1]. cbn in Hl, Hl'. subst o.
  cbn [outcome_of state_of effects_of fst snd].
  destruct (IH (fun l s H => Hret l s (list_elem_of_further _ _ _ H))
               (fun l s H => HP l s (list_elem_of_further _ _ _ H)) s1 Hl') as [E1 E2].
  destruct (for_each ls _ s1) as [[o2 s2] t2]. cbn in E1, E2. subst o2.
  split; [reflexivity | exact E2].
Qed.

(** The listeners called before [l0] keep [P0], [l0] turns it into [P1],
    those called after it keep [P1], and none of them throws. *)
Lemma for_each_reaches (invoke : listener -> arg -> M unit) em event a
    (P0 P1 : State -> Prop) (l0 : listener) (ls : list listener) :
  (forall l s, l ∈ ls -> outcome_of (invoke l a s) = Ret tt) ->
  (forall l s, l ∈ ls -> l <> l0 -> P0 s -> P0 (state_of (invoke l a s))) ->
  (forall l s, l ∈ ls -> P1 s -> P1 (state_of (invoke l a s))) ->
  (forall s, P0 s -> P1 (state_of (invoke l0 a s))) ->
  l0 ∈ ls ->
  forall s, P0 s ->
    let r := for_each ls (fun l => tell (Invoke em event l a) ;; invoke l a) s in
    outcome_of r = Ret tt /\ P1 (state_of r).
Proof.
  induction ls as [|l ls IH]; intros Hret H0 H1 H01 Hin s Hs;
    [apply elem_of_nil in Hin; destruct Hin |].
  cbn [for_each]. cbv zeta. rewrite run_bind, run_tell.
  pose proof (Hret l s (list_elem_of_here _ _)) as Hl.
  assert (forall l s, l ∈ ls -> outcome_of (invoke l a s) = Ret tt) as Hret'
    by (intros l' s' H; apply Hret, list_elem_of_further, H).
  assert (forall l s, l ∈ ls -> P1 s -> P1 (state_of (invoke l a s))) as H1'
    by (intros l' s' H; apply H1, list_elem_of_further, H).
  destruct (decide (l = l0)) as [-> | Hne].
  - pose proof (H01 s Hs) as Hl'.
    destruct (invoke l0 a s) as [[o s1] t1]. cbn in Hl, Hl'. subst o.
    cbn [outcome_of state_of effects_of fst snd].
    destruct (for_each_keeps invoke em event a P1 ls Hret' H1' s1 Hl') as [E1 E2].
    destruct (for_each ls _ s1) as [[o2 s2] t2]. cbn in E1, E2. subst o2.
    split; [reflexivity | exact E2].
  - pose proof (H0 l s (list_elem_of_here _ _) Hne Hs) as Hl'.
    apply elem_of_cons in Hin as [-> | Hin]; [congruence |].
    destruct (invoke l a s) as [[o s1] t1]. cbn in Hl, Hl'. subst o.
    cbn [outcome_of state_of effects_of fst snd].
    destruct (IH Hret' (fun l s H => H0 l s (list_elem_of_further _ _ _ H)) H1' H01 Hin
                 s1 Hl') as [E1 E2].
    destruct (for_each ls _ s1) as [[o2 s2] t2]. cbn in E1, E2. subst o2.
    split; [reflexivity | exact E2].
Qed.

(** *** Responses reach the wait for their tag *)

Lemma tag_event_listeners env s tag l :
  typed env s ->
  (forall t, PHONE_CONNECTION_CB env <> "TAG:" +:+ t) ->
  l ∈ listeners SocketEvents ("TAG:" +:+ tag) s ->
  (exists q, l = OnRecv q) \/ (exists id, l = External id).
Proof.
  intros Ht Hphone Hl. apply Ht in Hl.
  inversion Hl as [ | | | | Hev | Hev | q' w' Hw' Hev | | | q' Hev | | | | ? ? id];
    subst; try (exfalso; eapply Hphone; eauto; fail); try discriminate Hev;
    eauto.
Qed.

Lemma onRecv_run q json (s : State) :
  onRecv q json s
  = (Ret tt,
     set_timers (timers s ∖ {[WaitTimeout q]})
       (set_waits (alter (settle_wait (inr json)) q (waits s)) s), []).
Proof. destruct s; reflexivity. Qed.

Lemma onErr_run q err (s : State) :
  onErr q err s
  = (Ret tt,
     set_timers (timers s ∖ {[WaitTimeout q]})
       (set_waits (alter (settle_wait (inl (default
          (EBoom (mkBoom "Connection Closed" (StLit 429) None)) err))) q (waits s)) s),
     []).
Proof. destruct s; reflexivity. Qed.

Lemma ids_fresh_alter f q (s : State) t :
  ids_fresh s -> ids_fresh (set_timers t (set_waits (alter f q (waits s)) s)).
Proof.
  intros H k Hk. destruct s as [ep ld au pi pl rs wl se ti wa op qu ni].
  unfold ids_fresh in H. cbv beta iota delta [waits nextId set_waits set_timers] in *.
  apply H. rewrite lookup_alter in Hk.
  destruct (decide (q = k)) as [<- |]; [| exact Hk].
  destruct (wa !! q); [eexists; reflexivity | destruct Hk as [x Hx]; discriminate Hx].
Qed.

Lemma waits_alter_other f q q' (s : State) t :
  q' <> q ->
  waits (set_timers t (set_waits (alter f q' (waits s)) s)) !! q = waits s !! q.
Proof.
  intros Hne. destruct s as [ep ld au pi pl rs wl se ti wa op qu ni].
  cbv beta iota delta [waits set_waits set_timers].
  apply lookup_alter_ne, Hne.
Qed.

Lemma waits_alter_settles r q w (s : State) t :
  waits s !! q = Some w -> w_settled w = None ->
  settled_as q r (set_timers t (set_waits (alter (settle_wait r) q (waits s)) s)).
Proof.
  intros Hw Hs. exists (settle_wait r w). split.
  - destruct s as [ep ld au pi pl rs wl se ti wa op qu ni].
    cbv beta iota delta [waits set_waits set_timers] in *.
    rewrite lookup_alter_eq, Hw. reflexivity.
  - unfold settle_wait. rewrite Hs. reflexivity.
Qed.

Lemma keeps_outcome_apply q r s s' :
  keeps_outcome q r s s' ->
  ids_fresh s /\ settled_as q r s -> ids_fresh s' /\ settled_as q r s'.
Proof. intros H [Hf Hs]. destruct (H Hf) as [Hf' Hs']. split; [exact Hf' | apply Hs', Hs]. Qed.

Section Correlation.

Context (env : Env).
Context (tag_prefix : DEF_TAG_PREFIX env = "TAG:").
Context (phone_channel : forall t, PHONE_CONNECTION_CB env <> "TAG:" +:+ t).

Lemma socketEvents_emit_resolves (s : State) tag json q w :
  typed env s -> ids_fresh s ->
  OnRecv q ∈ listeners SocketEvents ("TAG:" +:+ tag) s ->
  waits s !! q = Some w -> w_settled w = None ->
  let r := socketEvents_emit env ("TAG:" +:+ tag) (ArgJson json) s in
  (exists t0, outcome_of r = Ret t0)
  /\ ids_fresh (state_of r) /\ settled_as q (inr json) (state_of r).
Proof.
  intros Ht Hf Hin Hw Hs. cbv zeta. unfold socketEvents_emit, emit.
  rewrite run_get, run_bind.
  destruct (for_each_reaches (invoke_socketEvents env) SocketEvents ("TAG:" +:+ tag)
              (ArgJson json)
              (fun s => ids_fresh s /\ waits s !! q = Some w)
              (fun s => ids_fresh s /\ settled_as q (inr json) s)
              (OnRecv q) (listeners SocketEvents ("TAG:" +:+ tag) s)) with (s := s)
    as [E1 E2]; try assumption.
  - intros l s' Hl.
    destruct (tag_event_listeners env s tag l Ht phone_channel Hl) as [[q' ->] | [id ->]];
      [cbn [invoke_socketEvents arg_json]; rewrite onRecv_run |]; reflexivity.
  - intros l s' Hl Hne [Hf' Hw'].
    destruct (tag_event_listeners env s tag l Ht phone_channel Hl) as [[q' ->] | [id ->]].
    + cbn [invoke_socketEvents arg_json]. rewrite onRecv_run.
      cbn [state_of fst snd]. split; [apply ids_fresh_alter, Hf' |].
      rewrite waits_alter_other by congruence. exact Hw'.
    + split; assumption.
  - intros l s' _. apply keeps_outcome_apply.
    apply (invoke_socketEvents_leads env (keeps_outcome q (inr json)));
      keeps_outcome_facts q (@inr exn jsval json).
  - intros s' [Hf' Hw']. cbn [invoke_socketEvents arg_json]. rewrite onRecv_run.
    cbn [state_of fst snd]. split; [apply ids_fresh_alter, Hf' |].
    apply (waits_alter_settles _ _ w); assumption.
  - split; assumption.
  - destruct (for_each _ _ s) as [[o s1] t1]. cbn in E1, E2. subst o.
    destruct E2 as [E2 E3]. split; [eexists; reflexivity |]. split; assumption.
Qed.

Lemma dispatch_resolves (s : State) tag json q w :
  typed env s -> ids_fresh s ->
  OnRecv q ∈ listeners SocketEvents ("TAG:" +:+ tag) s ->
  waits s !! q = Some w -> w_settled w = None ->
  settled_as q (inr json) (state_of (dispatch env tag json s)).
Proof.
  intros Ht Hf Hin Hw Hs.
  destruct (socketEvents_emit_resolves s tag json q w Ht Hf Hin Hw Hs)
    as ([t0 E0] & E1 & E2).
  assert (forall s1, ids_fresh s1 -> settled_as q (inr json) s1 ->
            forall t0, settled_as q (inr json)
                         (state_of (dispatch_callbacks env json t0 s1))) as Hrest.
  { intros s1 H1 H2 t0'.
    apply (keeps_outcome_apply q (inr json) s1); [| split; assumption].
    apply (dispatch_callbacks_leads env (keeps_outcome q (inr json)));
      keeps_outcome_facts q (@inr exn jsval json). }
  change (dispatch env tag json s)
    with ((when (String.eqb (loggerLevel env) "trace") (tell (Log Trace "communication")) ;;
           (t0 ← socketEvents_emit env (DEF_TAG_PREFIX env +:+ tag) (ArgJson json);
            dispatch_callbacks env json t0)) s).
  rewrite tag_prefix.
  assert (state_of ((t0 ← socketEvents_emit env ("TAG:" +:+ tag) (ArgJson json);
                     dispatch_callbacks env json t0) s)
          = state_of (dispatch_callbacks env json t0
                        (state_of (socketEvents_emit env ("TAG:" +:+ tag) (ArgJson json) s))))
    as Hstate.
  { rewrite run_bind.
    destruct (socketEvents_emit env ("TAG:" +:+ tag) (ArgJson json) s) as [[o s1] t1].
    cbn in E0. subst o. cbn [state_of fst snd].
    destruct (dispatch_callbacks env json t0 s1) as [[o2 s2] t2]. reflexivity. }
  destruct (String.eqb (loggerLevel env) "trace"); unfold when.
  - rewrite run_tell. cbn [state_of fst snd]. 
    change (snd (fst ?x)) with (state_of x). rewrite Hstate. apply Hrest; assumption.
  - rewrite run_ret, Hstate. apply Hrest; assumption.
Qed.

End Correlation.

(** X9.  Responses are matched to requests by tag.  On a socket in any
    state it can reach, when the tag channel has the prefix [TAG:] that
    [waitForMessage] registers under, a frame that is not a pong and
    decodes to the tag [tag] and a payload resolves with this payload
    every pending call of [waitForMessage] that listens for [tag],
    whatever the callback channels of the payload then trigger. *)
Theorem response_resolves_wait (env : Env) (s : State) (message : Data)
    (tag : string) (json : jsval) (q : nat) (w : Wait) :
  reachable env s ->
  DEF_TAG_PREFIX env = "TAG:" ->
  (forall t, PHONE_CONNECTION_CB env <> "TAG:" +:+ t) ->
  strict_eq (data_first message) (JStr "!") = false ->
  decodeWAMessage env message (authInfo s) = Decoded tag json ->
  truthy json = true ->
  OnRecv q ∈ listeners SocketEvents ("TAG:" +:+ tag) s ->
  waits s !! q = Some w ->
  w_settled w = None ->
  settled_as q (inr json) (state_of (onMessageRecieved env message s)).
Proof.
  intros Hreach Hprefix Hphone Hfirst Hdec Hjson Hin Hw Hs.
  unfold onMessageRecieved. rewrite Hfirst, run_get, run_tell, Hdec, Hjson.
  cbn [negb state_of fst snd]. change (snd (fst ?x)) with (state_of x).
  apply (dispatch_resolves env Hprefix Hphone s tag json q w); try assumption.
  - apply reachable_typed, Hreach.
  - apply (reachable_ids_fresh env), Hreach.
Qed.

(** *** The transport closes or fails while calls are pending *)

Lemma well_formed_ready env s rs :
  well_formed env s -> well_formed env (set_readyState rs s).
Proof. apply well_formed_same; destruct s; reflexivity. Qed.

Lemma closing_listeners env s event l :
  typed env s -> event = "close" \/ event = "error" ->
  l ∈ listeners Ws event s ->
  l = OnWsClose \/ l = OnWsError \/ (exists q, l = OnErr q)
  \/ (exists w, l = OpenOnClose w) \/ (exists id, l = External id).
Proof.
  intros Ht Hev Hl. apply Ht in Hl.
  inversion Hl; subst; eauto 6; destruct Hev as [Hev | Hev]; discriminate Hev.
Qed.

Lemma invoke_ws_closing env l a (s : State) :
  l = OnWsClose \/ l = OnWsError \/ (exists q, l = OnErr q)
  \/ (exists w, l = OpenOnClose w) \/ (exists id, l = External id) ->
  outcome_of (invoke_ws env l a s) = Ret tt.
Proof.
  intros [-> | [-> | [[q ->] | [[w ->] | [id ->]]]]]; cbn [invoke_ws];
    rewrite ?end__run, ?onErr_run; reflexivity.
Qed.

Lemma invoke_ws_closing_other env l a q (s : State) :
  l = OnWsClose \/ l = OnWsError \/ (exists q, l = OnErr q)
  \/ (exists w, l = OpenOnClose w) \/ (exists id, l = External id) ->
  l <> OnErr q ->
  ids_fresh s ->
  ids_fresh (state_of (invoke_ws env l a s))
  /\ waits (state_of (invoke_ws env l a s)) !! q = waits s !! q.
Proof.
  intros [-> | [-> | [[q' ->] | [[w ->] | [id ->]]]]] Hne Hf; cbn [invoke_ws];
    rewrite ?end__run, ?onErr_run; cbn [state_of fst snd].
  - split; [| destruct s; reflexivity].
    apply (keeps_outcome_ended 0%nat (inr JNull) s Hf).
  - split; [| destruct s; reflexivity].
    apply (keeps_outcome_ended 0%nat (inr JNull) s Hf).
  - split; [apply ids_fresh_alter, Hf |].
    apply waits_alter_other. congruence.
  - split; [| destruct s; reflexivity].
    apply (keeps_outcome_opens 0%nat (inr JNull) s _ Hf).
  - split; [exact Hf | reflexivity].
Qed.

Lemma ws_emit_rejects env (s : State) event a q w :
  typed env s -> ids_fresh s ->
  event = "close" \/ event = "error" ->
  OnErr q ∈ listeners Ws event s ->
  waits s !! q = Some w -> w_settled w = None ->
  let r := task (ws_emit env event a ;; mret tt) s in
  settled_as q
    (inl (default (EBoom (mkBoom "Connection Closed" (StLit 429) None)) (arg_error a)))
    (state_of r).
Proof.
  intros Ht Hf Hev Hin Hw Hs. cbv zeta. unfold task, try_catch, ws_emit, emit.
  rewrite run_bind, run_get, run_bind.
  set (r := inl (default (EBoom (mkBoom "Connection Closed" (StLit 429) None))
                   (arg_error a)) : exn + jsval).
  destruct (for_each_reaches (invoke_ws env) Ws event a
              (fun s => ids_fresh s /\ waits s !! q = Some w)
              (fun s => ids_fresh s /\ settled_as q r s)
              (OnErr q) (listeners Ws event s)) with (s := s)
    as [E1 E2]; try assumption.
  - intros l s' Hl. apply invoke_ws_closing, (closing_listeners env s event); assumption.
  - intros l s' Hl Hne [Hf' Hw'].
    destruct (invoke_ws_closing_other env l a q s'
                (closing_listeners env s event l Ht Hev Hl) Hne Hf') as [H1 H2].
    split; [exact H1 | rewrite H2; exact Hw'].
  - intros l s' _. apply keeps_outcome_apply.
    apply (invoke_ws_leads env (keeps_outcome q r)); keeps_outcome_facts q r.
  - intros s' [Hf' Hw']. cbn [invoke_ws]. rewrite onErr_run.
    cbn [state_of fst snd]. split; [apply ids_fresh_alter, Hf' |].
    apply (waits_alter_settles _ _ w); assumption.
  - split; assumption.
  - destruct (for_each _ _ s) as [[o s1] t1]. cbn in E1, E2. subst o.
    destruct E2 as [E2 E3]. exact E3.
Qed.


(** *** The transport opens while calls of [waitForSocketOpen] are pending *)

Lemma opening_listeners env s l :
  typed env s -> l ∈ listeners Ws "open" s ->
  l = OnWsOpen \/ (exists w, l = OpenOnOpen w) \/ (exists id, l = External id).
Proof.
  intros Ht Hl. apply Ht in Hl. inversion Hl; subst; eauto.
Qed.

Lemma update_open_run w f (s : State) :
  update_open w f s = (Ret tt, set_opens (alter f w (opens s)) s, []).
Proof. reflexivity. Qed.

Lemma opens_alter_settled w w' r r' (s : State) :
  open_settled_as w r s ->
  open_settled_as w r (set_opens (alter (settle_open r') w' (opens s)) s).
Proof.
  intros (o & Ho & Hs). destruct s as [ep ld au pi pl rs wl se ti wa op qu ni].
  unfold open_settled_as in *. cbv beta iota delta [opens set_opens] in *.
  rewrite lookup_alter. destruct (decide (w' = w)) as [-> |]; [| eauto].
  rewrite Ho. exists (settle_open r' o). split; [reflexivity |].
  unfold settle_open. rewrite Hs. exact Hs.
Qed.

Lemma opens_alter_settles w r o (s : State) :
  opens s !! w = Some o -> o_settled o = None ->
  open_settled_as w r (set_opens (alter (settle_open r) w (opens s)) s).
Proof.
  intros Ho Hs. exists (settle_open r o). split.
  - destruct s as [ep ld au pi pl rs wl se ti wa op qu ni].
    cbv beta iota delta [opens set_opens] in *.
    rewrite lookup_alter_eq, Ho. reflexivity.
  - unfold settle_open. rewrite Hs. reflexivity.
Qed.

Lemma opens_alter_other w w' f (s : State) :
  w' <> w -> opens (set_opens (alter f w' (opens s)) s) !! w = opens s !! w.
Proof.
  intros Hne. destruct s as [ep ld au pi pl rs wl se ti wa op qu ni].
  cbv beta iota delta [opens set_opens]. apply lookup_alter_ne, Hne.
Qed.

(** X11.  A pending call of [waitForSocketOpen] that still has its
    listeners on the transport -- none that an earlier [end] has
    detached -- resolves when the transport opens, on a socket in any
    state it can reach; when the transport closes first, it is rejected
    with the close code as it comes, without a default. *)
Theorem transport_settles_waitForSocketOpen (env : Env) (s : State) (w : nat)
    (o : OpenWait) :
  reachable env s ->
  opens s !! w = Some o ->
  o_settled o = None ->
  (readyState s = CONNECTING -> OpenOnOpen w ∈ listeners Ws "open" s ->
     open_settled_as w (inr tt) (state_of (step env WsOpened s)))
  /\ (forall code, OpenOnClose w ∈ listeners Ws "close" s ->
        open_settled_as w (inl (arg_error (ArgJson (JNum code))))
          (state_of (step env (WsClosed code) s))).
Proof.
  intros Hreach Ho Hs. pose proof (reachable_typed env s Hreach) as Ht. split.
  - intros Hready Hin. unfold step. rewrite run_get, Hready.
    cbn [ReadyState_eqb]. rewrite run_modify.
    unfold task, try_catch, ws_emit, emit. rewrite run_bind, run_get, run_bind.
    rewrite listeners_set_readyState.
    destruct (for_each_reaches (invoke_ws env) Ws "open" ArgNone
                (fun s => opens s !! w = Some o)
                (open_settled_as w (inr tt))
                (OpenOnOpen w) (listeners Ws "open" s)) with (s := set_readyState OPEN s)
      as [E1 E2]; try assumption.
    + intros l s' Hl.
      destruct (opening_listeners env s l Ht Hl) as [-> | [[w' ->] | [id ->]]];
        reflexivity.
    + intros l s' Hl Hne Ho'.
      destruct (opening_listeners env s l Ht Hl) as [-> | [[w' ->] | [id ->]]].
      * exact Ho'.
      * cbn [invoke_ws]. rewrite update_open_run. cbn [state_of fst snd].
        rewrite opens_alter_other by congruence. exact Ho'.
      * exact Ho'.
    + intros l s' Hl Hs'.
      destruct (opening_listeners env s l Ht Hl) as [-> | [[w' ->] | [id ->]]].
      * exact Hs'.
      * cbn [invoke_ws]. rewrite update_open_run. cbn [state_of fst snd].
        apply opens_alter_settled, Hs'.
      * exact Hs'.
    + intros s' Ho'. cbn [invoke_ws]. rewrite update_open_run. cbn [state_of fst snd].
      apply (opens_alter_settles _ _ o); assumption.
    + destruct (for_each _ _ (set_readyState OPEN s)) as [[o1 s1] t1].
      cbn in E1, E2. subst o1. exact E2.
  - intros code Hin. unfold step. rewrite run_modify.
    unfold task, try_catch, ws_emit, emit. rewrite run_bind, run_get, run_bind.
    rewrite listeners_set_readyState.
    set (a := ArgJson (JNum code)).
    destruct (for_each_reaches (invoke_ws env) Ws "close" a
                (fun s => opens s !! w = Some o)
                (open_settled_as w (inl (arg_error a)))
                (OpenOnClose w) (listeners Ws "close" s)) with (s := set_readyState CLOSED s)
      as [E1 E2]; try assumption.
    + intros l s' Hl. apply invoke_ws_closing, (closing_listeners env s "close");
        [assumption | left; reflexivity | assumption].
    + intros l s' Hl Hne Ho'.
      destruct (closing_listeners env s "close" l Ht (or_introl eq_refl) Hl)
        as [-> | [-> | [[q ->] | [[w' ->] | [id ->]]]]]; cbn [invoke_ws];
        rewrite ?end__run, ?onErr_run, ?update_open_run; cbn [state_of fst snd].
      * exact Ho'.
      * exact Ho'.
      * exact Ho'.
      * rewrite opens_alter_other by congruence. exact Ho'.
      * exact Ho'.
    + intros l s' Hl Hs'.
      destruct (closing_listeners env s "close" l Ht (or_introl eq_refl) Hl)
        as [-> | [-> | [[q ->] | [[w' ->] | [id ->]]]]]; cbn [invoke_ws];
        rewrite ?end__run, ?onErr_run, ?update_open_run; cbn [state_of fst snd].
      * exact Hs'.
      * exact Hs'.
      * exact Hs'.
      * apply opens_alter_settled, Hs'.
      * exact Hs'.
    + intros s' Ho'. cbn [invoke_ws]. rewrite update_open_run. cbn [state_of fst snd].
      apply (opens_alter_settles _ _ o); assumption.
    + destruct (for_each _ _ (set_readyState CLOSED s)) as [[o1 s1] t1].
      cbn in E1, E2. subst o1. exact E2.
Qed.

(** *** Frames with another tag *)

Lemma keeps_wait_refl env q w s : keeps_wait env q w s s.
Proof. intros H; exact H. Qed.

Lemma keeps_wait_trans env q w s1 s2 s3 :
  keeps_wait env q w s1 s2 -> keeps_wait env q w s2 s3 -> keeps_wait env q w s1 s3.
Proof. intros H12 H23 H. apply H23, H12, H. Qed.

Lemma phoneConnectionListener_keeps_waits json (s : State) :
  waits (state_of (phoneConnectionListener json s)) = waits s.
Proof.
  unfold phoneConnectionListener.
  destruct json; try reflexivity;
    (destruct (negb (truthy _)); [| reflexivity]);
    rewrite run_bind, end__run; destruct s; reflexivity.
Qed.

Lemma cmdDisconnectListener_keeps_waits json (s : State) :
  waits (state_of (cmdDisconnectListener json s)) = waits s.
Proof.
  unfold cmdDisconnectListener.
  destruct json; try reflexivity;
    (destruct (get_index _ 1); try reflexivity);
    rewrite end__run; destruct s; reflexivity.
Qed.

Lemma exitQueryListener_keeps_waits env q json (s : State) :
  waits (state_of (exitQueryListener env q json s)) = waits s.
Proof.
  unfold exitQueryListener.
  destruct json; try reflexivity; rewrite run_ret;
    (destruct (truthy _); [| reflexivity]);
    unfold when, set_timer, off; rewrite run_modify;
    cbv beta iota delta [modify state_of fst snd];
    destruct (remove_last _ _); destruct s; reflexivity.
Qed.

Lemma invoke_socketEvents_other env l a q (s : State) :
  l <> OnRecv q ->
  waits (state_of (invoke_socketEvents env l a s)) !! q = waits s !! q.
Proof.
  intros Hne. destruct l; cbn [invoke_socketEvents]; try reflexivity.
  - rewrite phoneConnectionListener_keeps_waits. reflexivity.
  - rewrite cmdDisconnectListener_keeps_waits. reflexivity.
  - rewrite onRecv_run. cbn [state_of fst snd]. apply waits_alter_other. congruence.
  - rewrite exitQueryListener_keeps_waits. reflexivity.
Qed.

Lemma invoke_socketEvents_well_formed env l a (s : State) :
  well_formed env s -> well_formed env (state_of (invoke_socketEvents env l a s)).
Proof.
  revert s.
  refine (invoke_socketEvents_leads env (fun s s' => well_formed env s -> well_formed env s')
            _ _ _ _ _ _ _ l a).
  - intros s H; exact H.
  - intros s1 s2 s3 H12 H23 H. apply H23, H12, H.
  - intros s em event l' _. apply well_formed_off.
  - intros s t _. apply well_formed_same; destruct s; reflexivity.
  - intros s t _. apply well_formed_same; destruct s; reflexivity.
  - intros s q f. apply well_formed_wait_update.
  - intros s. apply well_formed_ended.
Qed.

Lemma for_each_leads (R : State -> State -> Prop) (invoke : listener -> arg -> M unit)
    em event a (ls : list listener) :
  (forall s, R s s) ->
  (forall s1 s2 s3, R s1 s2 -> R s2 s3 -> R s1 s3) ->
  (forall l s, l ∈ ls -> R s (state_of (invoke l a s))) ->
  leads R (for_each ls (fun l => tell (Invoke em event l a) ;; invoke l a)).
Proof.
  intros Hrefl Htrans. induction ls as [|l ls IH]; intros H s; [apply Hrefl |].
  cbn [for_each]. rewrite run_bind, run_tell.
  pose proof (H l s (list_elem_of_here _ _)) as Hl.
  destruct (invoke l a s) as [[[[]|e] s1] t1]; cbn [outcome_of state_of effects_of fst snd] in *;
    [| exact Hl].
  specialize (IH (fun l s H' => H l s (list_elem_of_further _ _ _ H')) s1).
  destruct (for_each ls _ s1) as [[o2 s2] t2]. cbn [state_of fst snd] in *.
  eapply Htrans; eassumption.
Qed.

Lemma socketEvents_emit_other env event a q w :
  event <> "TAG:" +:+ w_tag w ->
  leads (keeps_wait env q w) (socketEvents_emit env event a).
Proof.
  intros Hev s [Hwf Hw]. unfold socketEvents_emit, emit. rewrite run_get.
  assert (OnRecv q ∉ listeners SocketEvents event s) as Hnot.
  { intros Hin. apply (proj2 Hwf) in Hin.
    inversion Hin as [ | | | | | | q' w' Hw' E | | | | | | | ]; subst.
    rewrite Hw in Hw'. injection Hw' as <-. congruence. }
  rewrite run_bind.
  pose proof (for_each_leads (keeps_wait env q w) (invoke_socketEvents env)
                SocketEvents event a (listeners SocketEvents event s)
                (keeps_wait_refl env q w) (keeps_wait_trans env q w)) as H.
  destruct (for_each (listeners SocketEvents event s) _ s) as [[[[]|e] s1] t1] eqn:E;
    cbn [state_of fst snd];
    specialize (H (fun l s' Hl Hs' =>
      conj (invoke_socketEvents_well_formed env l a s' (proj1 Hs'))
           (eq_trans (invoke_socketEvents_other env l a q s'
                        (fun El => Hnot (eq_ind l (fun x => x ∈ _) Hl _ El)))
                     (proj2 Hs'))) s (conj Hwf Hw));
    rewrite E in H; exact H.
Qed.

Section OtherTags.

Context (env : Env).
Context (tag_prefix : DEF_TAG_PREFIX env = "TAG:").
Context (callback_prefix : forall x t, DEF_CALLBACK_PREFIX env +:+ x <> "TAG:" +:+ t).
Context (q : nat) (w : Wait).

Lemma emit_keys_other l0 l2 l1 json keys any :
  leads (keeps_wait env q w) (emit_keys env l0 l2 l1 json keys any).
Proof.
  revert any. induction keys as [|key keys IH]; intros any; cbn [emit_keys].
  - apply leads_ret, keeps_wait_refl.
  - repeat (apply leads_bind;
            [apply keeps_wait_trans
            | apply socketEvents_emit_other, callback_prefix | intros ?]).
    apply IH.
Qed.

Lemma dispatch_other tag json :
  tag <> w_tag w -> leads (keeps_wait env q w) (dispatch env tag json).
Proof.
  intros Htag. unfold dispatch.
  apply leads_bind; [apply keeps_wait_trans | | intros _].
  { apply leads_when; [apply keeps_wait_refl | apply leads_tell, keeps_wait_refl]. }
  apply leads_bind; [apply keeps_wait_trans | | intros t0].
  { apply socketEvents_emit_other. rewrite tag_prefix. intros E.
    apply Htag. injection E as E. exact E. }
  apply leads_bind; [apply keeps_wait_trans | apply emit_keys_other | intros t1].
  apply leads_bind;
    [apply keeps_wait_trans | apply socketEvents_emit_other, callback_prefix | intros t2].
  apply leads_bind;
    [apply keeps_wait_trans | apply socketEvents_emit_other, callback_prefix | intros t3].
  apply leads_when; [apply keeps_wait_refl | apply leads_tell, keeps_wait_refl].
Qed.

Lemma onMessageRecieved_other message :
  forall s,
    (forall json, decodeWAMessage env message (authInfo s) <> Decoded (w_tag w) json) ->
    keeps_wait env q w s (state_of (onMessageRecieved env message s)).
Proof.
  intros s Hdec Hs. unfold onMessageRecieved.
  destruct (strict_eq (data_first message) (JStr "!")).
  - rewrite run_modify.
    assert (leads (keeps_wait env q w) (socketEvents_emit env "received-pong" ArgNone ;; mret tt)) as H.
    { apply leads_bind; [apply keeps_wait_trans | | intros _; apply leads_ret, keeps_wait_refl].
      apply socketEvents_emit_other. discriminate. }
    apply H. destruct Hs as [Hwf Hw]. split; [| destruct s; exact Hw].
    revert Hwf. apply well_formed_same; destruct s; reflexivity.
  - rewrite run_get, run_tell. cbn [state_of fst snd].
    destruct (decodeWAMessage env message (authInfo s)) as [e | tag json] eqn:E.
    + rewrite end__run. cbn [fst snd]. destruct Hs as [Hwf Hw].
      split; [apply well_formed_ended, Hwf | destruct s; exact Hw].
    + destruct (negb (truthy json)); [exact Hs |].
      apply (dispatch_other tag json); [| exact Hs].
      intros ->. apply (Hdec json). reflexivity.
Qed.

End OtherTags.

(** X12.  Only a frame that carries the tag of a wait can resolve it.
    On a socket in any state it can reach, with the prefix [TAG:] on the
    tag channel and a prefix on the callback channels that keeps them
    apart from it, a frame that does not decode to the tag a call of
    [waitForMessage] waits for -- a response to another request, a pong,
    a frame without payload or one that does not decode -- leaves the
    record of this call as it is, whatever listeners it reaches. *)
Theorem other_frames_leave_wait (env : Env) (s : State) (message : Data)
    (q : nat) (w : Wait) :
  reachable env s ->
  DEF_TAG_PREFIX env = "TAG:" ->
  (forall x t, DEF_CALLBACK_PREFIX env +:+ x <> "TAG:" +:+ t) ->
  waits s !! q = Some w ->
  (forall json, decodeWAMessage env message (authInfo s) <> Decoded (w_tag w) json) ->
  waits (state_of (onMessageRecieved env message s)) !! q = Some w.
Proof.
  intros Hreach Hprefix Hcallback Hw Hdec.
  apply (onMessageRecieved_other env Hprefix Hcallback q w message s Hdec).
  split; [apply reachable_well_formed, Hreach | exact Hw].
Qed.

Lemma response_resolves_wait_witness :
  let s := fst (run sampleEnv [WsOpened; WaitForMessage "3.--0" false None]
                  (makeSocket sampleEnv)) in
  let w := mkWait "3.--0" false (Some (OnRecv 0)) (Some (OnErr 0)) false None None false in
  let json := JArr [JStr "pong"; JBool true] in
  (reachable sampleEnv s
   /\ decodeWAMessage sampleEnv (DStr "3.--0,pong") (authInfo s) = Decoded "3.--0" json
   /\ OnRecv 0 ∈ listeners SocketEvents "TAG:3.--0" s
   /\ waits s !! 0%nat = Some w)
  /\ settled_as 0 (inr json) (state_of (onMessageRecieved sampleEnv (DStr "3.--0,pong") s)).
Proof.
  cbv zeta.
  assert (reachable sampleEnv
            (fst (run sampleEnv [WsOpened; WaitForMessage "3.--0" false None]
                    (makeSocket sampleEnv)))) as Hreach
    by (eexists; reflexivity).
  assert (forall A (x : A), In x [x]) as Hin by (intros A x; left; reflexivity).
  split; [split; [exact Hreach | split; [vm_compute; reflexivity | split;
    [apply list_elem_of_In; vm_compute; apply Hin | vm_compute; reflexivity]]] |].
  apply (response_resolves_wait sampleEnv _ (DStr "3.--0,pong") "3.--0"
           (JArr [JStr "pong"; JBool true]) 0%nat
           (mkWait "3.--0" false (Some (OnRecv 0)) (Some (OnErr 0)) false None None false)).
  - exact Hreach.
  - reflexivity.
  - intros t. discriminate.
  - reflexivity.
  - vm_compute. reflexivity.
  - reflexivity.
  - apply list_elem_of_In. vm_compute. apply Hin.
  - vm_compute. reflexivity.
  - reflexivity.
Defined.


Lemma transport_settles_waitForSocketOpen_witness :
  let s := fst (run sampleEnv [WaitForSocketOpen] (makeSocket sampleEnv)) in
  (reachable sampleEnv s /\ opens s !! 0%nat = Some (mkOpenWait None false)
   /\ readyState s = CONNECTING
   /\ OpenOnOpen 0 ∈ listeners Ws "open" s /\ OpenOnClose 0 ∈ listeners Ws "close" s)
  /\ open_settled_as 0 (inr tt) (state_of (step sampleEnv WsOpened s))
  /\ open_settled_as 0 (inl (Some (EValue (JNum 1006))))
       (state_of (step sampleEnv (WsClosed 1006) s)).
Proof.
  cbv zeta.
  assert (reachable sampleEnv (fst (run sampleEnv [WaitForSocketOpen] (makeSocket sampleEnv))))
    as Hreach by (eexists; reflexivity).
  assert (OpenOnOpen 0 ∈ listeners Ws "open"
            (fst (run sampleEnv [WaitForSocketOpen] (makeSocket sampleEnv)))) as Hopen
    by (apply list_elem_of_In; vm_compute; right; left; reflexivity).
  assert (OpenOnClose 0 ∈ listeners Ws "close"
            (fst (run sampleEnv [WaitForSocketOpen] (makeSocket sampleEnv)))) as Hclose
    by (apply list_elem_of_In; vm_compute; right; left; reflexivity).
  split; [split; [exact Hreach | split; [vm_compute; reflexivity | split;
    [vm_compute; reflexivity | split; assumption]]] |].
  destruct (transport_settles_waitForSocketOpen sampleEnv _ 0%nat (mkOpenWait None false)
              Hreach) as [H1 H2]; [vm_compute; reflexivity | reflexivity |].
  split.
  - apply H1; [vm_compute; reflexivity | exact Hopen].
  - exact (H2 1006 Hclose).
Defined.

Lemma other_frames_leave_wait_witness :
  let s := fst (run sampleEnv [WsOpened; WaitForMessage "3.--0" false None]
                  (makeSocket sampleEnv)) in
  let w := mkWait "3.--0" false (Some (OnRecv 0)) (Some (OnErr 0)) false None None false in
  (reachable sampleEnv s /\ waits s !! 0%nat = Some w
   /\ decodeWAMessage sampleEnv (DStr "3.--1,pong") (authInfo s)
      = Decoded "3.--1" (JArr [JStr "pong"; JBool true]))
  /\ waits (state_of (onMessageRecieved sampleEnv (DStr "3.--1,pong") s)) !! 0%nat = Some w.
Proof.
  cbv zeta.
  assert (reachable sampleEnv
            (fst (run sampleEnv [WsOpened; WaitForMessage "3.--0" false None]
                    (makeSocket sampleEnv)))) as Hreach
    by (eexists; reflexivity).
  assert (decodeWAMessage sampleEnv (DStr "3.--1,pong")
            (authInfo (fst (run sampleEnv [WsOpened; WaitForMessage "3.--0" false None]
                              (makeSocket sampleEnv))))
          = Decoded "3.--1" (JArr [JStr "pong"; JBool true])) as Hdec
    by (vm_compute; reflexivity).
  split; [split; [exact Hreach | split; [vm_compute; reflexivity | exact Hdec]] |].
  apply (other_frames_leave_wait sampleEnv _ (DStr "3.--1,pong") 0%nat
           (mkWait "3.--0" false (Some (OnRecv 0)) (Some (OnErr 0)) false None None false)).
  - exact Hreach.
  - reflexivity.
  - intros x t. discriminate.
  - vm_compute. reflexivity.
  - intros json. rewrite Hdec. cbn [w_tag]. intros H. discriminate H.
Defined.

(** *** What a call of [waitForMessage] registers *)

Lemma waitForMessage_run env tag rp tm (s : State) :
  waitForMessage env tag rp tm s = (Ret (nextId s), awaiting env tag rp tm s, []).
Proof.
  unfold waitForMessage, awaiting, promiseTimeout, exitQueryIfResponseNotExpected,
    startPhoneCheckInterval, timer_on.
  generalize ("TAG:" +:+ tag). generalize "close" "error". intros c e tg.
  destruct s as [ep ld au pi pl rs wl se ti wa op qu ni].
  destruct rp; destruct (match tm with Some ms => negb (ms =? 0) | None => false end);
    try destruct pi; exec; rewrite ?lookup_insert_eq; reflexivity.
Qed.

Lemma awaiting_wait env tag rp tm (s : State) :
  waits (awaiting env tag rp tm s) !! nextId s = Some (pending_wait tag rp (nextId s)).
Proof.
  unfold awaiting, pending_wait, startPhoneCheckInterval, timer_on.
  generalize ("TAG:" +:+ tag). generalize "close" "error". intros c e tg.
  destruct s as [ep ld au pi pl rs wl se ti wa op qu ni].
  destruct rp; destruct (match tm with Some ms => negb (ms =? 0) | None => false end);
    try destruct pi; exec; rewrite !lookup_alter_eq, lookup_insert_eq; reflexivity.
Qed.

Lemma awaiting_waits_other env tag rp tm (s : State) q :
  q <> nextId s -> waits (awaiting env tag rp tm s) !! q = waits s !! q.
Proof.
  intros Hq. unfold awaiting, startPhoneCheckInterval, timer_on.
  generalize ("TAG:" +:+ tag). generalize "close" "error". intros c e tg.
  destruct s as [ep ld au pi pl rs wl se ti wa op qu ni].
  cbv beta iota delta [nextId] in Hq.
  destruct rp; destruct (match tm with Some ms => negb (ms =? 0) | None => false end);
    try destruct pi; exec;
    rewrite ?lookup_alter_ne by congruence; rewrite lookup_insert_ne by congruence;
    reflexivity.
Qed.

Lemma awaiting_fields env tag rp tm (s : State) :
  let s' := awaiting env tag rp tm s in
  epoch s' = epoch s /\ authInfo s' = authInfo s /\ lastDateRecv s' = lastDateRecv s
  /\ readyState s' = readyState s /\ queries s' = queries s /\ opens s' = opens s
  /\ nextId s' = S (nextId s)
  /\ phoneCheckListeners s' = phoneCheckListeners s + (if rp then 1 else 0).
Proof.
  cbv zeta. unfold awaiting, startPhoneCheckInterval, timer_on.
  generalize ("TAG:" +:+ tag). generalize "close" "error". intros c e tg.
  destruct s as [ep ld au pi pl rs wl se ti wa op qu ni].
  destruct rp; destruct (match tm with Some ms => negb (ms =? 0) | None => false end);
    try destruct pi; exec; repeat split; lia.
Qed.

Lemma listeners_on_app em event l em' event' (s : State) :
  listeners em' event' (state_of (on em event l s))
  = listeners em' event' s
    ++ (if decide (em = em' /\ event = event') then [l] else []).
Proof.
  rewrite listeners_on. destruct (decide _) as [[<- <-] |]; [reflexivity |].
  symmetry. apply app_nil_r.
Qed.

Lemma listeners_update_wait em event q f (s : State) :
  listeners em event (state_of (update_wait q f s)) = listeners em event s.
Proof. destruct s, em; reflexivity. Qed.

Lemma listeners_set_timer em event t (s : State) :
  listeners em event (state_of (set_timer t s)) = listeners em event s.
Proof. destruct s, em; reflexivity. Qed.

Lemma listeners_clear_timer em event t (s : State) :
  listeners em event (state_of (clear_timer t s)) = listeners em event s.
Proof. destruct s, em; reflexivity. Qed.

Lemma listeners_startPhoneCheckInterval em event (s : State) :
  listeners em event (state_of (startPhoneCheckInterval s)) = listeners em event s.
Proof.
  rewrite startPhoneCheckInterval_run.
  destruct s as [ep ld au pi pl rs wl se ti wa op qu ni]. destruct pi, em; reflexivity.
Qed.

Lemma listeners_clearPhoneCheckInterval em event (s : State) :
  listeners em event (state_of (clearPhoneCheckInterval s)) = listeners em event s.
Proof.
  rewrite clearPhoneCheckInterval_run. cbv beta iota delta [state_of fst snd].
  destruct (_ <=? _); destruct s, em; reflexivity.
Qed.

(** The listeners after the call: those before it and, at the end, those
    of the call. *)
Lemma awaiting_listeners env tag rp tm (s : State) em event :
  listeners em event (awaiting env tag rp tm s)
  = listeners em event s
    ++ (if decide (SocketEvents = em /\ PHONE_CONNECTION_CB env = event)
        then if rp then [ExitQueryListener (nextId s)] else [] else [])
    ++ (if decide (SocketEvents = em /\ "TAG:" +:+ tag = event)
        then [OnRecv (nextId s)] else [])
    ++ (if decide (Ws = em /\ "close" = event) then [OnErr (nextId s)] else [])
    ++ (if decide (Ws = em /\ "error" = event) then [OnErr (nextId s)] else []).
Proof.
  unfold awaiting. cbv zeta.
  rewrite !listeners_on_app, !listeners_update_wait.
  assert (forall s0, listeners em event
                       (if timer_on tm then state_of (set_timer (WaitTimeout (nextId s)) s0)
                        else s0)
                     = listeners em event s0) as Htim
    by (intros s0; destruct (timer_on tm); [apply listeners_set_timer | reflexivity]).
  rewrite Htim.
  match goal with
  | |- context [listeners em event (if rp then ?a else ?b)] =>
      assert (listeners em event (if rp then a else b)
              = listeners em event s
                ++ (if decide (SocketEvents = em /\ PHONE_CONNECTION_CB env = event)
                    then if rp then [ExitQueryListener (nextId s)] else [] else []))
        as Hphone
  end.
  { destruct rp.
    - rewrite listeners_update_wait, listeners_on_app, listeners_update_wait,
        listeners_startPhoneCheckInterval.
      reflexivity.
    - destruct (decide _); rewrite app_nil_r;
        destruct s as [ep ld au pi pl rs wl se ti wa op qu ni], em; reflexivity. }
  rewrite Hphone, <- !app_assoc. reflexivity.
Qed.

(** *** [waitForMessage] undoes its registrations *)

Lemma remove_first_here l ls : remove_first l (l :: ls) = ls.
Proof. cbn [remove_first]. destruct (decide (l = l)); [reflexivity | congruence]. Qed.

Lemma remove_last_snoc l ls : remove_last l (ls ++ [l]) = ls.
Proof.
  unfold remove_last. rewrite rev_app_distr. cbn [rev app].
  rewrite remove_first_here. apply rev_involutive.
Qed.

Lemma remove_first_other l x ls : x <> l -> remove_first l (x :: ls) = x :: remove_first l ls.
Proof. intros H. cbn [remove_first]. destruct (decide (x = l)); [congruence | reflexivity]. Qed.

Lemma remove_last_snoc_other l x ls :
  x <> l -> remove_last l (ls ++ [x]) = remove_last l ls ++ [x].
Proof.
  intros H. unfold remove_last. rewrite rev_app_distr. cbn [rev app].
  rewrite remove_first_other by exact H. reflexivity.
Qed.

Lemma run_seq {B} (m : M unit) (k : M B) (s : State) :
  m s = (Ret tt, state_of (m s), []) -> (m ;; k) s = k (state_of (m s)).
Proof.
  intros H. rewrite run_bind. destruct (m s) as [[o s1] t1].
  cbn [state_of fst snd] in *. injection H as -> ->.
  destruct (k s1) as [[o2 s2] t2]. reflexivity.
Qed.

Lemma off_total em event l (s : State) :
  off em event l s = (Ret tt, state_of (off em event l s), []).
Proof. reflexivity. Qed.

Lemma clear_timer_total t (s : State) :
  clear_timer t s = (Ret tt, state_of (clear_timer t s), []).
Proof. reflexivity. Qed.

Lemma update_wait_total q f (s : State) :
  update_wait q f s = (Ret tt, state_of (update_wait q f s), []).
Proof. reflexivity. Qed.

Lemma clearPhoneCheckInterval_total (s : State) :
  clearPhoneCheckInterval s = (Ret tt, state_of (clearPhoneCheckInterval s), []).
Proof. rewrite clearPhoneCheckInterval_run. reflexivity. Qed.

Lemma cancelPhoneChecker_total env q (s : State) :
  cancelPhoneChecker env q s
  = (Ret tt,
     state_of (clear_timer (ExitQueryTimeout q)
       (state_of (off SocketEvents (PHONE_CONNECTION_CB env) (ExitQueryListener q) s))),
     []).
Proof. reflexivity. Qed.

Lemma waitForMessage_finally_run env q w (s : State) :
  waits s !! q = Some w ->
  w_onRecv w = Some (OnRecv q) -> w_onErr w = Some (OnErr q) ->
  waitForMessage_finally env q s = (Ret tt, finished env q w s, []).
Proof.
  intros Hw Hr He. unfold waitForMessage_finally, finished.
  rewrite run_get, Hw, Hr, He. cbn [off_var].
  generalize ("TAG:" +:+ w_tag w). generalize "close" "error". intros c e tg.
  assert (forall b (m : M unit) s0,
            m s0 = (Ret tt, state_of (m s0), []) ->
            when b m s0 = (Ret tt, state_of (when b m s0), [])) as Hwhen
    by (intros [] m s0 H; [exact H | reflexivity]).
  rewrite run_seq by apply Hwhen, clearPhoneCheckInterval_total.
  rewrite run_seq
    by (apply Hwhen; rewrite cancelPhoneChecker_total; reflexivity).
  rewrite !run_seq by reflexivity.
  destruct (w_requiresPhoneConnection w), (w_cancelPhoneChecker w); reflexivity.
Qed.

Lemma listeners_off_same em event l em' event' (s : State) :
  listeners em' event' (state_of (off em event l s))
  = if decide (em = em' /\ event = event') then remove_last l (listeners em' event' s)
    else listeners em' event' s.
Proof.
  rewrite listeners_off. destruct (decide _) as [[<- <-] |]; reflexivity.
Qed.

Lemma settle_by_run e q (s : State) :
  settle_by e q s
  = (Ret tt,
     set_timers (timers s ∖ {[WaitTimeout q]})
       (set_waits (alter (settle_wait (exit_result e)) q (waits s)) s), []).
Proof. destruct e, s; reflexivity. Qed.

Lemma settled_fields r tag rp q :
  let w := settle_wait r (pending_wait tag rp q) in
  w_tag w = tag /\ w_requiresPhoneConnection w = rp /\ w_cancelPhoneChecker w = rp
  /\ w_onRecv w = Some (OnRecv q) /\ w_onErr w = Some (OnErr q)
  /\ w_settled w = Some r.
Proof. repeat split. Qed.

Lemma finished_listeners env q w (s : State) em event :
  listeners em event (finished env q w s)
  = let l1 := listeners em event s in
    let l2 := if w_cancelPhoneChecker w
              then if decide (SocketEvents = em /\ PHONE_CONNECTION_CB env = event)
                   then remove_last (ExitQueryListener q) l1 else l1
              else l1 in
    let l3 := if decide (SocketEvents = em /\ "TAG:" +:+ w_tag w = event)
              then remove_last (OnRecv q) l2 else l2 in
    let l4 := if decide (Ws = em /\ "close" = event)
              then remove_last (OnErr q) l3 else l3 in
    if decide (Ws = em /\ "error" = event) then remove_last (OnErr q) l4 else l4.
Proof.
  unfold finished. cbv zeta.
  rewrite listeners_update_wait, !listeners_off_same.
  destruct (w_cancelPhoneChecker w), (w_requiresPhoneConnection w);
    rewrite ?listeners_clear_timer, ?listeners_off_same,
      ?listeners_clearPhoneCheckInterval; reflexivity.
Qed.


(** *** Queries and their waits *)

Lemma chosen_tag_not_empty env tag longTag (s : State) :
  String.eqb (chosen_tag env tag longTag s) "" = false.
Proof.
  unfold chosen_tag, tag_supplied.
  destruct tag as [t|]; [destruct (String.eqb t "") eqn:E |]; cbn [negb default];
    try exact E;
    destruct (pretty (if longTag then _ else _)); reflexivity.
Qed.

Lemma nextId_after_tag tag (s : State) : nextId (after_tag tag s) = nextId s.
Proof. unfold after_tag. destruct (tag_supplied tag); destruct s; reflexivity. Qed.

(** [query] up to the call of [sendMessage], and the call. *)
Lemma query_run env o (s : State) :
  let tag := chosen_tag env (qo_tag o) (qo_longTag o) s in
  let r := sendMessage env (mkSendOptions (qo_json o) (qo_binaryTag o) (Some tag) false)
             (querying env o s) in
  state_of (query env o s) = querying env o s
  /\ outcome_of (query env o s)
     = match outcome_of r with Ret _ => Ret (nextId s) | Thrown e => Thrown e end
  /\ List.filter is_WsSend (effects_of (query env o s))
     = List.filter is_WsSend (effects_of r).
Proof.
  cbv zeta. unfold query. rewrite run_bind, tag_or_generate_run.
  rewrite run_bind, waitForMessage_run, nextId_after_tag, run_modify.
  fold (querying env o s).
  set (tag := chosen_tag env (qo_tag o) (qo_longTag o) s).
  assert (state_of (sendMessage env
                      (mkSendOptions (qo_json o) (qo_binaryTag o) (Some tag) false)
                      (querying env o s)) = querying env o s) as Hstate.
  { unfold sendMessage. rewrite run_bind, tag_or_generate_run.
    cbn [sm_tag sm_longTag sm_binaryTag sm_json].
    unfold after_tag, tag_supplied. subst tag. rewrite chosen_tag_not_empty.
    cbn [negb]. unfold sendRawMessage, when.
    destruct (String.eqb (loggerLevel env) "trace"); destruct (qo_binaryTag o);
      try destruct (negb (instanceof_BinaryNode (qo_json o)));
      cbv beta iota zeta delta [mbind M_bind mret M_ret get_state tell throw
                                state_of fst snd];
      try destruct (authInfo (querying env o s));
      destruct (ReadyState_eqb (readyState (querying env o s)) OPEN); reflexivity. }
  rewrite run_bind.
  destruct (sendMessage env _ (querying env o s)) as [[[t|e] s2] t2];
    cbn [state_of outcome_of effects_of fst snd] in *; subst s2.
  - repeat split. cbv beta iota zeta delta [mret M_ret effects_of fst snd].
    rewrite !List.filter_app.
    destruct (tag_supplied (qo_tag o)); cbn [List.filter is_WsSend app];
      rewrite ?app_nil_r; reflexivity.
  - repeat split. cbv beta iota zeta delta [effects_of fst snd].
    rewrite !List.filter_app.
    destruct (tag_supplied (qo_tag o)); cbn [List.filter is_WsSend app];
      rewrite ?app_nil_r; reflexivity.
Qed.

Lemma querying_wait env o (s : State) :
  waits (querying env o s) !! nextId s
  = Some (pending_wait (chosen_tag env (qo_tag o) (qo_longTag o) s)
            (qo_requiresPhoneConnection o) (nextId s)).
Proof.
  unfold querying. cbv zeta.
  pose proof (awaiting_wait env (chosen_tag env (qo_tag o) (qo_longTag o) s)
                (qo_requiresPhoneConnection o) (qo_timeoutMs o) (after_tag (qo_tag o) s))
    as H.
  rewrite nextId_after_tag in H. revert H.
  generalize (awaiting env (chosen_tag env (qo_tag o) (qo_longTag o) s)
                (qo_requiresPhoneConnection o) (qo_timeoutMs o) (after_tag (qo_tag o) s)).
  intros s1 H. destruct s1; exact H.
Qed.

Lemma querying_query env o (s : State) :
  queries (querying env o s) !! nextId s = Some (mkQuery (qo_json o) (qo_expect200 o)).
Proof.
  unfold querying. cbv zeta.
  generalize (awaiting env (chosen_tag env (qo_tag o) (qo_longTag o) s)
                (qo_requiresPhoneConnection o) (qo_timeoutMs o) (after_tag (qo_tag o) s)).
  intros s1. destruct s1 as [ep ld au pi pl rs wl se ti wa op qu ni].
  cbv beta iota delta [queries set_queries]. apply lookup_insert_eq.
Qed.

Lemma querying_listeners env o (s : State) em event :
  listeners em event (querying env o s)
  = listeners em event
      (awaiting env (chosen_tag env (qo_tag o) (qo_longTag o) s)
         (qo_requiresPhoneConnection o) (qo_timeoutMs o) (after_tag (qo_tag o) s)).
Proof.
  unfold querying. cbv zeta.
  generalize (awaiting env (chosen_tag env (qo_tag o) (qo_longTag o) s)
                (qo_requiresPhoneConnection o) (qo_timeoutMs o) (after_tag (qo_tag o) s)).
  intros s1. destruct s1, em; reflexivity.
Qed.

Lemma listeners_after_tag tag (s : State) em event :
  listeners em event (after_tag tag s) = listeners em event s.
Proof. unfold after_tag. destruct (tag_supplied tag); destruct s, em; reflexivity. Qed.

Lemma querying_registered env o (s : State) :
  OnRecv (nextId s)
    ∈ listeners SocketEvents ("TAG:" +:+ chosen_tag env (qo_tag o) (qo_longTag o) s)
        (querying env o s)
  /\ OnErr (nextId s) ∈ listeners Ws "close" (querying env o s)
  /\ OnErr (nextId s) ∈ listeners Ws "error" (querying env o s).
Proof.
  rewrite !querying_listeners, !awaiting_listeners, !nextId_after_tag.
  repeat split.
  - destruct (decide (SocketEvents = SocketEvents /\ _ = _)) as [|n] at 2;
      [| exfalso; apply n; split; reflexivity].
    rewrite !elem_of_app. right. right. left. apply list_elem_of_here.
  - destruct (decide (Ws = Ws /\ "close" = "close")) as [|n];
      [| exfalso; apply n; split; reflexivity].
    rewrite !elem_of_app. right. right. right. left. apply list_elem_of_here.
  - destruct (decide (Ws = Ws /\ "error" = "error")) as [|n];
      [| exfalso; apply n; split; reflexivity].
    rewrite !elem_of_app. right. right. right. right. apply list_elem_of_here.
Qed.

Lemma querying_count env o (s : State) :
  phoneCheckListeners (querying env o s)
  = phoneCheckListeners s + (if qo_requiresPhoneConnection o then 1 else 0).
Proof.
  unfold querying. cbv zeta.
  pose proof (awaiting_fields env (chosen_tag env (qo_tag o) (qo_longTag o) s)
                (qo_requiresPhoneConnection o) (qo_timeoutMs o) (after_tag (qo_tag o) s))
    as H.
  cbv zeta in H. destruct H as (_ & _ & _ & _ & _ & _ & _ & H).
  replace (phoneCheckListeners (after_tag (qo_tag o) s)) with (phoneCheckListeners s) in H
    by (unfold after_tag; destruct (tag_supplied _); destruct s; reflexivity).
  revert H.
  generalize (awaiting env (chosen_tag env (qo_tag o) (qo_longTag o) s)
                (qo_requiresPhoneConnection o) (qo_timeoutMs o) (after_tag (qo_tag o) s)).
  intros s1 H. destruct s1; exact H.
Qed.



(** *** A query and its response *)

Lemma keeps_queries_refl s : keeps_queries s s.
Proof. reflexivity. Qed.

Lemma keeps_queries_trans s1 s2 s3 :
  keeps_queries s1 s2 -> keeps_queries s2 s3 -> keeps_queries s1 s3.
Proof. unfold keeps_queries. congruence. Qed.

Lemma keeps_queries_date s v : keeps_queries s (set_lastDateRecv v s).
Proof. destruct s; reflexivity. Qed.

Lemma keeps_queries_off s em event l :
  removes s l -> keeps_queries s (state_of (off em event l s)).
Proof.
  intros _. unfold off, keeps_queries. cbv beta iota delta [modify state_of fst snd].
  destruct (remove_last _ _); destruct s, em; reflexivity.
Qed.

Lemma keeps_queries_set_timer s t :
  t <> PhoneCheckInterval -> keeps_queries s (state_of (set_timer t s)).
Proof. intros _. destruct s; reflexivity. Qed.

Lemma keeps_queries_clear_timer s t :
  t <> PhoneCheckInterval -> keeps_queries s (state_of (clear_timer t s)).
Proof. intros _. destruct s; reflexivity. Qed.

Lemma keeps_queries_wait_update s q f :
  wait_update f -> keeps_queries s (state_of (update_wait q f s)).
Proof. intros _. destruct s; reflexivity. Qed.

Lemma keeps_queries_clear s : keeps_queries s (state_of (clearPhoneCheckInterval s)).
Proof.
  rewrite clearPhoneCheckInterval_run. unfold keeps_queries.
  cbv beta iota delta [state_of fst snd]. destruct (_ <=? _); destruct s; reflexivity.
Qed.

Lemma keeps_queries_ended s : keeps_queries s (ended s).
Proof. destruct s; reflexivity. Qed.

Ltac keeps_queries_facts :=
  first
    [ exact keeps_queries_refl | exact keeps_queries_trans
    | exact keeps_queries_date | exact keeps_queries_off
    | exact keeps_queries_set_timer | exact keeps_queries_clear_timer
    | exact keeps_queries_wait_update | exact keeps_queries_clear
    | exact keeps_queries_ended ].

Lemma stays_well_formed_refl env s : stays_well_formed env s s.
Proof. intros H; exact H. Qed.

Lemma stays_well_formed_trans env s1 s2 s3 :
  stays_well_formed env s1 s2 -> stays_well_formed env s2 s3 ->
  stays_well_formed env s1 s3.
Proof. intros H12 H23 H. apply H23, H12, H. Qed.

Lemma stays_well_formed_date env s v : stays_well_formed env s (set_lastDateRecv v s).
Proof. unfold stays_well_formed. apply well_formed_same; destruct s; reflexivity. Qed.

Lemma stays_well_formed_off env s em event l :
  removes s l -> stays_well_formed env s (state_of (off em event l s)).
Proof. intros _. unfold stays_well_formed. apply well_formed_off. Qed.

Lemma stays_well_formed_set_timer env s t :
  t <> PhoneCheckInterval -> stays_well_formed env s (state_of (set_timer t s)).
Proof. intros _. unfold stays_well_formed. apply well_formed_same; destruct s; reflexivity. Qed.

Lemma stays_well_formed_clear_timer env s t :
  t <> PhoneCheckInterval -> stays_well_formed env s (state_of (clear_timer t s)).
Proof. intros _. unfold stays_well_formed. apply well_formed_same; destruct s; reflexivity. Qed.

Lemma stays_well_formed_wait_update env s q f :
  wait_update f -> stays_well_formed env s (state_of (update_wait q f s)).
Proof. unfold stays_well_formed. apply well_formed_wait_update. Qed.

Lemma stays_well_formed_ended env s : stays_well_formed env s (ended s).
Proof. unfold stays_well_formed. apply well_formed_ended. Qed.

Ltac stays_well_formed_facts env :=
  first
    [ exact (stays_well_formed_refl env) | exact (stays_well_formed_trans env)
    | exact (stays_well_formed_date env) | exact (stays_well_formed_off env)
    | exact (stays_well_formed_set_timer env) | exact (stays_well_formed_clear_timer env)
    | exact (stays_well_formed_wait_update env) | exact (stays_well_formed_ended env) ].

Lemma run_snoc env acts a (s : State) :
  fst (run env (acts ++ [a]) s) = state_of (step env a (fst (run env acts s))).
Proof.
  revert s. induction acts as [|a' acts IH]; intros s; [reflexivity |].
  cbn [app run fst]. apply IH.
Qed.

Lemma reachable_step env a s : reachable env s -> reachable env (state_of (step env a s)).
Proof. intros [acts ->]. exists (acts ++ [a]). symmetry. apply run_snoc. Qed.

Lemma state_of_call {A} (m : M A) (s : State) : state_of (call m s) = state_of (m s).
Proof.
  unfold call, try_catch. rewrite run_bind.
  destruct (m s) as [[[a|e] s1] t1]; reflexivity.
Qed.

(** X15.  A query gets the payload of the frame that carries its tag.
    On a socket in any state it can reach, with the prefix [TAG:] on the
    tag channel, when a query has been sent and a frame then decodes to
    the tag of the query and a payload, the query continues with this
    payload once the [finally] block of its wait has run: it resolves
    with the payload when the payload has no status, and treats a status
    as [query] does otherwise. *)
Theorem query_gets_its_response (env : Env) (s : State) (o : SocketQueryOptions)
    (q : nat) (message : Data) (json : jsval) :
  reachable env s ->
  DEF_TAG_PREFIX env = "TAG:" ->
  (forall t, PHONE_CONNECTION_CB env <> "TAG:" +:+ t) ->
  outcome_of (query env o s) = Ret q ->
  let s1 := state_of (query env o s) in
  strict_eq (data_first message) (JStr "!") = false ->
  decodeWAMessage env message (authInfo s1)
  = Decoded (chosen_tag env (qo_tag o) (qo_longTag o) s) json ->
  truthy json = true ->
  let s2 := state_of (onMessageRecieved env message s1) in
  let s3 := state_of (waitForMessage_finally env q s2) in
  query_resume env q s3 = query_response env (qo_json o) (qo_expect200 o) json s3
  /\ (truthy (get_prop json "status") = false ->
      outcome_of (query_resume env q s3) = Ret json).
Proof.
  intros Hreach Hprefix Hphone Hout. cbv zeta. intros Hfirst Hdec Hjson.
  destruct (query_run env o s) as (Hstate & Hout' & _). cbv zeta in Hout'.
  assert (q = nextId s) as ->.
  { rewrite Hout' in Hout. destruct (outcome_of (sendMessage _ _ _)); congruence. }
  assert (reachable env (state_of (query env o s))) as Hreach1.
  { rewrite <- (state_of_call (query env o) s). apply (reachable_step env (Query o)), Hreach. }
  pose proof (reachable_well_formed env _ Hreach1) as Hwf1.
  rewrite Hstate in *.
  destruct (querying_registered env o s) as (Hreg & _ & _).
  pose proof (querying_wait env o s) as Hwait.
  pose proof (querying_query env o s) as Hquery.
  set (tag := chosen_tag env (qo_tag o) (qo_longTag o) s) in *.
  set (s1 := querying env o s) in *.
  (* the frame resolves the wait *)
  assert (settled_as (nextId s) (inr json) (state_of (onMessageRecieved env message s1)))
    as Hsettled.
  { unfold onMessageRecieved. rewrite Hfirst, run_get, run_tell, Hdec, Hjson.
    cbn [negb state_of fst snd]. change (snd (fst ?x)) with (state_of x).
    apply (dispatch_resolves env Hprefix Hphone s1 tag json (nextId s)
             (pending_wait tag (qo_requiresPhoneConnection o) (nextId s)));
      try assumption; [apply Hwf1 | apply Hwf1 | reflexivity]. }
  assert (well_formed env (state_of (onMessageRecieved env message s1))) as Hwf2.
  { apply (onMessageRecieved_leads env (stays_well_formed env));
      solve [stays_well_formed_facts env | exact Hwf1]. }
  assert (queries (state_of (onMessageRecieved env message s1)) = queries s1) as Hq2.
  { apply (onMessageRecieved_leads env keeps_queries); keeps_queries_facts. }
  set (s2 := state_of (onMessageRecieved env message s1)) in *.
  (* the [finally] block keeps the outcome and the query *)
  assert (settled_as (nextId s) (inr json)
            (state_of (waitForMessage_finally env (nextId s) s2))) as Hsettled3.
  { apply (keeps_outcome_apply (nextId s) (inr json) s2); [| split; [apply Hwf2 | exact Hsettled]].
    apply (waitForMessage_finally_leads env (keeps_outcome (nextId s) (inr json)));
      keeps_outcome_facts (nextId s) (@inr exn jsval json). }
  assert (queries (state_of (waitForMessage_finally env (nextId s) s2)) = queries s2) as Hq3.
  { apply (waitForMessage_finally_leads env keeps_queries); keeps_queries_facts. }
  set (s3 := state_of (waitForMessage_finally env (nextId s) s2)) in *.
  destruct Hsettled3 as (w3 & Hw3 & Hs3).
  assert (query_resume env (nextId s) s3
          = query_response env (qo_json o) (qo_expect200 o) json s3) as Hresume.
  { apply (query_resume_settled env (nextId s) w3 (mkQuery (qo_json o) (qo_expect200 o)));
      [exact Hw3 | rewrite Hq3, Hq2; exact Hquery | exact Hs3]. }
  split; [exact Hresume |].
  intros Hstatus. rewrite Hresume, query_response_default by assumption. reflexivity.
Qed.

Lemma query_gets_its_response_witness :
  let s := fst (run sampleEnv [WsOpened] (makeSocket sampleEnv)) in
  let o := mkQueryOptions (JArr [JStr "query"; JStr "exist"]) None true None false None false in
  let json := JArr [JStr "ok"; JBool true] in
  let s1 := state_of (query sampleEnv o s) in
  let s2 := state_of (onMessageRecieved sampleEnv (DStr "123.--0,ok") s1) in
  let s3 := state_of (waitForMessage_finally sampleEnv 0 s2) in
  (outcome_of (query sampleEnv o s) = Ret 0%nat
   /\ decodeWAMessage sampleEnv (DStr "123.--0,ok") (authInfo s1) = Decoded "123.--0" json)
  /\ outcome_of (query_resume sampleEnv 0 s3) = Ret json.
Proof.
  cbv zeta.
  assert (outcome_of (query sampleEnv
            (mkQueryOptions (JArr [JStr "query"; JStr "exist"]) None true None false None false)
            (fst (run sampleEnv [WsOpened] (makeSocket sampleEnv)))) = Ret 0%nat) as Hout
    by (vm_compute; reflexivity).
  assert (decodeWAMessage sampleEnv (DStr "123.--0,ok")
            (authInfo (state_of (query sampleEnv
               (mkQueryOptions (JArr [JStr "query"; JStr "exist"]) None true None false None
                  false)
               (fst (run sampleEnv [WsOpened] (makeSocket sampleEnv))))))
          = Decoded "123.--0" (JArr [JStr "ok"; JBool true])) as Hdec
    by (vm_compute; reflexivity).
  split; [split; assumption |].
  refine (proj2 (query_gets_its_response sampleEnv _ _ 0%nat (DStr "123.--0,ok")
                   (JArr [JStr "ok"; JBool true]) _ _ _ Hout _ _ _) _).
  - eexists. reflexivity.
  - reflexivity.
  - intros t. discriminate.
  - reflexivity.
  - rewrite Hdec. f_equal.
  - reflexivity.
  - reflexivity.
Defined.

(** *** The keep-alive interval without pongs *)

Lemma step_tick_quiet env now (s : State) t :
  lastDateRecv s = Some (Some t) ->
  KeepAliveReq ∈ timers s ->
  now - t <= keepAliveIntervalMs env + 5000 ->
  step env (KeepAliveFires now) s = (Ret tt, s, [keep_alive_effect s]).
Proof.
  intros Hd Ht Hle. unfold step, if_armed. rewrite run_get.
  destruct (decide (KeepAliveReq ∈ timers s)) as [_ | n]; [| contradiction].
  unfold task, try_catch. rewrite keepAliveTick_run.
  unfold reference_time, watchdog_state. rewrite Hd. cbn [gtb_number].
  assert ((keepAliveIntervalMs env + 5000 <? now - t) = false) as -> by (apply Z.ltb_ge; lia).
  reflexivity.
Qed.

Lemma step_tick_late env now (s : State) t :
  lastDateRecv s = Some (Some t) ->
  KeepAliveReq ∈ timers s ->
  keepAliveIntervalMs env + 5000 < now - t ->
  state_of (step env (KeepAliveFires now) s) = ended s.
Proof.
  intros Hd Ht Hlt. unfold step, if_armed. rewrite run_get.
  destruct (decide (KeepAliveReq ∈ timers s)) as [_ | n]; [| contradiction].
  unfold task, try_catch. rewrite keepAliveTick_run.
  unfold reference_time, watchdog_state. rewrite Hd. cbn [gtb_number].
  assert ((keepAliveIntervalMs env + 5000 <? now - t) = true) as -> by (apply Z.ltb_lt; lia).
  rewrite end__run. reflexivity.
Qed.

Lemma step_tick_first env now (s : State) :
  lastDateRecv s = None ->
  KeepAliveReq ∈ timers s ->
  Z.abs now <= 8640000000000000 ->
  0 <= keepAliveIntervalMs env + 5000 ->
  state_of (step env (KeepAliveFires now) s) = set_lastDateRecv (Some (Some now)) s.
Proof.
  intros Hd Ht Hnow Hk. unfold step, if_armed. rewrite run_get.
  destruct (decide (KeepAliveReq ∈ timers s)) as [_ | n]; [| contradiction].
  unfold task, try_catch. rewrite keepAliveTick_run.
  unfold reference_time, watchdog_state, new_Date. rewrite Hd.
  assert ((Z.abs now <=? 8640000000000000) = true) as -> by (apply Z.leb_le; exact Hnow).
  cbn [gtb_number].
  assert ((keepAliveIntervalMs env + 5000 <? now - now) = false) as -> by (apply Z.ltb_ge; lia).
  reflexivity.
Qed.

Lemma run_app env acts1 acts2 (s : State) :
  fst (run env (acts1 ++ acts2) s) = fst (run env acts2 (fst (run env acts1 s))).
Proof.
  revert s. induction acts1 as [|a acts1 IH]; intros s; [reflexivity |].
  cbn [app run fst]. apply IH.
Qed.

Lemma ticks_S t0 k n :
  ticks t0 k (S n) = ticks t0 k n ++ [KeepAliveFires (t0 + Z.of_nat (S n) * k)].
Proof.
  unfold ticks. rewrite (seq_S (S n) 0), map_app. reflexivity.
Qed.

(** X16.  Only pongs feed the watchdog.  On a socket whose keep-alive
    interval runs and that has had no pong, the first tick takes its own
    clock as the time of the last pong; while no pong arrives, the ticks
    of the interval -- every [keepAliveIntervalMs] -- pass as long as
    less than 5000 ms beyond one interval have gone by since the first
    tick, and the first tick after that tears the connection down. *)
Theorem keep_alive_without_pongs (env : Env) (s : State) (t0 : Z) (n : nat) :
  lastDateRecv s = None ->
  KeepAliveReq ∈ timers s ->
  Z.abs t0 <= 8640000000000000 ->
  0 <= keepAliveIntervalMs env ->
  (Z.of_nat n - 1) * keepAliveIntervalMs env <= 5000 ->
  let k := keepAliveIntervalMs env in
  let s1 := set_lastDateRecv (Some (Some t0)) s in
  fst (run env (ticks t0 k n) s) = s1
  /\ (5000 < Z.of_nat n * k ->
      fst (run env (ticks t0 k (S n)) s) = ended s1).
Proof.
  intros Hd Ht Ht0 Hk Hn. cbv zeta.
  assert (fst (run env (ticks t0 (keepAliveIntervalMs env) n) s)
          = set_lastDateRecv (Some (Some t0)) s) as Hrun.
  { induction n as [|n IH].
    - unfold ticks. cbn [seq map run fst]. rewrite Z.mul_0_l, Z.add_0_r.
      apply step_tick_first; try assumption. lia.
    - rewrite ticks_S, run_app, IH by nia.
      cbn [run fst].
      rewrite (step_tick_quiet env _ _ t0);
        [reflexivity | destruct s; reflexivity | destruct s; exact Ht | nia]. }
  split; [exact Hrun |].
  intros Hlate. rewrite ticks_S, run_app, Hrun. cbn [run fst].
  apply (step_tick_late env _ _ t0);
    [destruct s; reflexivity | destruct s; exact Ht | nia].
Qed.

Lemma keep_alive_without_pongs_witness :
  let s := fst (run sampleEnv [WsOpened] (makeSocket sampleEnv)) in
  let s1 := set_lastDateRecv (Some (Some 1000)) s in
  fst (run sampleEnv (ticks 1000 25000 1) s) = s1
  /\ fst (run sampleEnv (ticks 1000 25000 2) s) = ended s1.
Proof.
  cbv zeta.
  destruct (keep_alive_without_pongs sampleEnv
              (fst (run sampleEnv [WsOpened] (makeSocket sampleEnv))) 1000 1) as [H1 H2].
  - reflexivity.
  - apply (bool_decide_eq_true_1 (KeepAliveReq ∈ timers _)). vm_compute. reflexivity.
  - vm_compute. discriminate.
  - vm_compute. discriminate.
  - vm_compute. discriminate.
  - split; [exact H1 |]. apply H2. reflexivity.
Defined.

(** *** The phone check *)

Lemma reachable_phone_monitor env s : reachable env s -> phone_monitor_ok s.
Proof.
  intros [acts ->].
  generalize (phone_monitor_makeSocket env). generalize (makeSocket env).
  induction acts as [|a acts IH]; intros s H; [exact H |].
  cbn [run fst]. apply IH, step_phone_monitor, H.
Qed.

(** X17.  The phone check never runs idle.  On a socket in any state it
    can reach, when the phone-check interval fires while it is armed,
    some call needs the phone: the tick uses up an epoch for a new tag,
    hands the frame [tag,["admin","test"]] to an open transport, and
    reports the phone as not connected; the warning about a check
    without listeners is never logged.  On a transport that is not open
    no frame goes out: the promise of [sendAdminTest] is rejected with
    the error of [ws.send], which nobody handles and which is reported
    once the tick has returned.  When the interval is not armed, nothing
    happens. *)
Theorem phone_check_never_idle (env : Env) (s : State) :
  reachable env s ->
  step env PhoneCheckFires s
  = if decide (PhoneCheckInterval ∈ timers s)
    then (Ret tt, set_epoch (epoch s + 1)%N s,
          Log Info "checking phone connection..."
          :: TagGenerated (short_tag env s)
          :: trace_log env
          ++ (if writable s
              then [WsSend (DStr (short_tag env s +:+ ","
                                  +:+ JSON_stringify env (JArr [JStr "admin"; JStr "test"])));
                    PhoneConnectionChanged false]
              else [PhoneConnectionChanged false; Uncaught (not_open (readyState s))]))
    else (Ret tt, s, []).
Proof.
  intros Hreach. destruct (reachable_phone_monitor env s Hreach) as (H0 & H1 & H2).
  unfold step, if_armed. rewrite run_get.
  destruct (decide (PhoneCheckInterval ∈ timers s)) as [Hin | Hout]; [| reflexivity].
  assert (0 < phoneCheckListeners s) as Hpos by (apply H1, H2, Hin).
  unfold task, try_catch, phoneCheckTick. rewrite run_get.
  assert ((phoneCheckListeners s <=? 0) = false) as -> by (apply Z.leb_gt; exact Hpos).
  rewrite run_tell. unfold sendAdminTest.
  unfold try_catch. rewrite run_bind, run_bind, sendMessage_plain_run.
  unfold sent_outcome, sent_frames, short_tag.
  cbn [tag_supplied after_tag].
  destruct (writable s);
    cbv beta iota zeta delta [mbind M_bind mret M_ret tell outcome_of state_of effects_of
                              fst snd];
    rewrite ?app_nil_r; cbn [app]; rewrite <- ?app_assoc; reflexivity.
Qed.

Lemma phone_check_never_idle_witness :
  let s := fst (run sampleEnv [WsOpened; WaitForMessage "3.--0" true None]
                  (makeSocket sampleEnv)) in
  let s' := fst (run sampleEnv [WaitForMessage "3.--0" true None]
                   (makeSocket sampleEnv)) in
  step sampleEnv PhoneCheckFires s
  = (Ret tt, set_epoch 1%N s,
     [Log Info "checking phone connection...";
      TagGenerated "123.--0";
      WsSend (DStr "123.--0,admin,test");
      PhoneConnectionChanged false])
  /\ step sampleEnv PhoneCheckFires s'
     = (Ret tt, set_epoch 1%N s',
        [Log Info "checking phone connection...";
         TagGenerated "123.--0";
         PhoneConnectionChanged false;
         Uncaught (EError "WebSocket is not open: readyState 0 (CONNECTING)")]).
Proof.
  cbv zeta. split.
  - rewrite (phone_check_never_idle sampleEnv) by (eexists; reflexivity).
    vm_compute. reflexivity.
  - rewrite (phone_check_never_idle sampleEnv) by (eexists; reflexivity).
    vm_compute. reflexivity.
Defined.

(** *** [setQuery] *)

Lemma authInfo_querying env o (s : State) : authInfo (querying env o s) = authInfo s.
Proof.
  unfold querying. cbv zeta.
  pose proof (awaiting_fields env (chosen_tag env (qo_tag o) (qo_longTag o) s)
                (qo_requiresPhoneConnection o) (qo_timeoutMs o) (after_tag (qo_tag o) s))
    as H.
  cbv zeta in H. destruct H as (_ & H & _).
  rewrite authInfo_after_tag in H.
  revert H.
  generalize (awaiting env (chosen_tag env (qo_tag o) (qo_longTag o) s)
                (qo_requiresPhoneConnection o) (qo_timeoutMs o) (after_tag (qo_tag o) s)).
  intros s1 H. destruct s1; exact H.
Qed.

Lemma readyState_querying env o (s : State) : readyState (querying env o s) = readyState s.
Proof.
  unfold querying. cbv zeta.
  pose proof (awaiting_fields env (chosen_tag env (qo_tag o) (qo_longTag o) s)
                (qo_requiresPhoneConnection o) (qo_timeoutMs o) (after_tag (qo_tag o) s))
    as H.
  cbv zeta in H. destruct H as (_ & _ & _ & H & _).
  rewrite readyState_after_tag in H.
  revert H.
  generalize (awaiting env (chosen_tag env (qo_tag o) (qo_longTag o) s)
                (qo_requiresPhoneConnection o) (qo_timeoutMs o) (after_tag (qo_tag o) s)).
  intros s1 H. destruct s1; exact H.
Qed.

Lemma writable_querying env o (s : State) : writable (querying env o s) = writable s.
Proof. unfold writable. rewrite readyState_querying. reflexivity. Qed.

(** X18.  [setQuery] wraps the nodes in an [action] node of type [set]
    whose [epoch] attribute is the epoch at the call -- the epoch that
    the tag of the query embeds when the tag is generated -- and issues
    it as a query that expects success and needs the phone.  With the
    keys there and the transport open, one binary frame goes out under
    the given binary tag, by default [[WAMetric.group, WAFlag.ignore]];
    on a transport that is not open the call is rejected with the error
    of [ws.send] and no frame goes out.  Either way the wait and the
    query are noted under the same identifier. *)
Theorem setQuery_sends_action (env : Env) (s : State) (nodes : list jsval)
    (binaryTag : option (list Z)) (tag : option string) (keys : AuthInfo) :
  authInfo s = Some keys ->
  let node := JNode "action" [("epoch", pretty (epoch s)); ("type", "set")] (JArr nodes) in
  let t := chosen_tag env tag false s in
  let bt := default [WAMetric_group env; WAFlag_ignore env] binaryTag in
  let buff := aesEncrypt env (toBuffer env node) (encKey keys) in
  let r := setQuery env nodes binaryTag tag s in
  outcome_of r = (if writable s then Ret (nextId s) else Thrown (not_open (readyState s)))
  /\ List.filter is_WsSend (effects_of r)
     = (if writable s
        then [WsSend (DBuf (Buffer_from_string (t +:+ ",") ++ Buffer_from_array bt
                              ++ hmacSign env buff (macKey keys) ++ buff))]
        else [])
  /\ queries (state_of r) !! nextId s = Some (mkQuery node true)
  /\ waits (state_of r) !! nextId s = Some (pending_wait t true (nextId s))
  /\ (tag_supplied tag = false -> tag_epoch t = Some (epoch s)).
Proof.
  intros Hkeys. cbv zeta. unfold setQuery. rewrite run_get.
  set (node := JNode "action" [("epoch", pretty (epoch s)); ("type", "set")] (JArr nodes)).
  set (o := mkQueryOptions node None true tag false
              (Some (default [WAMetric_group env; WAFlag_ignore env] binaryTag)) true).
  destruct (query_run env o s) as (Hstate & Hout & Heff). cbv zeta in Hout, Heff.
  assert (outcome_of (query env o s)
          = (if writable s then Ret (nextId s) else Thrown (not_open (readyState s)))
          /\ List.filter is_WsSend (effects_of (query env o s))
             = (if writable s
                then [WsSend (DBuf (Buffer_from_string (chosen_tag env tag false s +:+ ",")
                                      ++ Buffer_from_array
                                           (default [WAMetric_group env; WAFlag_ignore env]
                                              binaryTag)
                                      ++ hmacSign env
                                           (aesEncrypt env (toBuffer env node) (encKey keys))
                                           (macKey keys)
                                      ++ aesEncrypt env (toBuffer env node) (encKey keys)))]
                else [])) as [H1 H2].
  { rewrite Hout, Heff. clear Hout Heff Hstate.
    pose proof (authInfo_querying env o s) as Hk. rewrite Hkeys in Hk.
    pose proof (writable_querying env o s) as Hw.
    pose proof (readyState_querying env o s) as Hr.
    assert (chosen_tag env (Some (chosen_tag env tag false s)) false (querying env o s)
            = chosen_tag env tag false s) as Htag.
    { unfold chosen_tag at 1. unfold tag_supplied. rewrite chosen_tag_not_empty.
      reflexivity. }
    change (qo_json o) with node. change (qo_tag o) with tag.
    change (qo_longTag o) with false.
    change (qo_binaryTag o)
      with (Some (default [WAMetric_group env; WAFlag_ignore env] binaryTag)).
    revert Hk Hw Hr Htag. generalize (querying env o s). intros s1 Hk Hw Hr Htag.
    pose proof (sendMessage_binary_run env s1 "action"
                  [("epoch", pretty (epoch s)); ("type", "set")] (JArr nodes)
                  (default [WAMetric_group env; WAFlag_ignore env] binaryTag)
                  (Some (chosen_tag env tag false s)) false keys Hk) as Hrun.
    fold node in Hrun. rewrite Hrun, Htag. unfold sent_outcome, sent_frames. rewrite Hw, Hr.
    unfold outcome_of, effects_of. cbn [fst snd tag_supplied].
    rewrite chosen_tag_not_empty. cbn [negb app].
    rewrite List.filter_app, filter_trace_log.
    destruct (writable s); split; reflexivity. }
  split; [exact H1 |]. split; [exact H2 |].
  rewrite Hstate. split; [apply (querying_query env o s) |].
  split; [apply (querying_wait env o s) |].
  intros Hno. unfold chosen_tag. rewrite Hno. apply tag_epoch_tag.
Qed.

Lemma setQuery_sends_action_witness :
  let s := fst (run sampleEnv [WsOpened; UpdateKeys (mkAuthInfo [] [])]
                  (makeSocket sampleEnv)) in
  authInfo s = Some (mkAuthInfo [] [])
  /\ writable s = true
  /\ outcome_of (setQuery sampleEnv [] None None s) = Ret 0%nat
  /\ queries (state_of (setQuery sampleEnv [] None None s)) !! 0%nat
     = Some (mkQuery (JNode "action" [("epoch", "0"); ("type", "set")] (JArr [])) true)
  /\ tag_epoch (chosen_tag sampleEnv None false s) = Some 0%N.
Proof.
  cbv zeta. split; [reflexivity |]. split; [reflexivity |].
  destruct (setQuery_sends_action sampleEnv
              (fst (run sampleEnv [WsOpened; UpdateKeys (mkAuthInfo [] [])]
                      (makeSocket sampleEnv)))
              [] None None (mkAuthInfo [] []) eq_refl) as (H1 & _ & H3 & _ & H5).
  split; [exact H1 |]. split; [exact H3 |]. apply H5. reflexivity.
Defined.

(** *** The listeners that [makeSocket] installs on [socketEvents] *)

Lemma remove_first_keeps l ls x : x ∈ ls -> x <> l -> x ∈ remove_first l ls.
Proof.
  intros Hin Hne. induction ls as [|y ls IH]; [exact Hin |].
  cbn [remove_first]. destruct (decide (y = l)) as [-> |].
  - apply elem_of_cons in Hin as [-> | Hin]; [congruence | exact Hin].
  - apply elem_of_cons in Hin as [-> | Hin];
      [apply list_elem_of_here | apply list_elem_of_further, IH, Hin].
Qed.

Lemma remove_last_keeps l ls x : x ∈ ls -> x <> l -> x ∈ remove_last l ls.
Proof.
  intros Hin Hne. unfold remove_last. rewrite elem_of_rev.
  apply remove_first_keeps; [rewrite elem_of_rev; exact Hin | exact Hne].
Qed.

Lemma builtin_same env s s' :
  socketEvents s' = socketEvents s -> waits s' = waits s ->
  builtin env s -> builtin env s'.
Proof.
  intros Hse Hw (H1 & H2 & H3). split; [| split].
  - intros q w. rewrite Hw. apply H1.
  - unfold listeners, registry in *. rewrite Hse. exact H2.
  - unfold listeners, registry in *. rewrite Hse. exact H3.
Qed.

Lemma stays_builtin_refl env s : stays_builtin env s s.
Proof. intros H; exact H. Qed.

Lemma stays_builtin_trans env s1 s2 s3 :
  stays_builtin env s1 s2 -> stays_builtin env s2 s3 -> stays_builtin env s1 s3.
Proof. intros H12 H23 H. apply H23, H12, H. Qed.

Lemma stays_builtin_epoch env s n : stays_builtin env s (set_epoch n s).
Proof. unfold stays_builtin. apply builtin_same; destruct s; reflexivity. Qed.

Lemma stays_builtin_date env s v : stays_builtin env s (set_lastDateRecv v s).
Proof. unfold stays_builtin. apply builtin_same; destruct s; reflexivity. Qed.

Lemma stays_builtin_auth env s v : stays_builtin env s (set_authInfo v s).
Proof. unfold stays_builtin. apply builtin_same; destruct s; reflexivity. Qed.

Lemma stays_builtin_ready env s rs : stays_builtin env s (set_readyState rs s).
Proof. unfold stays_builtin. apply builtin_same; destruct s; reflexivity. Qed.

Lemma stays_builtin_on env s em event l :
  installs env s em event l -> stays_builtin env s (state_of (on em event l s)).
Proof.
  intros _ (H1 & H2 & H3). unfold builtin. rewrite !listeners_on_app, !elem_of_app.
  split; [| tauto].
  intros q w Hw. apply (H1 q w). destruct s, em; exact Hw.
Qed.

Lemma removes_not_builtin s l :
  callbacks_ok s -> removes s l ->
  l <> PhoneConnectionListener /\ l <> CmdDisconnectListener.
Proof.
  intros Hok Hr. destruct Hr as [q | w | w | id | q w l Hw Hl | q w l Hw Hl];
    try (split; discriminate).
  - destruct (proj1 (Hok q w Hw)) as [H | [q' H]]; rewrite H in Hl;
      [discriminate Hl | injection Hl as <-; split; discriminate].
  - destruct (proj2 (Hok q w Hw)) as [H | [q' H]]; rewrite H in Hl;
      [discriminate Hl | injection Hl as <-; split; discriminate].
Qed.

Lemma stays_builtin_off env s em event l :
  removes s l -> stays_builtin env s (state_of (off em event l s)).
Proof.
  intros Hr (H1 & H2 & H3). destruct (removes_not_builtin s l H1 Hr) as [Hp Hc].
  unfold builtin. rewrite !listeners_off_same. split; [| split].
  - intros q w Hw. apply (H1 q w). rewrite off_keeps_waits in Hw. exact Hw.
  - destruct (decide _); [apply remove_last_keeps; [exact H2 | congruence] | exact H2].
  - destruct (decide _); [apply remove_last_keeps; [exact H3 | congruence] | exact H3].
Qed.

Lemma stays_builtin_set_timer env s t :
  t <> PhoneCheckInterval -> stays_builtin env s (state_of (set_timer t s)).
Proof. intros _. unfold stays_builtin. apply builtin_same; destruct s; reflexivity. Qed.

Lemma stays_builtin_clear_timer env s t :
  t <> PhoneCheckInterval -> stays_builtin env s (state_of (clear_timer t s)).
Proof. intros _. unfold stays_builtin. apply builtin_same; destruct s; reflexivity. Qed.

Lemma stays_builtin_new_wait env s tag r :
  stays_builtin env s
    (set_waits (<[nextId s := new_wait tag r]> (waits s)) (set_nextId (S (nextId s)) s)).
Proof.
  intros (H1 & H2 & H3). split; [| split; [destruct s; exact H2 | destruct s; exact H3]].
  intros q w. destruct s as [ep ld au pi pl rs wl se ti wa op qu ni].
  cbv beta iota delta [waits set_waits set_nextId nextId]. rewrite lookup_insert.
  destruct (decide (ni = q)) as [<- |].
  - intros Hw. injection Hw as <-. split; left; reflexivity.
  - apply (H1 q w).
Qed.

Lemma stays_builtin_wait_update env s q f :
  wait_update f -> stays_builtin env s (state_of (update_wait q f s)).
Proof.
  intros Hf (H1 & H2 & H3). split; [| split; [destruct s; exact H2 | destruct s; exact H3]].
  intros q' w'. destruct s as [ep ld au pi pl rs wl se ti wa op qu ni].
  cbv beta iota delta [waits set_waits update_wait modify state_of fst snd].
  rewrite lookup_alter. destruct (decide (q = q')) as [<- |]; [| apply (H1 q' w')].
  destruct (wa !! q) as [w|] eqn:Hw; [| discriminate].
  intros Hw'. injection Hw' as <-. specialize (H1 q w Hw).
  destruct Hf; cbn; try exact H1.
  - unfold settle_wait. destruct (w_settled w); exact H1.
  - split; [right; eexists; reflexivity | apply H1].
  - split; [apply H1 | right; eexists; reflexivity].
Qed.

Lemma stays_builtin_opens env s o : stays_builtin env s (set_opens o s).
Proof. unfold stays_builtin. apply builtin_same; destruct s; reflexivity. Qed.

Lemma stays_builtin_queries env s c : stays_builtin env s (set_queries c s).
Proof. unfold stays_builtin. apply builtin_same; destruct s; reflexivity. Qed.

Lemma stays_builtin_nextId env s : stays_builtin env s (set_nextId (S (nextId s)) s).
Proof. unfold stays_builtin. apply builtin_same; destruct s; reflexivity. Qed.

Lemma stays_builtin_start env s : stays_builtin env s (state_of (startPhoneCheckInterval s)).
Proof.
  rewrite startPhoneCheckInterval_run. unfold stays_builtin.
  apply builtin_same; destruct s as [? ? ? [] ? ? ? ? ? ? ? ? ?]; reflexivity.
Qed.

Lemma stays_builtin_clear env s : stays_builtin env s (state_of (clearPhoneCheckInterval s)).
Proof.
  rewrite clearPhoneCheckInterval_run. unfold stays_builtin.
  apply builtin_same; cbv beta iota delta [state_of fst snd];
    destruct (_ <=? _); destruct s; reflexivity.
Qed.

Lemma stays_builtin_ended env s : stays_builtin env s (ended s).
Proof. unfold stays_builtin. apply builtin_same; destruct s; reflexivity. Qed.

Ltac stays_builtin_facts env :=
  first
    [ exact (stays_builtin_refl env) | exact (stays_builtin_trans env)
    | exact (stays_builtin_epoch env) | exact (stays_builtin_date env)
    | exact (stays_builtin_auth env) | exact (stays_builtin_ready env)
    | exact (stays_builtin_on env) | exact (stays_builtin_off env)
    | exact (stays_builtin_set_timer env) | exact (stays_builtin_clear_timer env)
    | exact (stays_builtin_new_wait env) | exact (stays_builtin_wait_update env)
    | exact (stays_builtin_opens env) | exact (stays_builtin_queries env)
    | exact (stays_builtin_nextId env) | exact (stays_builtin_start env)
    | exact (stays_builtin_clear env) | exact (stays_builtin_ended env) ].

Lemma builtin_empty_on env :
  builtin env
    (state_of (on SocketEvents "CB:Cmd,type:disconnect" CmdDisconnectListener
      (state_of (on SocketEvents (PHONE_CONNECTION_CB env) PhoneConnectionListener
        (state_of (on Ws "close" OnWsClose
          (state_of (on Ws "error" OnWsError
            (state_of (on Ws "open" OnWsOpen
              (state_of (on Ws "message" OnMessageRecieved empty_state)))))))))))).
Proof.
  split; [| split].
  - intros q w H. exfalso. revert H. unfold empty_state. exec. rewrite lookup_empty.
    discriminate.
  - rewrite !listeners_on_app, !elem_of_app. left. right.
    destruct (decide _) as [_ | n]; [apply list_elem_of_here | exfalso; apply n; tauto].
  - rewrite !listeners_on_app, !elem_of_app. right.
    destruct (decide _) as [_ | n]; [apply list_elem_of_here | exfalso; apply n; tauto].
Qed.

Lemma builtin_makeSocket env : builtin env (makeSocket env).
Proof. apply builtin_empty_on. Qed.

Lemma reachable_builtin env s : reachable env s -> builtin env s.
Proof.
  intros [acts ->].
  apply (run_leads env (stays_builtin env)); try stays_builtin_facts env.
  apply builtin_makeSocket.
Qed.

Lemma notifications_ended error s : notifications error (ended s) = [].
Proof. unfold notifications. rewrite ended_no_listeners. reflexivity. Qed.

Lemma end_effects_filter error s :
  List.filter is_ws_close_notification (end_effects error s) = notifications error s.
Proof. apply end_effects_notifications. Qed.

(** An emission whose listeners either end the connection with [error]
    or do nothing: the connection is ended when one of the former is
    there, and the listeners of ['ws-close'] are notified once. *)
Lemma for_each_enders (invoke : listener -> arg -> M unit) event a
    (error : option exn) (ender : listener -> Prop) (ls : list listener) :
  (forall l s, l ∈ ls -> ender l ->
     exists extra, invoke l a s = (Ret tt, ended s, end_effects error s ++ extra)
                   /\ List.filter is_ws_close_notification extra = []) ->
  (forall l s, l ∈ ls -> ~ ender l -> invoke l a s = (Ret tt, s, [])) ->
  (forall l, l ∈ ls -> ender l \/ ~ ender l) ->
  forall s,
    let r := for_each ls (fun l => tell (Invoke SocketEvents event l a) ;; invoke l a) s in
    outcome_of r = Ret tt
    /\ ((exists l, l ∈ ls /\ ender l) ->
        state_of r = ended s
        /\ List.filter is_ws_close_notification (effects_of r) = notifications error s)
    /\ ((forall l, l ∈ ls -> ~ ender l) ->
        state_of r = s
        /\ List.filter is_ws_close_notification (effects_of r) = []).
Proof.
  induction ls as [|l ls IH]; intros Hend Hinert Hdec s; cbv zeta.
  - split; [reflexivity |]. split.
    + intros (l & Hl & _). apply elem_of_nil in Hl. destruct Hl.
    + intros _. split; reflexivity.
  - cbn [for_each]. rewrite run_bind, run_tell.
    assert (forall l0 s0, l0 ∈ ls -> ender l0 ->
              exists extra, invoke l0 a s0 = (Ret tt, ended s0, end_effects error s0 ++ extra)
                            /\ List.filter is_ws_close_notification extra = []) as Hend'
      by (intros l0 s0 H; apply Hend, list_elem_of_further, H).
    assert (forall l0 s0, l0 ∈ ls -> ~ ender l0 -> invoke l0 a s0 = (Ret tt, s0, [])) as Hinert'
      by (intros l0 s0 H; apply Hinert, list_elem_of_further, H).
    assert (forall l0, l0 ∈ ls -> ender l0 \/ ~ ender l0) as Hdec'
      by (intros l0 H; apply Hdec, list_elem_of_further, H).
    destruct (Hdec l (list_elem_of_here _ _)) as [He | Hne].
    + destruct (Hend l s (list_elem_of_here _ _) He) as (extra & -> & Hextra).
      cbn [outcome_of state_of effects_of fst snd].
      destruct (IH Hend' Hinert' Hdec' (ended s)) as (E1 & E2 & E3).
      destruct (for_each ls _ (ended s)) as [[o2 s2] t2].
      cbn [outcome_of state_of effects_of fst snd] in *. subst o2.
      split; [reflexivity |]. split.
      * intros _.
        assert (s2 = ended s
                /\ List.filter is_ws_close_notification t2 = []) as [-> Ht2].
        { assert ((exists l0, l0 ∈ ls /\ ender l0) \/ (forall l0, l0 ∈ ls -> ~ ender l0))
            as [Hsome | Hnone].
          { clear -Hdec'. induction ls as [|x ls IHls]; [right; intros l0 H;
              apply elem_of_nil in H; destruct H |].
            destruct (Hdec' x (list_elem_of_here _ _)) as [Hx | Hx];
              [left; exists x; split; [apply list_elem_of_here | exact Hx] |].
            destruct (IHls (fun l0 H => Hdec' l0 (list_elem_of_further _ _ _ H)))
              as [(l0 & Hl0 & Hel0) | Hnone].
            - left. exists l0. split; [apply list_elem_of_further, Hl0 | exact Hel0].
            - right. intros l0 Hl0. apply elem_of_cons in Hl0 as [-> | Hl0];
                [exact Hx | apply Hnone, Hl0]. }
          - destruct (E2 Hsome) as [-> Hn]. rewrite ended_ended, notifications_ended in *.
            split; [reflexivity | exact Hn].
          - apply (E3 Hnone). }
        split; [reflexivity |].
        rewrite List.filter_app, Ht2, app_nil_r.
        cbn [List.filter is_ws_close_notification].
        rewrite List.filter_app, end_effects_filter, Hextra, app_nil_r.
        reflexivity.
      * intros Hnone. exfalso. apply (Hnone l (list_elem_of_here _ _)), He.
    + rewrite (Hinert l s (list_elem_of_here _ _) Hne).
      cbn [outcome_of state_of effects_of fst snd].
      destruct (IH Hend' Hinert' Hdec' s) as (E1 & E2 & E3).
      destruct (for_each ls _ s) as [[o2 s2] t2].
      cbn [outcome_of state_of effects_of fst snd] in *. subst o2.
      split; [reflexivity |]. split.
      * intros (l0 & Hl0 & Hel0). apply elem_of_cons in Hl0 as [-> | Hl0]; [contradiction |].
        destruct (E2 (ex_intro _ l0 (conj Hl0 Hel0))) as [-> Hn].
        split; [reflexivity |]. cbn [app List.filter is_ws_close_notification]. exact Hn.
      * intros Hnone.
        destruct (E3 (fun l0 H => Hnone l0 (list_elem_of_further _ _ _ H))) as [-> Hn].
        split; [reflexivity |]. cbn [app List.filter is_ws_close_notification]. exact Hn.
Qed.

Lemma emit_enders env event a (error : option exn) (ender : listener) (s : State) :
  (forall s0, exists extra,
     invoke_socketEvents env ender a s0 = (Ret tt, ended s0, end_effects error s0 ++ extra)
     /\ List.filter is_ws_close_notification extra = []) ->
  (forall l s0, l ∈ listeners SocketEvents event s -> l <> ender ->
     invoke_socketEvents env l a s0 = (Ret tt, s0, [])) ->
  ender ∈ listeners SocketEvents event s ->
  let r := socketEvents_emit env event a s in
  outcome_of r = Ret true
  /\ state_of r = ended s
  /\ List.filter is_ws_close_notification (effects_of r) = notifications error s.
Proof.
  intros Hend Hinert Hin. cbv zeta. unfold socketEvents_emit, emit.
  rewrite run_get, run_bind.
  destruct (for_each_enders (invoke_socketEvents env) event a error (fun l => l = ender)
              (listeners SocketEvents event s)) with (s := s) as (E1 & E2 & _).
  - intros l s0 _ ->. apply Hend.
  - intros l s0 Hl Hne. apply Hinert; assumption.
  - intros l _. destruct (decide (l = ender)); [left | right]; assumption.
  - destruct (E2 (ex_intro _ ender (conj Hin eq_refl))) as [E3 E4].
    destruct (for_each _ _ s) as [[o s1] t1].
    cbn [outcome_of state_of effects_of fst snd] in *. subst o s1.
    cbv beta iota zeta delta [mret M_ret]. rewrite app_nil_r.
    split; [| split; [reflexivity | exact E4]].
    destruct (listeners SocketEvents event s); [apply elem_of_nil in Hin; destruct Hin |].
    reflexivity.
Qed.

(** X19.  The disconnect command of the server ends the connection.  On
    a socket in any state it can reach, an emission on
    ['CB:Cmd,type:disconnect'] with a payload whose second element is
    there leaves the socket as [end] leaves it, and every listener of
    ['ws-close'] is called once, with the error 'Connection terminated
    by server' that names the kind of the payload, or 'unknown', and
    whose reason is [connectionReplaced] for the kind ['replaced'] and
    [connectionLost] for any other. *)
Theorem disconnect_command_ends (env : Env) (s : State) (json : jsval) :
  reachable env s ->
  PHONE_CONNECTION_CB env <> "CB:Cmd,type:disconnect" ->
  nullish (get_index json 1) = false ->
  let r := socketEvents_emit env "CB:Cmd,type:disconnect" (ArgJson json) s in
  outcome_of r = Ret true
  /\ state_of r = ended s
  /\ List.filter is_ws_close_notification (effects_of r)
     = notifications (Some (server_disconnect json)) s.
Proof.
  intros Hreach Hphone Hjson.
  apply (emit_enders env _ _ (Some (server_disconnect json)) CmdDisconnectListener).
  - intros s0. exists []. split; [| reflexivity].
    cbn [invoke_socketEvents arg_json]. unfold cmdDisconnectListener.
    assert (nullish json = false) as Hj
      by (destruct json; try reflexivity; discriminate Hjson).
    rewrite app_nil_r.
    destruct json; try discriminate Hj;
      (destruct (get_index _ 1) eqn:E; try discriminate Hjson;
       rewrite end__run; unfold server_disconnect; rewrite E; reflexivity).
  - intros l s0 Hl Hne. apply (reachable_typed env s Hreach) in Hl.
    inversion Hl as [ | | | | Hev | Hev | q' w' Hw' Hev | | | q' Hev | | | | ? ? id];
      subst; try congruence; try discriminate Hev; reflexivity.
  - apply (reachable_builtin env s Hreach).
Qed.

Lemma disconnect_command_ends_witness :
  let s := fst (run sampleEnv [WsOpened; Listen Ws "ws-close" 1] (makeSocket sampleEnv)) in
  let json := JArr [JStr "Cmd"; JObj [("type", JStr "disconnect"); ("kind", JStr "replaced")]] in
  let r := socketEvents_emit sampleEnv "CB:Cmd,type:disconnect" (ArgJson json) s in
  state_of r = ended s
  /\ List.filter is_ws_close_notification (effects_of r)
     = [Invoke Ws "ws-close" (External 1)
          (ArgError (Some (EBoom (mkBoom
             ("Connection terminated by server: " +:+ dquote +:+ "replaced" +:+ dquote)
             (StReason connectionReplaced) None))))].
Proof.
  cbv zeta.
  destruct (disconnect_command_ends sampleEnv
              (fst (run sampleEnv [WsOpened; Listen Ws "ws-close" 1] (makeSocket sampleEnv)))
              (JArr [JStr "Cmd";
                     JObj [("type", JStr "disconnect"); ("kind", JStr "replaced")]]))
    as (_ & H2 & H3).
  - eexists. reflexivity.
  - discriminate.
  - reflexivity.
  - split; [exact H2 |]. rewrite H3. vm_compute. reflexivity.
Defined.

(** X20.  The phone reporting that it is not connected ends the
    connection.  On a socket in any state it can reach, an emission on
    [PHONE_CONNECTION_CB] with a payload array whose second element is
    falsy leaves the socket as [end] leaves it, and every listener of
    ['ws-close'] is called once, with the error 'Connection terminated
    by phone' and the reason [connectionLost]; the listeners of the
    pending calls that wait for the phone do nothing. *)
Theorem phone_disconnected_ends (env : Env) (s : State) (xs : list jsval) :
  reachable env s ->
  PHONE_CONNECTION_CB env <> "CB:Cmd,type:disconnect" ->
  (forall t, PHONE_CONNECTION_CB env <> "TAG:" +:+ t) ->
  truthy (get_index (JArr xs) 1) = false ->
  let r := socketEvents_emit env (PHONE_CONNECTION_CB env) (ArgJson (JArr xs)) s in
  outcome_of r = Ret true
  /\ state_of r = ended s
  /\ List.filter is_ws_close_notification (effects_of r)
     = notifications (Some phone_disconnect) s.
Proof.
  intros Hreach Hcmd Htag Hfalsy.
  apply (emit_enders env _ _ (Some phone_disconnect) PhoneConnectionListener).
  - intros s0. exists [Log Info "Connection terminated by phone, closing..."].
    split; [| reflexivity].
    cbn [invoke_socketEvents arg_json]. unfold phoneConnectionListener.
    rewrite Hfalsy. cbn [negb]. rewrite run_bind, end__run. reflexivity.
  - intros l s0 Hl Hne. apply (reachable_typed env s Hreach) in Hl.
    inversion Hl as [ | | | | Hev | Hev | q' w' Hw' Hev | | | q' Hev | | | | ? ? id];
      subst; try congruence;
      try (exfalso; eapply Htag; eauto; fail).
    + cbn [invoke_socketEvents arg_json]. unfold exitQueryListener.
      rewrite run_ret, Hfalsy. reflexivity.
    + reflexivity.
  - apply (reachable_builtin env s Hreach).
Qed.

Lemma phone_disconnected_ends_witness :
  let s := fst (run sampleEnv [WsOpened; WaitForMessage "3.--0" true None]
                  (makeSocket sampleEnv)) in
  let r := socketEvents_emit sampleEnv "CB:Pong" (ArgJson (JArr [JStr "Pong"; JBool false])) s in
  outcome_of r = Ret true /\ state_of r = ended s.
Proof.
  cbv zeta.
  destruct (phone_disconnected_ends sampleEnv
              (fst (run sampleEnv [WsOpened; WaitForMessage "3.--0" true None]
                      (makeSocket sampleEnv)))
              [JStr "Pong"; JBool false]) as (H1 & H2 & _).
  - eexists. reflexivity.
  - discriminate.
  - intros t. discriminate.
  - reflexivity.
  - split; [exact H1 | exact H2].
Defined.
